(** * ProofSnap browser extension: upload queue, stores and capture outcomes

    A shallow embedding of the service layer of the extension
    (src/services/UploadService.ts, src/services/StorageService.ts,
    src/content/selection-overlay.ts and the background service worker),
    followed by the properties proved about it.

    Part I holds the embedding, one module per source file.  Part II holds
    the lemmas and theorems. *)

From Stdlib Require Import ZArith Ascii String DecimalString Lia.
From stdpp Require Import base option list sorting strings gmap.

Set Warnings "-register-all".
Local Open Scope Z_scope.

(* ===================================================================== *)
(** * Part I.  The embedding                                              *)
(* ===================================================================== *)

(** ** The JavaScript values the services handle *)

Module Js.

(** An [await]ed call either returns or throws. *)
Inductive Completion (A : Type) : Type :=
| Returns (a : A)
| Throws (name : string).
Arguments Returns {A} a.
Arguments Throws {A} name.

(** Strings are sequences of bytes (UTF-8 text).  The code never indexes
    into a string, so code units and bytes need not be told apart. *)

Definition isUpper (c : ascii) : bool :=
  let n := nat_of_ascii c in (65 <=? n)%nat && (n <=? 90)%nat.

Definition lowerChar (c : ascii) : ascii :=
  if isUpper c then ascii_of_nat (nat_of_ascii c + 32) else c.

(** [String.prototype.toLowerCase], on the ASCII letters. *)
Fixpoint toLowerCase (s : string) : string :=
  match s with
  | EmptyString => EmptyString
  | String c r => String (lowerChar c) (toLowerCase r)
  end.

Fixpoint startsWith (s needle : string) : bool :=
  match needle, s with
  | EmptyString, _ => true
  | String _ _, EmptyString => false
  | String a n, String b r => Ascii.eqb a b && startsWith r n
  end.

(** [String.prototype.includes]. *)
Fixpoint includes (s needle : string) : bool :=
  startsWith s needle ||
  match s with
  | EmptyString => false
  | String _ r => includes r needle
  end.

(** A number is kept as the decimal [mantissa * 10 ^ exponent] it denotes:
    the services store, copy and print numbers and never compute with them
    (the timer that animates the progress bar apart, which is left out). *)
Record Number : Type := Decimal { mantissa : Z; exponent : Z }.

Definition Int (n : Z) : Number := Decimal n 0.

(** A JavaScript value.  An object is the list of its own properties in
    insertion order. *)
Inductive JsValue : Type :=
| JUndefined
| JNull
| JBool (b : bool)
| JNumber (x : Number)
| JString (s : string)
| JArray (items : list JsValue)
| JObject (props : list (string * JsValue)).

Definition JInt (n : Z) : JsValue := JNumber (Int n).

(** Truthiness, as [if (v)], [v || d] and [!v] test it. *)
Definition truthy (v : JsValue) : bool :=
  match v with
  | JUndefined | JNull => false
  | JBool b => b
  | JNumber x => negb (mantissa x =? 0)
  | JString s => negb (String.eqb s EmptyString)
  | JArray _ | JObject _ => true
  end.

(** Property read [o.k] on a property list: [undefined] when absent. *)
Fixpoint getProp (k : string) (props : list (string * JsValue)) : option JsValue :=
  match props with
  | [] => None
  | (k', v) :: r => if String.eqb k' k then Some v else getProp k r
  end.

(** Property write [o.k = v]: an existing property keeps its place. *)
Fixpoint setProp (k : string) (v : JsValue) (props : list (string * JsValue))
  : list (string * JsValue) :=
  match props with
  | [] => [(k, v)]
  | (k', v') :: r =>
      if String.eqb k' k then (k', v) :: r else (k', v') :: setProp k v r
  end.

Fixpoint indexed (i : nat) (vs : list JsValue) : list (string * JsValue) :=
  match vs with
  | [] => []
  | v :: r =>
      (NilZero.string_of_uint (Nat.to_uint i), v) :: indexed (S i) r
  end.

Fixpoint chars (s : string) : list JsValue :=
  match s with
  | EmptyString => []
  | String c r => JString (String c EmptyString) :: chars r
  end.

(** The own enumerable properties an object spread [{...v}] copies. *)
Definition ownProps (v : JsValue) : list (string * JsValue) :=
  match v with
  | JObject props => props
  | JArray items => indexed 0 items
  | JString s => indexed 0 (chars s)
  | _ => []
  end.

(** [{...a, ...b}] where [a] is already a property list. *)
Definition spread (a : list (string * JsValue)) (b : JsValue)
  : list (string * JsValue) :=
  fold_left (fun acc kv => setProp kv.1 kv.2 acc) (ownProps b) a.

(** *** [JSON.parse]

    The runtime's parser, for the JSON grammar of RFC 8259.  It returns
    [None] where [JSON.parse] throws a [SyntaxError].  A number literal is
    kept as the decimal it writes, and an escape [\uXXXX] is stored as the
    UTF-8 bytes of that code point. *)

Definition dquote : ascii := ascii_of_nat 34.
Definition backslash : ascii := ascii_of_nat 92.
Definition newline : ascii := ascii_of_nat 10.

Definition isWs (c : ascii) : bool :=
  match nat_of_ascii c with
  | 32%nat | 9%nat | 10%nat | 13%nat => true
  | _ => false
  end.

Fixpoint skipWs (s : string) : string :=
  match s with
  | String c r => if isWs c then skipWs r else s
  | EmptyString => s
  end.

Definition isDigit (c : ascii) : bool :=
  let n := nat_of_ascii c in (48 <=? n)%nat && (n <=? 57)%nat.

Definition digitVal (c : ascii) : Z := Z.of_nat (nat_of_ascii c) - 48.

Definition hexVal (c : ascii) : option Z :=
  let n := nat_of_ascii c in
  if (48 <=? n)%nat && (n <=? 57)%nat then Some (Z.of_nat n - 48)
  else if (97 <=? n)%nat && (n <=? 102)%nat then Some (Z.of_nat n - 87)
  else if (65 <=? n)%nat && (n <=? 70)%nat then Some (Z.of_nat n - 55)
  else None.

(** Reads a run of digits: the number read so far, how many digits were
    read, and what follows them. *)
Fixpoint readDigits (acc : Z) (n : nat) (s : string) : Z * nat * string :=
  match s with
  | String c r =>
      if isDigit c then readDigits (acc * 10 + digitVal c) (S n) r
      else (acc, n, s)
  | EmptyString => (acc, n, s)
  end.

Definition readSign (s : string) : bool * string :=
  match s with
  | String c r => if Ascii.eqb c "-" then (true, r) else (false, s)
  | EmptyString => (false, s)
  end.

Definition readFraction (ip : Z) (s : string) : option (Z * nat * string) :=
  match s with
  | String c r =>
      if Ascii.eqb c "." then
        let '(m, k, s') := readDigits ip 0 r in
        if (k =? 0)%nat then None else Some (m, k, s')
      else Some (ip, 0%nat, s)
  | EmptyString => Some (ip, 0%nat, s)
  end.

Definition readExponent (s : string) : option (Z * string) :=
  match s with
  | String c r =>
      if Ascii.eqb c "e" || Ascii.eqb c "E" then
        let '(neg, r') :=
          match r with
          | String d r1 =>
              if Ascii.eqb d "-" then (true, r1)
              else if Ascii.eqb d "+" then (false, r1) else (false, r)
          | EmptyString => (false, r)
          end in
        let '(ev, k, s') := readDigits 0 0 r' in
        if (k =? 0)%nat then None else Some (if neg then - ev else ev, s')
      else Some (0, s)
  | EmptyString => Some (0, s)
  end.

Definition parseNumber (s : string) : option (JsValue * string) :=
  let '(neg, s1) := readSign s in
  match s1 with
  | String c r =>
      if isDigit c then
        let '(ip, _, s2) :=
          if Ascii.eqb c "0" then (0, 1%nat, r) else readDigits 0 0 s1 in
        match readFraction ip s2 with
        | None => None
        | Some (m, k, s3) =>
            match readExponent s3 with
            | None => None
            | Some (ev, s4) =>
                Some (JNumber (Decimal (if neg then - m else m) (ev - Z.of_nat k)), s4)
            end
        end
      else None
  | EmptyString => None
  end.

Definition byteOf (n : Z) : ascii := ascii_of_nat (Z.to_nat n).

(** The UTF-8 bytes of a code point below 65536. *)
Definition utf8 (cp : Z) (rest : string) : string :=
  if cp <? 128 then String (byteOf cp) rest
  else if cp <? 2048 then
    String (byteOf (192 + cp / 64)) (String (byteOf (128 + cp mod 64)) rest)
  else
    String (byteOf (224 + cp / 4096))
      (String (byteOf (128 + (cp / 64) mod 64))
         (String (byteOf (128 + cp mod 64)) rest)).

Definition unescape (c : ascii) : option ascii :=
  if Ascii.eqb c dquote then Some dquote
  else if Ascii.eqb c backslash then Some backslash
  else if Ascii.eqb c "/" then Some "/"%char
  else if Ascii.eqb c "b" then Some (ascii_of_nat 8)
  else if Ascii.eqb c "f" then Some (ascii_of_nat 12)
  else if Ascii.eqb c "n" then Some (ascii_of_nat 10)
  else if Ascii.eqb c "r" then Some (ascii_of_nat 13)
  else if Ascii.eqb c "t" then Some (ascii_of_nat 9)
  else None.

(** The characters of a string literal, after its opening quote. *)
Fixpoint parseChars (s : string) : option (string * string) :=
  match s with
  | EmptyString => None
  | String c r =>
      if Ascii.eqb c dquote then Some (EmptyString, r)
      else if Ascii.eqb c backslash then
        match r with
        | String e r1 =>
            if Ascii.eqb e "u" then
              match r1 with
              | String h1 (String h2 (String h3 (String h4 r2))) =>
                  match hexVal h1, hexVal h2, hexVal h3, hexVal h4 with
                  | Some a, Some b, Some c', Some d =>
                      match parseChars r2 with
                      | Some (str, rest) =>
                          Some (utf8 (((a * 16 + b) * 16 + c') * 16 + d) str, rest)
                      | None => None
                      end
                  | _, _, _, _ => None
                  end
              | _ => None
              end
            else
              match unescape e with
              | Some x =>
                  match parseChars r1 with
                  | Some (str, rest) => Some (String x str, rest)
                  | None => None
                  end
              | None => None
              end
        | EmptyString => None
        end
      else if (nat_of_ascii c <? 32)%nat then None
      else
        match parseChars r with
        | Some (str, rest) => Some (String c str, rest)
        | None => None
        end
  end.

Fixpoint stripPrefix (p s : string) : option string :=
  match p, s with
  | EmptyString, _ => Some s
  | String _ _, EmptyString => None
  | String a p', String b s' =>
      if Ascii.eqb a b then stripPrefix p' s' else None
  end.

Definition parseLiteral (s : string) : option (JsValue * string) :=
  match stripPrefix "true" s with
  | Some r => Some (JBool true, r)
  | None =>
      match stripPrefix "false" s with
      | Some r => Some (JBool false, r)
      | None =>
          match stripPrefix "null" s with
          | Some r => Some (JNull, r)
          | None => parseNumber s
          end
      end
  end.

Fixpoint parseValue (fuel : nat) (s : string) {struct fuel}
  : option (JsValue * string) :=
  match fuel with
  | O => None
  | S f =>
      match skipWs s with
      | EmptyString => None
      | String c r =>
          if Ascii.eqb c dquote then
            match parseChars r with
            | Some (str, rest) => Some (JString str, rest)
            | None => None
            end
          else if Ascii.eqb c "[" then
            match skipWs r with
            | String c' r' =>
                if Ascii.eqb c' "]" then Some (JArray [], r')
                else parseElements f (String c' r') []
            | EmptyString => None
            end
          else if Ascii.eqb c "{" then
            match skipWs r with
            | String c' r' =>
                if Ascii.eqb c' "}" then Some (JObject [], r')
                else parseMembers f (String c' r') []
            | EmptyString => None
            end
          else parseLiteral (String c r)
      end
  end
with parseElements (fuel : nat) (s : string) (acc : list JsValue) {struct fuel}
  : option (JsValue * string) :=
  match fuel with
  | O => None
  | S f =>
      match parseValue f s with
      | None => None
      | Some (v, rest) =>
          match skipWs rest with
          | String c r =>
              if Ascii.eqb c "," then parseElements f r (acc ++ [v])
              else if Ascii.eqb c "]" then Some (JArray (acc ++ [v]), r)
              else None
          | EmptyString => None
          end
      end
  end
with parseMembers (fuel : nat) (s : string) (acc : list (string * JsValue))
  {struct fuel} : option (JsValue * string) :=
  match fuel with
  | O => None
  | S f =>
      match skipWs s with
      | String q r =>
          if Ascii.eqb q dquote then
            match parseChars r with
            | None => None
            | Some (k, rest) =>
                match skipWs rest with
                | String c r1 =>
                    if Ascii.eqb c ":" then
                      match parseValue f r1 with
                      | None => None
                      | Some (v, rest') =>
                          match skipWs rest' with
                          | String c' r2 =>
                              if Ascii.eqb c' "," then
                                parseMembers f r2 (setProp k v acc)
                              else if Ascii.eqb c' "}" then
                                Some (JObject (setProp k v acc), r2)
                              else None
                          | EmptyString => None
                          end
                      end
                    else None
                | EmptyString => None
                end
            end
          else None
      | EmptyString => None
      end
  end.

Definition JSON_parse (text : string) : option JsValue :=
  match parseValue (2 + 2 * String.length text) text with
  | Some (v, rest) =>
      match skipWs rest with
      | EmptyString => Some v
      | String _ _ => None
      end
  | None => None
  end.

(** *** [Number::toString] and [JSON.stringify] *)

Definition digits (n : Z) : string :=
  NilZero.string_of_uint (N.to_uint (Z.to_N n)).

Fixpoint zeros (n : nat) : string :=
  match n with
  | O => EmptyString
  | S n' => String "0" (zeros n')
  end.

(** Drops the zeros a digit string ends with, and counts them. *)
Fixpoint stripZeros (s : string) : string * nat :=
  match s with
  | EmptyString => (EmptyString, O)
  | String c r =>
      let '(r', n) := stripZeros r in
      match r' with
      | EmptyString =>
          if Ascii.eqb c "0" then (EmptyString, S n)
          else (String c EmptyString, n)
      | String _ _ => (String c r', n)
      end
  end.

(** The decimal text of the number [m * 10 ^ e], laid out as
    [Number::toString] lays out its shortest digits.  The digits printed
    are those of [m]: this is the text JavaScript prints when they are the
    shortest digits that identify a double, which holds of every whole
    number below 2^53 and of the short decimals the services hold, and
    not of a longer whole number, which a double rounds. *)
Definition Number_toString (x : Number) : string :=
  let m := mantissa x in
  let e := exponent x in
  if m =? 0 then "0"
  else
    let '(ds, z) := stripZeros (digits (Z.abs m)) in
    let k := Z.of_nat (String.length ds) in
    let n := k + e + Z.of_nat z in
    let body :=
      if (k <=? n) && (n <=? 21) then ds +:+ zeros (Z.to_nat (n - k))
      else if (0 <? n) && (n <=? 21) then
        String.substring 0 (Z.to_nat n) ds +:+ "." +:+
        String.substring (Z.to_nat n) (Z.to_nat (k - n)) ds
      else if (-6 <? n) && (n <=? 0) then
        "0." +:+ zeros (Z.to_nat (- n)) +:+ ds
      else
        let ex := n - 1 in
        let es := (if ex <? 0 then "e-" else "e+") +:+ digits (Z.abs ex) in
        match ds with
        | EmptyString => EmptyString
        | String d EmptyString => String d es
        | String d r => String d ("." +:+ r +:+ es)
        end in
    if m <? 0 then "-" +:+ body else body.

Definition hexDigit (n : nat) : ascii :=
  if (n <? 10)%nat then ascii_of_nat (48 + n) else ascii_of_nat (87 + n).

Definition quoteChar (c : ascii) (rest : string) : string :=
  let n := nat_of_ascii c in
  if Ascii.eqb c dquote then String backslash (String dquote rest)
  else if Ascii.eqb c backslash then String backslash (String backslash rest)
  else if (n =? 8)%nat then String backslash (String "b" rest)
  else if (n =? 12)%nat then String backslash (String "f" rest)
  else if (n =? 10)%nat then String backslash (String "n" rest)
  else if (n =? 13)%nat then String backslash (String "r" rest)
  else if (n =? 9)%nat then String backslash (String "t" rest)
  else if (n <? 32)%nat then
    String backslash
      (String "u" (String "0" (String "0"
         (String (hexDigit (n / 16)) (String (hexDigit (n mod 16)) rest)))))
  else String c rest.

Fixpoint quoteChars (s : string) (rest : string) : string :=
  match s with
  | EmptyString => rest
  | String c r => quoteChar c (quoteChars r rest)
  end.

(** [QuoteJSONString]. *)
Definition quote (s : string) : string :=
  String dquote (quoteChars s (String dquote EmptyString)).

Definition nl : string := String newline EmptyString.

(** The members of an object that get serialized: [keys] in order, each
    with the text of its value; a key the object lacks, or whose value has
    no JSON text, is left out. *)
Fixpoint members (sep : string) (keys : list string)
  (texts : list (string * option string)) : list string :=
  match keys with
  | [] => []
  | k :: r =>
      match list_find (fun kt => kt.1 = k) texts with
      | Some (_, (_, Some t)) => (quote k +:+ sep +:+ t) :: members sep r texts
      | _ => members sep r texts
      end
  end.

Definition wrap (opening closing gap indent : string) (parts : list string)
  : string :=
  match parts with
  | [] => opening +:+ closing
  | _ :: _ =>
      let inner := indent +:+ gap in
      if String.eqb gap EmptyString
      then opening +:+ String.concat "," parts +:+ closing
      else opening +:+ nl +:+ inner +:+
           String.concat ("," +:+ nl +:+ inner) parts +:+
           nl +:+ indent +:+ closing
  end.

(** [SerializeJSONProperty]: [allow] is the property list a replacer array
    gives (already without duplicates), [gap] the indentation unit.  [None]
    stands for [undefined]. *)
Fixpoint serialize (allow : option (list string)) (gap indent : string)
  (v : JsValue) : option string :=
  match v with
  | JUndefined => None
  | JNull => Some "null"
  | JBool true => Some "true"
  | JBool false => Some "false"
  | JNumber x => Some (Number_toString x)
  | JString s => Some (quote s)
  | JArray items =>
      let parts :=
        map (fun x => default "null" (serialize allow gap (indent +:+ gap) x))
            items in
      Some (wrap "[" "]" gap indent parts)
  | JObject props =>
      let texts :=
        map (fun kv => (kv.1, serialize allow gap (indent +:+ gap) kv.2))
            props in
      let keys := default (map fst props) allow in
      let sep := if String.eqb gap EmptyString then ":" else ": " in
      Some (wrap "{" "}" gap indent (members sep keys texts))
  end.

(** The property list of a replacer array: its names, each once, in the
    order of their first occurrence. *)
Fixpoint propertyList (seen names : list string) : list string :=
  match names with
  | [] => []
  | k :: r =>
      if bool_decide (k ∈ seen) then propertyList seen r
      else k :: propertyList (k :: seen) r
  end.

(** [JSON.stringify(value, replacer, space)] with an optional replacer
    array and a number of spaces. *)
Definition JSON_stringify (v : JsValue) (replacer : option (list string))
  (space : nat) : option string :=
  serialize (propertyList [] <$> replacer)
            (String.string_of_list_ascii (replicate space " "%char))
            EmptyString v.

End Js.

(** ** src/services/StorageService.ts (the small-record store) *)

Module StorageService.
Import Js.

(** [chrome.storage.local], with the keys the queue and the settings use.
    [user_settings] holds the stored text as it is.  [upload_queue] holds
    the array of IDs that its stored JSON text encodes: [setUploadQueueIds]
    is its only writer.  A key that is not stored is [None].  The
    authentication keys are left out. *)
Record Storage : Type := {
  user_settings : option string;
  upload_queue : option (list string);
  insufficient_credits_dismissed : option bool;
}.

Definition emptyStorage : Storage :=
  {| user_settings := None; upload_queue := None;
     insufficient_credits_dismissed := None |}.

Definition DEFAULT_SETTINGS : list (string * JsValue) :=
  [ ("autoUpload", JBool true);
    ("includeLocation", JBool false);
    ("includeTimestamp", JBool true);
    ("includeWebsiteInfo", JBool true);
    ("timestampSize", JString "medium");
    ("timestampFormat", JString "full");
    ("timestampOpacity", JNumber (Int 1));
    ("timestampPosition", JString "top-left");
    ("defaultCaptureMode", JString "visible");
    ("screenshotFormat", JString "png");
    ("screenshotQuality", JNumber (Int 90));
    ("huntModeEnabled", JBool false);
    ("huntModeHashtags", JString "#ProofSnapHunt #AIHunt");
    ("huntModeMessage", JString "🎯 I spotted this satisfying!") ].

Definition setSettings (settings : list (string * JsValue)) (st : Storage)
  : Storage :=
  match JSON_stringify (JObject settings) None 0 with
  | Some text =>
      {| user_settings := Some text;
         upload_queue := upload_queue st;
         insufficient_credits_dismissed := insufficient_credits_dismissed st |}
  | None => st
  end.

(** [init]: persist the defaults on first run. *)
Definition init (st : Storage) : Storage :=
  match user_settings st with
  | Some (String _ _) => st
  | _ => setSettings DEFAULT_SETTINGS st
  end.

(** [getSettings]: the stored record merged over the defaults.  There is
    no handler around [JSON.parse]. *)
Definition getSettings (st : Storage) : Completion (list (string * JsValue)) :=
  match user_settings st with
  | Some (String c r) =>
      match JSON_parse (String c r) with
      | Some saved => Returns (spread DEFAULT_SETTINGS saved)
      | None => Throws "SyntaxError"
      end
  | _ => Returns DEFAULT_SETTINGS
  end.

Definition updateSettings (updates : JsValue) (st : Storage)
  : Completion Storage :=
  match getSettings st with
  | Returns current => Returns (setSettings (spread current updates) st)
  | Throws e => Throws e
  end.

Definition setUploadQueueIds (assetIds : list string) (st : Storage) : Storage :=
  {| user_settings := user_settings st;
     upload_queue := Some assetIds;
     insufficient_credits_dismissed := insufficient_credits_dismissed st |}.

Definition getUploadQueueIds (st : Storage) : list string :=
  default [] (upload_queue st).

Definition setInsufficientCreditsNotificationDismissed (dismissed : bool)
  (st : Storage) : Storage :=
  {| user_settings := user_settings st;
     upload_queue := upload_queue st;
     insufficient_credits_dismissed := Some dismissed |}.

Definition hasInsufficientCreditsNotificationDismissed (st : Storage) : bool :=
  match insufficient_credits_dismissed st with
  | Some true => true
  | _ => false
  end.

Definition clearInsufficientCreditsNotificationDismissed (st : Storage)
  : Storage :=
  {| user_settings := user_settings st;
     upload_queue := upload_queue st;
     insufficient_credits_dismissed := None |}.

End StorageService.

(** ** src/services/IndexedDBService.ts (the blob store) *)

Module IndexedDBService.
Import Js.

(** Modelled from the spec: the status of an asset. *)
Inductive AssetStatus : Type := draft | uploading | uploaded | failed.

#[global] Instance AssetStatus_eq_dec : EqDecision AssetStatus.
Proof. solve_decision. Defined.

(** The position and the source page, as the service worker builds them. *)
Record GpsLocation : Type := {
  latitude : Number;
  longitude : Number;
  accuracy : Number;
  timestamp : Number;
}.

Record SourceWebsite : Type := {
  url : string;
  title : string;
}.

(** Modelled from the spec: the [Asset] record that the services import
    from IndexedDBService.ts.  The fields are those the spec's data model
    lists and the services read: [uri] and [mimeType] are the payload,
    [metadata] is the open mapping. *)
Record Asset : Type := {
  id : string;
  uri : string;
  mimeType : string;
  createdAt : Number;
  status : AssetStatus;
  metadata : list (string * JsValue);
  gpsLocation : option GpsLocation;
  sourceWebsite : option SourceWebsite;
}.

(** Modelled from the spec: the fields a partial update carries (a
    [Partial<Asset>]; the engine only ever sends these two). *)
Record AssetUpdate : Type := {
  new_status : option AssetStatus;
  new_metadata : option (list (string * JsValue));
}.

(** Modelled from the spec: a partial update overwrites the fields it
    carries and keeps the others. *)
Definition applyUpdate (u : AssetUpdate) (a : Asset) : Asset :=
  {| id := id a; uri := uri a; mimeType := mimeType a;
     createdAt := createdAt a;
     status := default (status a) (new_status u);
     metadata := default (metadata a) (new_metadata u);
     gpsLocation := gpsLocation a; sourceWebsite := sourceWebsite a |}.

(** Modelled from the spec: [indexedDBService.getAsset], get-by-id on the
    keyed collection of asset records; nothing is found for an id that is
    not stored. *)
Definition getAsset (k : string) (db : gmap string Asset) : option Asset :=
  db !! k.

(** Modelled from the spec: [indexedDBService.setAsset], put, under the
    record's own id. *)
Definition setAsset (a : Asset) (db : gmap string Asset) : gmap string Asset :=
  <[id a := a]> db.

(** Modelled from the spec: [indexedDBService.updateAsset], partial-update
    of the record stored under an id.  The spec does not say what happens
    for an id that is not stored; the model leaves the store as it is. *)
Definition updateAsset (k : string) (u : AssetUpdate) (db : gmap string Asset)
  : gmap string Asset :=
  match db !! k with
  | Some a => <[k := applyUpdate u a]> db
  | None => db
  end.

(** Modelled from the spec: [indexedDBService.deleteAsset], delete. *)
Definition deleteAsset (k : string) (db : gmap string Asset)
  : gmap string Asset :=
  delete k db.

(** Modelled from the spec: the collection is keyed by asset id, so a
    record is found under its own id. *)
Definition keyed (db : gmap string Asset) : Prop :=
  ∀ k a, db !! k = Some a → id a = k.

(** Modelled from the spec: [indexedDBService.getAllAssets], full
    enumeration (in no particular order). *)
Definition getAllAssets (db : gmap string Asset) : list Asset :=
  (map_to_list db).*2.

End IndexedDBService.

(** ** src/services/UploadService.ts (the upload queue engine)

    The service is a state transformer.  Its methods are asynchronous; the
    one point where other work gets in between is the await on the remote
    service, so a drain step is split there: [processQueue] runs up to the
    posted request, and [processQueue_resume] runs the rest when the
    answer arrives.  The reads and writes of the two stores are taken to
    complete where they are issued, and not to fail.  The timer that
    animates the progress bar while a request is in flight is left out. *)

Module UploadService.
Import Js IndexedDBService.

Record UploadProgress : Type := {
  assetId : string;
  progress : Number;
  progress_status : AssetStatus;
  error : option string;
}.

(** What [apiClient.postWithAuth] resolves with: [result.cid], [result.nid]. *)
Record ApiResult : Type := { cid : JsValue; nid : JsValue }.

(** What it rejects with: [error.data.error.type] and [error.message]. *)
Record ApiError : Type := {
  error_type : option string;
  message : option string;
}.

Inductive Response : Type :=
| Resolved (result : ApiResult)
| Rejected (err : ApiError).

(** The multipart body of an upload. *)
Record FormData : Type := {
  asset_file : string;
  signed_metadata : string;
  caption : option JsValue;
  tag : option JsValue;
}.

(** What the engine does to the world, in the order it does it. *)
Inductive Effect : Type :=
| UpdateAsset (k : string) (u : AssetUpdate)
| DeleteAsset (k : string)
| SetUploadQueueIds (ids : list string)
| ClearDismissed
| EmitProgress (p : UploadProgress)
| EmitCompletion (k : string)
| Post (a : Asset) (body : FormData).

(** The fields of the service, the two stores it is constructed with, and
    the requests that were posted and are not answered yet.  [enqueued]
    (the ids pushed on the queue, oldest first) and [effects] are history,
    kept to state properties; the code does not read them. *)
Record State : Type := {
  uploadQueue : list Asset;
  isUploading : bool;
  isPaused : bool;
  metadataStorage : StorageService.Storage;
  assetStorage : gmap string Asset;
  inFlight : list Asset;
  enqueued : list string;
  effects : list Effect;
}.

Definition set_uploadQueue (q : list Asset) (s : State) : State :=
  {| uploadQueue := q; isUploading := isUploading s; isPaused := isPaused s;
     metadataStorage := metadataStorage s; assetStorage := assetStorage s;
     inFlight := inFlight s; enqueued := enqueued s; effects := effects s |}.

Definition set_isUploading (b : bool) (s : State) : State :=
  {| uploadQueue := uploadQueue s; isUploading := b; isPaused := isPaused s;
     metadataStorage := metadataStorage s; assetStorage := assetStorage s;
     inFlight := inFlight s; enqueued := enqueued s; effects := effects s |}.

Definition set_isPaused (b : bool) (s : State) : State :=
  {| uploadQueue := uploadQueue s; isUploading := isUploading s; isPaused := b;
     metadataStorage := metadataStorage s; assetStorage := assetStorage s;
     inFlight := inFlight s; enqueued := enqueued s; effects := effects s |}.

Definition set_metadataStorage (m : StorageService.Storage) (s : State) : State :=
  {| uploadQueue := uploadQueue s; isUploading := isUploading s;
     isPaused := isPaused s;
     metadataStorage := m; assetStorage := assetStorage s;
     inFlight := inFlight s; enqueued := enqueued s; effects := effects s |}.

Definition set_assetStorage (db : gmap string Asset) (s : State) : State :=
  {| uploadQueue := uploadQueue s; isUploading := isUploading s;
     isPaused := isPaused s;
     metadataStorage := metadataStorage s; assetStorage := db;
     inFlight := inFlight s; enqueued := enqueued s; effects := effects s |}.

Definition set_inFlight (l : list Asset) (s : State) : State :=
  {| uploadQueue := uploadQueue s; isUploading := isUploading s;
     isPaused := isPaused s;
     metadataStorage := metadataStorage s; assetStorage := assetStorage s;
     inFlight := l; enqueued := enqueued s; effects := effects s |}.

Definition note_enqueued (k : string) (s : State) : State :=
  {| uploadQueue := uploadQueue s; isUploading := isUploading s;
     isPaused := isPaused s;
     metadataStorage := metadataStorage s; assetStorage := assetStorage s;
     inFlight := inFlight s; enqueued := enqueued s ++ [k];
     effects := effects s |}.

Definition emit (e : Effect) (s : State) : State :=
  {| uploadQueue := uploadQueue s; isUploading := isUploading s;
     isPaused := isPaused s;
     metadataStorage := metadataStorage s; assetStorage := assetStorage s;
     inFlight := inFlight s; enqueued := enqueued s;
     effects := effects s ++ [e] |}.

Definition set_status (st : AssetStatus) (a : Asset) : Asset :=
  applyUpdate {| new_status := Some st; new_metadata := None |} a.

Definition set_metadata (md : list (string * JsValue)) (a : Asset) : Asset :=
  applyUpdate {| new_status := None; new_metadata := Some md |} a.

(** [delete o.k]. *)
Definition deleteProp (k : string) (props : list (string * JsValue))
  : list (string * JsValue) :=
  filter (fun kv => kv.1 ≠ k) props.

(** [this.assetStorage.updateAsset(id, { status, metadata })]. *)
Definition storeUpdate (k : string) (st : AssetStatus)
  (md : list (string * JsValue)) (s : State) : State :=
  let u := {| new_status := Some st; new_metadata := Some md |} in
  emit (UpdateAsset k u) (set_assetStorage (updateAsset k u (assetStorage s)) s).

Definition storeDelete (k : string) (s : State) : State :=
  emit (DeleteAsset k) (set_assetStorage (deleteAsset k (assetStorage s)) s).

(** [saveQueue]: only the ids are stored. *)
Definition saveQueue (s : State) : State :=
  let queueIds := map id (uploadQueue s) in
  emit (SetUploadQueueIds queueIds)
    (set_metadataStorage
       (StorageService.setUploadQueueIds queueIds (metadataStorage s)) s).

(** [emitProgress] and [emitCompletion] call the registered callbacks and
    send a message to the other pages; both are recorded as one effect. *)
Definition emitProgress (p : UploadProgress) (s : State) : State :=
  emit (EmitProgress p) s.

Definition emitCompletion (k : string) (s : State) : State :=
  emit (EmitCompletion k) s.

(** [Array.prototype.sort] with the default comparison, on strings. *)
Fixpoint insertSorted (k : string) (l : list string) : list string :=
  match l with
  | [] => [k]
  | x :: r => if String.leb k x then k :: l else x :: insertSorted k r
  end.

Definition sort (l : list string) : list string :=
  foldr insertSorted [] l.

(** The object [createSignedMetadata] builds before it serializes it. *)
Definition signedMetadataObject (asset : Asset) : list (string * JsValue) :=
  let metadata0 :=
    [ ("spec_version", JString "2.0.0");
      ("recorder", JString "ProofSnap Browser Extension");
      ("created_at", JNumber (createdAt asset)) ] in
  let metadata1 :=
    match gpsLocation asset with
    | Some g =>
        setProp "location_longitude" (JNumber (longitude g))
          (setProp "location_latitude" (JNumber (latitude g)) metadata0)
    | None => metadata0
    end in
  match sourceWebsite asset with
  | Some w =>
      setProp "web_source_title" (JString (title w))
        (setProp "web_source_url" (JString (url w)) metadata1)
  | None => metadata1
  end.

Definition createSignedMetadata (asset : Asset) : string :=
  let metadata := signedMetadataObject asset in
  let sortedKeys := sort (map fst metadata) in
  default EmptyString (JSON_stringify (JObject metadata) (Some sortedKeys) 2).

Definition truthyProp (k : string) (props : list (string * JsValue)) : bool :=
  truthy (default JUndefined (getProp k props)).

(** [prepareUploadFormData]; the file part is the blob of [asset.uri], its
    file name (which reads the clock) is left out. *)
Definition prepareUploadFormData (asset : Asset) : FormData :=
  {| asset_file := uri asset;
     signed_metadata := createSignedMetadata asset;
     caption := if truthyProp "caption" (metadata asset)
                then getProp "caption" (metadata asset) else None;
     tag := if truthyProp "tag" (metadata asset)
            then getProp "tag" (metadata asset) else None |}.

(** [updateAssetStatusToUploading]: the asset object is mutated, so the
    mutated asset is returned along with the state. *)
Definition updateAssetStatusToUploading (asset : Asset) (s : State)
  : Asset * State :=
  let md0 := metadata asset in
  let md1 := if truthyProp "error" md0 then deleteProp "error" md0 else md0 in
  let md2 :=
    if truthyProp "errorType" md1 then deleteProp "errorType" md1 else md1 in
  let asset' := set_metadata md2 (set_status uploading asset) in
  (asset',
   emitProgress
     {| assetId := id asset'; progress := Int 0;
        progress_status := uploading; error := None |}
     (storeUpdate (id asset') uploading md2 s)).

(** [uploadAsset] up to the point where it awaits the answer of the
    remote service: the request is posted and joins [inFlight].  The timer
    of [startProgressSimulation], which every 500 ms adds an
    [uploadProgress] to the metadata of the asset in flight and reports
    it, is left out: it needs the clock and arithmetic on doubles. *)
Definition uploadAsset_post (asset : Asset) (s : State) : State :=
  let '(asset', s1) := updateAssetStatusToUploading asset s in
  set_inFlight (inFlight s1 ++ [asset'])
    (emit (Post asset' (prepareUploadFormData asset')) s1).

(** [processQueue] up to the same point. *)
Definition processQueue (s : State) : State :=
  if isUploading s || isPaused s || (length (uploadQueue s) =? 0)%nat then s
  else
    let s1 := set_isUploading true s in
    match uploadQueue s1 with
    | [] => set_isUploading false s1
    | asset :: rest => uploadAsset_post asset (set_uploadQueue rest s1)
    end.

Definition setPaused (paused : bool) (s : State) : State :=
  let s1 := set_isPaused paused s in
  if paused then s1 else processQueue s1.

Definition maybeUnpauseForManualRetry (isManualRetry : bool) (s : State)
  : State :=
  if isManualRetry && isPaused s then setPaused false s else s.

(** [this.uploadQueue.find(a => a.id === asset.id)], as the test made of it. *)
Definition inQueue (k : string) (q : list Asset) : bool :=
  existsb (fun a => String.eqb (id a) k) q.

Definition push (asset : Asset) (s : State) : State :=
  note_enqueued (id asset) (set_uploadQueue (uploadQueue s ++ [asset]) s).

Definition addToQueue (asset : Asset) (isManualRetry : bool) (s : State)
  : State :=
  if inQueue (id asset) (uploadQueue s) then s
  else
    let s1 := push asset s in
    let s2 := saveQueue s1 in
    let s3 := maybeUnpauseForManualRetry isManualRetry s2 in
    processQueue s3.

(** The loop of [addMultipleToQueue], with its counter. *)
Fixpoint pushEach (assets : list Asset) (addedCount : nat) (s : State)
  : nat * State :=
  match assets with
  | [] => (addedCount, s)
  | asset :: rest =>
      if inQueue (id asset) (uploadQueue s) then pushEach rest addedCount s
      else pushEach rest (S addedCount) (push asset s)
  end.

Definition addMultipleToQueue (assets : list Asset) (isManualRetry : bool)
  (s : State) : State :=
  let '(addedCount, s1) := pushEach assets 0 s in
  if (0 <? addedCount)%nat then
    let s2 := saveQueue s1 in
    let s3 := maybeUnpauseForManualRetry isManualRetry s2 in
    processQueue s3
  else s1.

Definition removeFromQueue (k : string) (s : State) : State :=
  saveQueue
    (set_uploadQueue
       (filter (fun a => id a ≠ k) (uploadQueue s)) s).

(** [handleUploadSuccess]; [now] is [new Date().toISOString()]. *)
Definition handleUploadSuccess (asset : Asset) (result : ApiResult)
  (now : string) (s : State) : State :=
  let md :=
    setProp "uploadProgress" (JNumber (Int 1))
      (setProp "nid" (nid result)
         (setProp "cid" (cid result)
            (setProp "uploadedAt" (JString now) (metadata asset)))) in
  let s1 := storeUpdate (id asset) uploaded md s in
  let s2 :=
    emitProgress
      {| assetId := id asset; progress := Int 1;
         progress_status := uploaded; error := None |} s1 in
  let s3 := storeDelete (id asset) s2 in
  emitCompletion (id asset) s3.

Definition isInsufficientBalanceError (err : ApiError) : bool :=
  if bool_decide (error_type err = Some "asset_commit_insufficient_fund")
  then true
  else
    let message := toLowerCase (default EmptyString (message err)) in
    includes message "insufficient" &&
    (includes message "fund" || includes message "balance" ||
     includes message "credit").

Definition clearDismissed (s : State) : State :=
  emit ClearDismissed
    (set_metadataStorage
       (StorageService.clearInsufficientCreditsNotificationDismissed
          (metadataStorage s)) s).

(** [handleUploadError]. *)
Definition handleUploadError (asset : Asset) (err : ApiError) (s : State)
  : State :=
  let errorMessage :=
    match message err with
    | Some (String c r) => String c r
    | _ => "Upload failed"
    end in
  let '(errorType, s1) :=
    if isInsufficientBalanceError err
    then (JString "insufficient_credits", clearDismissed (setPaused true s))
    else (JUndefined, s) in
  let md :=
    setProp "errorType" errorType
      (setProp "error" (JString errorMessage) (metadata asset)) in
  let s2 := storeUpdate (id asset) failed md s1 in
  emitProgress
    {| assetId := id asset; progress := Int 0;
       progress_status := failed; error := Some errorMessage |} s2.

(** The rest of [uploadAsset] and of [processQueue], run when request [i]
    is answered: the success or the error handler, then [saveQueue], then
    the flag is lowered and [processQueue] is called again. *)
Definition processQueue_resume (i : nat) (now : string) (r : Response)
  (s : State) : State :=
  match inFlight s !! i with
  | None => s
  | Some asset =>
      let s0 := set_inFlight (delete i (inFlight s)) s in
      let s1 :=
        match r with
        | Resolved result => handleUploadSuccess asset result now s0
        | Rejected err => handleUploadError asset err s0
        end in
      processQueue (set_isUploading false (saveQueue s1))
  end.

Definition getQueueStatus (s : State) : nat * bool * bool :=
  (length (uploadQueue s), isUploading s, isPaused s).

Definition retryFailedUploads (s : State) : State :=
  let assets := getAllAssets (assetStorage s) in
  let failedAssets :=
    filter (fun a => status a = failed) assets in
  if (0 <? length failedAssets)%nat
  then addMultipleToQueue failedAssets true s
  else s.

Definition restored (assets : list Asset) (s : State) : State :=
  {| uploadQueue := assets; isUploading := isUploading s;
     isPaused := isPaused s;
     metadataStorage := metadataStorage s; assetStorage := assetStorage s;
     inFlight := inFlight s; enqueued := enqueued s ++ map id assets;
     effects := effects s |}.

(** [restoreQueue], run from its first line to its last with nothing in
    between. *)
Definition restoreQueue (s : State) : State :=
  let queueIds := StorageService.getUploadQueueIds (metadataStorage s) in
  if (0 <? length queueIds)%nat then
    let assets := omap (fun k => getAsset k (assetStorage s)) queueIds in
    processQueue (restored assets s)
  else s.

(** The field initializers. *)
Definition initial (ms : StorageService.Storage) (db : gmap string Asset)
  : State :=
  {| uploadQueue := []; isUploading := false; isPaused := false;
     metadataStorage := ms; assetStorage := db;
     inFlight := []; enqueued := []; effects := [] |}.

(** The engine once the constructor has returned and the [restoreQueue]
    it started has run to its end, no method having been called in
    between.  The constructor itself does not wait for [restoreQueue]:
    [Lifecycle.construct] is the engine as the constructor leaves it, and
    [Lifecycle.play] lets calls come in while the restoration goes on. *)
Definition create (ms : StorageService.Storage) (db : gmap string Asset)
  : State :=
  restoreQueue (initial ms db).

(** What can happen to the engine: a call of one of its methods, or the
    answer to a posted request. *)
Inductive Event : Type :=
| AddToQueue (asset : Asset) (isManualRetry : bool)
| AddMultipleToQueue (assets : list Asset) (isManualRetry : bool)
| RemoveFromQueue (k : string)
| SetPaused (paused : bool)
| RetryFailedUploads
| Answer (i : nat) (now : string) (r : Response).

Definition step (s : State) (e : Event) : State :=
  match e with
  | AddToQueue asset m => addToQueue asset m s
  | AddMultipleToQueue assets m => addMultipleToQueue assets m s
  | RemoveFromQueue k => removeFromQueue k s
  | SetPaused b => setPaused b s
  | RetryFailedUploads => retryFailedUploads s
  | Answer i now r => processQueue_resume i now r s
  end.

Definition run (events : list Event) (s : State) : State :=
  fold_left step events s.

(** The failure classification, as the specification words it: a piece
    of the message reads [word] when letter case is ignored. *)
Definition mentions (word message : string) : Prop :=
  ∃ pre piece post,
    message = pre +:+ piece +:+ post ∧ toLowerCase piece = word.

(** "Insufficient balance", by structured error code or by message
    pattern: "insufficient" together with one of "fund", "balance",
    "credit". *)
Definition signalsInsufficientBalance (err : ApiError) : Prop :=
  error_type err = Some "asset_commit_insufficient_fund"
  ∨ ∃ text, message err = Some text
      ∧ mentions "insufficient" text
      ∧ (mentions "fund" text ∨ mentions "balance" text
         ∨ mentions "credit" text).

(** The signed-metadata document, as the specification describes it: a
    JSON object, one key to a line, keys in increasing order. *)

(** The part of the position the document uses. *)
Definition position (a : Asset) : option (Number * Number) :=
  (fun g => (latitude g, longitude g)) <$> gpsLocation a.

(** One line of the document: a key, and the JSON text of its value. *)
Definition line (kv : string * string) : string :=
  quote kv.1 +:+ ": " +:+ kv.2.

(** The document as text: the lines within braces, two spaces deep. *)
Definition document (entries : list (string * string)) : string :=
  wrap "{" "}" "  " EmptyString (map line entries).

(** The order of [Array.prototype.sort] on strings, strict. *)
Definition before (k1 k2 : string) : Prop := String.ltb k1 k2 = true.

(** Observations on a state, used to state properties. *)

(** The ids of the in-memory queue, head first. *)
Definition queueIds (s : State) : list string := map id (uploadQueue s).

(** The persisted id list. *)
Definition durableIds (s : State) : list string :=
  StorageService.getUploadQueueIds (metadataStorage s).

(** The ids of the assets whose upload was started, oldest first. *)
Definition startedIds (s : State) : list string :=
  omap (fun e => match e with Post a _ => Some (id a) | _ => None end)
       (effects s).

(** The ids of the assets recorded as [uploaded], oldest first. *)
Definition uploadedIds (s : State) : list string :=
  omap (fun e =>
          match e with
          | UpdateAsset k u =>
              if bool_decide (new_status u = Some uploaded) then Some k
              else None
          | _ => None
          end)
       (effects s).


(** The persisted list mirrors the queue, up to the asset whose upload was
    just started: that asset has left the queue and its id still heads the
    persisted list. *)
Definition durableListTracksQueue (s : State) : Prop :=
  durableIds s = queueIds s
  ∨ ∃ a, last (inFlight s) = Some a ∧ isUploading s = true
         ∧ durableIds s = id a :: queueIds s.

(** At most one upload is in flight, and the busy flag says whether one
    is. *)
Definition oneAtATime (s : State) : Prop :=
  (length (inFlight s) ≤ 1)%nat
  ∧ (isUploading s = true ↔ inFlight s ≠ []).

(** First in, first out: the uploads started so far, followed by the
    queue, are the ids in the order they were enqueued. *)
Definition fifo (s : State) : Prop :=
  startedIds s ++ queueIds s = enqueued s.

(** In a run without failures every started upload but the one in flight
    was recorded as uploaded, in the order of the starts; the engine is not
    paused, and it rests only when the queue is empty. *)
Definition flowing (s : State) : Prop :=
  uploadedIds s ++ map id (inFlight s) = startedIds s
  ∧ isPaused s = false
  ∧ (isUploading s = false → uploadQueue s = []).

(** An event that takes nothing off the queue but by uploading it. *)
Definition keepsQueue (e : Event) : Prop :=
  match e with
  | RemoveFromQueue _ => False
  | _ => True
  end.

(** An event of a run with no failures: an enqueue, or a successful
    answer; nothing fails and nobody pauses the engine. *)
Definition succeeds (e : Event) : Prop :=
  match e with
  | AddToQueue _ _ | AddMultipleToQueue _ _ | RetryFailedUploads => True
  | SetPaused paused => paused = false
  | Answer _ _ (Resolved _) => True
  | Answer _ _ (Rejected _) | RemoveFromQueue _ => False
  end.

(** Successful answers to the request in flight, one after the other. *)
Definition successes (answers : list (string * ApiResult)) : list Event :=
  map (fun a => Answer 0 a.1 (Resolved a.2)) answers.

End UploadService.

(** ** src/content/selection-overlay.ts (the region selection overlay) *)

Module SelectionOverlay.

Record SelectionCoordinates : Type := {
  x : Z;
  y : Z;
  width : Z;
  height : Z;
}.

(** The payload of the [SELECTION_COMPLETE] message. *)
Inductive Payload : Type :=
| Cancelled (reason : string)
| Selected (coordinates viewportCoordinates : SelectionCoordinates).

(** The variables of the content script; [listening] tells whether the
    document listeners are still attached ([cleanup] removes them). *)
Record Overlay : Type := {
  listening : bool;
  isSelecting : bool;
  startX : Z;
  startY : Z;
}.

(** [initSelectionOverlay]. *)
Definition initSelectionOverlay : Overlay :=
  {| listening := true; isSelecting := false; startX := 0; startY := 0 |}.

Definition cleanup (o : Overlay) : Overlay :=
  {| listening := false; isSelecting := isSelecting o;
     startX := startX o; startY := startY o |}.

Definition handleMouseDown (button clientX clientY : Z) (o : Overlay)
  : Overlay :=
  if negb (listening o) then o
  else if negb (button =? 0) then o
  else {| listening := listening o; isSelecting := true;
          startX := clientX; startY := clientY |}.

(** [Math.round(v * dpr)] for a pixel ratio [num / den], rounding the exact
    product.  The script rounds the product of two doubles: the two agree
    for a ratio that is a whole number (and a product below 2^53); for any
    other ratio the double product can lie on the other side of a half,
    and the script's value is then one away from this one. *)
Definition scale (num : Z) (den : positive) (v : Z) : Z :=
  (2 * v * num + Z.pos den) / (2 * Z.pos den).

(** [handleMouseUp]: the overlay afterwards and the message sent, if any.
    The device pixel ratio is [num / den]; a ratio of zero counts as 1. *)
Definition handleMouseUp (clientX clientY : Z) (num : Z) (den : positive)
  (o : Overlay) : Overlay * option Payload :=
  if negb (listening o) then (o, None)
  else if negb (isSelecting o) then (o, None)
  else
    let o1 := {| listening := listening o; isSelecting := false;
                 startX := startX o; startY := startY o |} in
    let left := Z.min (startX o) clientX in
    let top := Z.min (startY o) clientY in
    let width := Z.abs (clientX - startX o) in
    let height := Z.abs (clientY - startY o) in
    if (width <? 10) || (height <? 10) then
      (cleanup o1, Some (Cancelled "Selection too small"))
    else
      let '(n, d) := if num =? 0 then (1, 1%positive) else (num, den) in
      let coordinates :=
        {| x := scale n d left; y := scale n d top;
           width := scale n d width; height := scale n d height |} in
      (cleanup o1,
       Some (Selected coordinates
               {| x := left; y := top; width := width; height := height |})).

Definition handleKeyDown (key : string) (o : Overlay)
  : Overlay * option Payload :=
  if negb (listening o) then (o, None)
  else if String.eqb key "Escape"
  then (cleanup o, Some (Cancelled "User cancelled"))
  else (o, None).

End SelectionOverlay.

(** ** The background service worker (selection capture) *)

Module ServiceWorker.
Import Js IndexedDBService SelectionOverlay.

(** What the promise of a capture resolves with. *)
Inductive CaptureResult : Type :=
| CaptureCancelled (reason : string)
| Captured (assetId dataUrl timestamp : string) (autoUpload : JsValue).

Inductive Settlement : Type :=
| Resolve (r : CaptureResult)
| Reject (message : string).

(** The answer sent to the page that asked for the capture. *)
Inductive MessageResponse : Type :=
| ResponseSuccess (data : CaptureResult)
| ResponseCancelled
| ResponseError (message : string).

(** The [.then]/[.catch] of the [CAPTURE_SCREENSHOT] handler. *)
Definition respond (s : Settlement) : MessageResponse :=
  match s with
  | Resolve (CaptureCancelled _) => ResponseCancelled
  | Resolve r => ResponseSuccess r
  | Reject message => ResponseError message
  end.

(** The worker: whether a selection capture is waiting
    ([pendingSelectionResolve] and [pendingSelectionReject] are set), the
    services it shares the stores with, and how the captures that ended
    were settled, oldest first. *)
Record Worker : Type := {
  pendingSelection : bool;
  services : UploadService.State;
  settled : list Settlement;
}.

Record Tab : Type := {
  tab_url : option string;
  tab_title : option string;
}.

(** What the browser answers during one capture.  [activeTab] is the
    first tab that [chrome.tabs.query] returns, [None] when that tab has no
    id or no window.  The query is taken to return a tab: on an empty
    result the script fails on reading [tab.id], with a [TypeError] whose
    message is the runtime's. *)
Record Browser : Type := {
  activeTab : option Tab;
  captureTime_ms : Z;
  captureTime_iso : string;
  random : string;
  captureVisibleTab : Completion string;
  watermark : Completion (option string);
  geolocation : Completion (option GpsLocation);
  authenticated : bool;
}.

Definition settle (st : Settlement) (w : Worker) : Worker :=
  if pendingSelection w
  then {| pendingSelection := false; services := services w;
          settled := settled w ++ [st] |}
  else w.

(** [handleSelectionCapture], after the overlay was injected. *)
Definition handleSelectionCapture (w : Worker) : Worker :=
  {| pendingSelection := true; services := services w;
     settled := settled w |}.

(** The timer of [handleSelectionCapture], 60 seconds later. *)
Definition selectionTimeout (w : Worker) : Worker :=
  settle (Reject "Selection timed out") w.

(** A template literal's rendering of a setting (an array, which the
    settings pages never store, is rendered as nothing). *)
Definition interpolate (v : JsValue) : string :=
  match v with
  | JString s => s
  | JNumber n => Number_toString n
  | JBool true => "true"
  | JBool false => "false"
  | JNull => "null"
  | JUndefined => "undefined"
  | JArray _ => EmptyString
  | JObject _ => "[object Object]"
  end.

Definition setting (k : string) (settings : list (string * JsValue)) : JsValue :=
  default JUndefined (getProp k settings).

Definition with_services (u : UploadService.State) (w : Worker) : Worker :=
  {| pendingSelection := pendingSelection w; services := u;
     settled := settled w |}.

(** The asset a selection capture stores. *)
Definition selectionAsset (b : Browser) (settings : list (string * JsValue))
  (t : Tab) (dataUrl : string) (coordinates : SelectionCoordinates) : Asset :=
  {| id := "screenshot_" +:+ digits (captureTime_ms b) +:+ "_" +:+ random b;
     uri := dataUrl;
     mimeType := "image/" +:+ interpolate (setting "screenshotFormat" settings);
     createdAt := Int (captureTime_ms b);
     status := draft;
     metadata :=
       [ ("uploadedAt", JString (captureTime_iso b));
         ("width", JNumber (Int (width coordinates)));
         ("height", JNumber (Int (height coordinates)));
         ("captureMode", JString "selection") ];
     gpsLocation :=
       if truthy (setting "includeLocation" settings) then
         match geolocation b with
         | Returns g => g
         | Throws _ => None
         end
       else None;
     sourceWebsite :=
       if truthy (setting "includeWebsiteInfo" settings) then
         match tab_url t, tab_title t with
         | Some (String c r), Some (String c' r') =>
             Some {| url := String c r; title := String c' r' |}
         | _, _ => None
         end
       else None |}.

(** [handleSelectionComplete]. *)
Definition handleSelectionComplete (b : Browser) (payload : Payload)
  (w : Worker) : Worker :=
  match payload with
  | Cancelled reason => settle (Resolve (CaptureCancelled reason)) w
  | Selected coordinates _ =>
      match activeTab b with
      | None => settle (Reject "No active tab found") w
      | Some t =>
          match StorageService.getSettings
                  (UploadService.metadataStorage (services w)) with
          | Throws e => settle (Reject e) w
          | Returns settings =>
              match captureVisibleTab b with
              | Throws e => settle (Reject e) w
              | Returns raw =>
                  match watermark b with
                  | Throws e => settle (Reject e) w
                  | Returns processed =>
                      let dataUrl := default raw processed in
                      let asset :=
                        selectionAsset b settings t dataUrl coordinates in
                      let u := services w in
                      let u1 :=
                        UploadService.set_assetStorage
                          (setAsset asset (UploadService.assetStorage u)) u in
                      let u2 :=
                        if truthy (setting "autoUpload" settings)
                           && authenticated b
                        then UploadService.addToQueue asset false u1
                        else u1 in
                      settle
                        (Resolve
                           (Captured (id asset) dataUrl (captureTime_iso b)
                              (setting "autoUpload" settings)))
                        (with_services u2 w)
                  end
              end
          end
      end
  end.

End ServiceWorker.

(** ** Sample data *)

Module Samples.
Import Js IndexedDBService UploadService.

Definition sampleAsset (k : string) : Asset :=
  {| id := k; uri := "data:image/png;base64,iVBORw0KGgo=";
     mimeType := "image/png"; createdAt := Int 1700000000000;
     status := draft;
     metadata := [("width", JNumber (Int 1280)); ("height", JNumber (Int 720))];
     gpsLocation := None; sourceWebsite := None |}.

Definition assetA : Asset := sampleAsset "a".
Definition assetB : Asset := sampleAsset "b".
Definition assetC : Asset := sampleAsset "c".

(** A captured page with a position. *)
Definition assetG : Asset :=
  {| id := "g"; uri := "data:image/png;base64,iVBORw0KGgo=";
     mimeType := "image/png"; createdAt := Int 1700000000000;
     status := draft; metadata := [];
     gpsLocation :=
       Some {| latitude := Decimal 377749 (-4);
               longitude := Decimal (-1224194) (-4);
               accuracy := Int 12; timestamp := Int 1700000000000 |};
     sourceWebsite :=
       Some {| url := "https://example.org/a?b=1"; title := "An example" |} |}.

(** The same capture as [assetG], later in its life. *)
Definition assetG' : Asset :=
  {| id := "g"; uri := "data:image/png;base64,iVBORw0KGgo=";
     mimeType := "image/png"; createdAt := Int 1700000000000;
     status := failed; metadata := [("error", JString "Upload failed")];
     gpsLocation :=
       Some {| latitude := Decimal 377749 (-4);
               longitude := Decimal (-1224194) (-4);
               accuracy := Int 30; timestamp := Int 1700000000999 |};
     sourceWebsite :=
       Some {| url := "https://example.org/a?b=1"; title := "An example" |} |}.

Definition blobs : gmap string Asset :=
  setAsset assetC (setAsset assetB (setAsset assetA ∅)).

(** A freshly constructed engine over a store that holds the samples. *)
Definition fresh : State := create StorageService.emptyStorage blobs.

Definition registered : Response :=
  Resolved {| cid := JString "bafy-cid"; nid := JString "bafy-nid" |}.

Definition insufficient : Response :=
  Rejected {| error_type := Some "asset_commit_insufficient_fund";
              message := Some "Payment required" |}.

Definition unreachable : Response :=
  Rejected {| error_type := None; message := Some "Network error" |}.

Definition now : string := "2023-11-14T22:13:20.000Z".

(** B failed for lack of credits while A was waiting: the engine is
    paused and A is still queued. *)
Definition pausedWithA : State :=
  run [AddToQueue assetB false; AddToQueue assetA false;
       Answer 0 now insufficient] fresh.

(** A run with no failures; B is enqueued three times. *)
Definition cleanRun : list Event :=
  [AddToQueue assetA false;
   AddMultipleToQueue [assetB; assetB; assetC] false;
   AddToQueue assetB true;
   Answer 0 now registered].

(** The answers to the two requests that are still to come after it. *)
Definition twoAnswers : list (string * ApiResult) :=
  [(now, {| cid := JString "cid-b"; nid := JString "nid-b" |});
   (now, {| cid := JString "cid-c"; nid := JString "nid-c" |})].

(** What the browser answers during a capture of a page. *)
Definition browser : ServiceWorker.Browser :=
  {| ServiceWorker.activeTab :=
       Some {| ServiceWorker.tab_url := Some "https://example.org/a?b=1";
               ServiceWorker.tab_title := Some "An example" |};
     ServiceWorker.captureTime_ms := 1700000000000;
     ServiceWorker.captureTime_iso := now;
     ServiceWorker.random := "k3j9x0q2a";
     ServiceWorker.captureVisibleTab := Returns "data:image/png;base64,AAAA";
     ServiceWorker.watermark := Returns (Some "data:image/png;base64,BBBB");
     ServiceWorker.geolocation := Returns None;
     ServiceWorker.authenticated := true |}.

(** A worker with a selection capture waiting. *)
Definition waiting : ServiceWorker.Worker :=
  ServiceWorker.handleSelectionCapture
    {| ServiceWorker.pendingSelection := false;
       ServiceWorker.services := fresh;
       ServiceWorker.settled := [] |}.

(** The overlay after the mouse went down at (100, 100). *)
Definition dragging : SelectionOverlay.Overlay :=
  SelectionOverlay.handleMouseDown 0 100 100
    SelectionOverlay.initSelectionOverlay.

(** A persisted id list that names an asset the blob store no longer has. *)
Definition staleStorage : StorageService.Storage :=
  StorageService.setUploadQueueIds ["a"; "gone"; "b"]
    StorageService.emptyStorage.

End Samples.

(* ===================================================================== *)
(** * Further code of the extension                                       *)
(* ===================================================================== *)

(** ** The upload engine, seen from outside *)

Module Engine.
Import IndexedDBService UploadService.

(** An asset the engine holds: queued, or in flight. *)
Definition held (k : string) (s : State) : Prop :=
  k ∈ queueIds s ∨ k ∈ map id (inFlight s).

End Engine.

(** ** UploadService.ts: the constructor, and the calls that overlap it *)

Module Lifecycle.
Import Js IndexedDBService UploadService.

(** Where the [restoreQueue] that the constructor starts, and does not
    wait for, has got to.  The function waits once for the persisted ids
    and once for every asset it looks up; each read is made at some moment
    between the request and the moment the function goes on, so a read
    and the step that uses it are two turns.  A read that fails is caught
    and logged by the function and is not modelled. *)
Inductive Restoration : Type :=
| IdsAsked
| IdsRead (ids : list string)
| AssetAsked (assets : list Asset) (k : string) (rest : list string)
| AssetRead (assets : list Asset) (found : option Asset) (rest : list string)
| Settled.

(** The engine with what is still under way around it: the restoration,
    and the calls of [addToQueue] and [addMultipleToQueue] that wait for
    their [saveQueue], each with its [isManualRetry]. *)
Record Service : Type := {
  engine : State;
  restoration : Restoration;
  saving : list bool;
}.

(** The constructor: the fields are initialised and [restoreQueue] is
    called; it returns at its first [await]. *)
Definition construct (ms : StorageService.Storage) (db : gmap string Asset)
  : Service :=
  {| engine := initial ms db; restoration := IdsAsked; saving := [] |}.

(** The loop of [restoreQueue] before the ids in [ids], and what follows
    the loop: the assets found replace the queue, and [processQueue] is
    called. *)
Definition restoreLoop (assets : list Asset) (ids : list string)
  (e : State) : State * Restoration :=
  match ids with
  | k :: rest => (e, AssetAsked assets k rest)
  | [] => (processQueue (restored assets e), Settled)
  end.

(** One turn of [restoreQueue]: a read, or the code up to the next
    [await]. *)
Definition restoreStep (v : Service) : Service :=
  let e := engine v in
  match restoration v with
  | IdsAsked =>
      {| engine := e;
         restoration :=
           IdsRead (StorageService.getUploadQueueIds (metadataStorage e));
         saving := saving v |}
  | IdsRead ids =>
      if (0 <? length ids)%nat then
        let '(e', r) := restoreLoop [] ids e in
        {| engine := e'; restoration := r; saving := saving v |}
      else {| engine := e; restoration := Settled; saving := saving v |}
  | AssetAsked assets k rest =>
      {| engine := e;
         restoration := AssetRead assets (getAsset k (assetStorage e)) rest;
         saving := saving v |}
  | AssetRead assets found rest =>
      let '(e', r) := restoreLoop (assets ++ option_list found) rest e in
      {| engine := e'; restoration := r; saving := saving v |}
  | Settled => v
  end.

(** [addToQueue] up to its [await this.saveQueue()]; the write of the ids
    is made when it is requested. *)
Definition enqueue (asset : Asset) (isManualRetry : bool) (v : Service)
  : Service :=
  if inQueue (id asset) (uploadQueue (engine v)) then v
  else
    {| engine := saveQueue (push asset (engine v));
       restoration := restoration v;
       saving := saving v ++ [isManualRetry] |}.

(** [addMultipleToQueue] up to the same point. *)
Definition enqueueMany (assets : list Asset) (isManualRetry : bool)
  (v : Service) : Service :=
  let '(addedCount, s1) := pushEach assets 0 (engine v) in
  if (0 <? addedCount)%nat then
    {| engine := saveQueue s1;
       restoration := restoration v;
       saving := saving v ++ [isManualRetry] |}
  else
    {| engine := s1; restoration := restoration v; saving := saving v |}.

(** The rest of either, run when the [saveQueue] of the [n]-th waiting
    call has answered. *)
Definition saved (n : nat) (v : Service) : Service :=
  match saving v !! n with
  | None => v
  | Some isManualRetry =>
      {| engine :=
           processQueue
             (maybeUnpauseForManualRetry isManualRetry (engine v));
         restoration := restoration v;
         saving := delete n (saving v) |}
  end.

(** What can happen to the service: a call or an answer that runs as in
    [step], with nothing in between; an enqueue up to its wait; the end of
    such a wait; a turn of the restoration. *)
Inductive Turn : Type :=
| Call (e : Event)
| Enqueue (asset : Asset) (isManualRetry : bool)
| EnqueueMany (assets : list Asset) (isManualRetry : bool)
| Saved (n : nat)
| Restoring.

Definition turn (v : Service) (t : Turn) : Service :=
  match t with
  | Call e =>
      {| engine := step (engine v) e;
         restoration := restoration v;
         saving := saving v |}
  | Enqueue asset m => enqueue asset m v
  | EnqueueMany assets m => enqueueMany assets m v
  | Saved n => saved n v
  | Restoring => restoreStep v
  end.

Definition play (turns : list Turn) (v : Service) : Service :=
  fold_left turn turns v.

(** A service with nothing under way. *)
Definition settled (e : State) : Service :=
  {| engine := e; restoration := Settled; saving := [] |}.

(** What the restoration may hold without an id twice. *)
Definition restoresDistinct (r : Restoration) : Prop :=
  match r with
  | IdsAsked | Settled => True
  | IdsRead ids => NoDup ids
  | AssetAsked assets k rest => NoDup (map id assets ++ k :: rest)
  | AssetRead assets found rest =>
      NoDup (map id (assets ++ option_list found) ++ rest)
  end.

(** No id twice: in the queue, in the persisted list, and in what the
    restoration holds, over a store keyed by asset id. *)
Definition distinctIds (v : Service) : Prop :=
  keyed (assetStorage (engine v))
  ∧ NoDup (queueIds (engine v))
  ∧ NoDup (durableIds (engine v))
  ∧ restoresDistinct (restoration v).

(** The turns in which a restoration that nothing overlaps runs to its
    end, for a persisted list of [n] ids. *)
Definition restorationTurns (n : nat) : list Turn :=
  replicate (2 + 2 * n) Restoring.

(** Sample runs.  The persisted list a service worker finds when it was
    stopped with asset "a" queued, and with "a" and "b" queued. *)
Definition leftOver : StorageService.Storage :=
  StorageService.setUploadQueueIds ["a"] StorageService.emptyStorage.

Definition twoLeft : StorageService.Storage :=
  StorageService.setUploadQueueIds ["a"; "b"] StorageService.emptyStorage.

(** The engine is constructed and asked at once to upload "b": the ids
    are read, [addToQueue] runs up to its [saveQueue], the restoration
    reads "a" and goes on to its end, the [saveQueue] answers, and the
    remote service registers the asset in flight. *)
Definition overlapped : list Turn :=
  [Restoring; Enqueue Samples.assetB false;
   Restoring; Restoring; Restoring;
   Saved 0; Call (Answer 0 Samples.now Samples.registered)].

(** The same call made after the restoration has run to its end, and the
    two answers of the remote service. *)
Definition waited : list Turn :=
  restorationTurns 1 ++
  [Enqueue Samples.assetB false; Saved 0;
   Call (Answer 0 Samples.now Samples.registered);
   Call (Answer 0 Samples.now Samples.registered)].

End Lifecycle.

(** ** StorageService.ts: the remaining keys of [chrome.storage.local] *)

Module LocalStorage.
Import Js.

Record StoredAuth : Type := {
  token : string;
  email : string;
  username : string;
}.

(** What [getAuth] hands back: a key that is not stored reads
    [undefined]. *)
Record AuthRead : Type := {
  read_token : string;
  read_email : option string;
  read_username : option string;
}.

(** [chrome.storage.local] with all the keys the service uses: the
    records of [StorageService.Storage], the three authentication keys,
    the Google sign-in error and the pending share. *)
Record Local : Type := {
  records : StorageService.Storage;
  auth_token : option string;
  auth_email : option string;
  auth_username : option string;
  google_auth_error : option string;
  pending_hunt_share : option string;
}.

Definition empty : Local :=
  {| records := StorageService.emptyStorage;
     auth_token := None; auth_email := None; auth_username := None;
     google_auth_error := None; pending_hunt_share := None |}.

(** A method of the service that works on the other records. *)
Definition on_records (f : StorageService.Storage → StorageService.Storage)
  (st : Local) : Local :=
  {| records := f (records st);
     auth_token := auth_token st; auth_email := auth_email st;
     auth_username := auth_username st;
     google_auth_error := google_auth_error st;
     pending_hunt_share := pending_hunt_share st |}.

Definition init : Local → Local := on_records StorageService.init.

Definition setAuth (auth : StoredAuth) (st : Local) : Local :=
  {| records := records st;
     auth_token := Some (token auth); auth_email := Some (email auth);
     auth_username := Some (username auth);
     google_auth_error := google_auth_error st;
     pending_hunt_share := pending_hunt_share st |}.

Definition getAuth (st : Local) : option AuthRead :=
  match auth_token st with
  | Some (String c r) =>
      Some {| read_token := String c r; read_email := auth_email st;
              read_username := auth_username st |}
  | _ => None
  end.

Definition clearAuth (st : Local) : Local :=
  {| records := records st;
     auth_token := None; auth_email := None; auth_username := None;
     google_auth_error := google_auth_error st;
     pending_hunt_share := pending_hunt_share st |}.

Definition isAuthenticated (st : Local) : bool :=
  match auth_token st with
  | Some (String _ _) => true
  | _ => false
  end.

Definition setGoogleAuthError (message : string) (st : Local) : Local :=
  {| records := records st;
     auth_token := auth_token st; auth_email := auth_email st;
     auth_username := auth_username st;
     google_auth_error := Some message;
     pending_hunt_share := pending_hunt_share st |}.

Definition getAndClearGoogleAuthError (st : Local) : option string * Local :=
  match google_auth_error st with
  | Some (String c r) =>
      (Some (String c r),
       {| records := records st;
          auth_token := auth_token st; auth_email := auth_email st;
          auth_username := auth_username st;
          google_auth_error := None;
          pending_hunt_share := pending_hunt_share st |})
  | _ => (None, st)
  end.

Definition setPendingShare (nid : string) (st : Local) : Local :=
  {| records := records st;
     auth_token := auth_token st; auth_email := auth_email st;
     auth_username := auth_username st;
     google_auth_error := google_auth_error st;
     pending_hunt_share := Some nid |}.

Definition getAndClearPendingShare (st : Local) : option string * Local :=
  match pending_hunt_share st with
  | Some (String c r) =>
      (Some (String c r),
       {| records := records st;
          auth_token := auth_token st; auth_email := auth_email st;
          auth_username := auth_username st;
          google_auth_error := google_auth_error st;
          pending_hunt_share := None |})
  | _ => (None, st)
  end.

(** [clearAll]: [chrome.storage.local.clear()]. *)
Definition clearAll (st : Local) : Local := empty.

(** The [catch] of the worker's [START_GOOGLE_AUTH] handler: the message
    of the error, or a fixed text, is stored and sent back. *)
Definition googleAuthFailed (message : option string) (st : Local)
  : Local * string :=
  let errorMessage :=
    match message with
    | Some (String c r) => String c r
    | _ => "Google Auth failed"
    end in
  (setGoogleAuthError errorMessage st, errorMessage).

End LocalStorage.

(** ** popup.tsx: the insufficient-credits notification *)

Module Popup.
Import Js IndexedDBService.

(** [asset.status === 'failed' &&
     asset.metadata?.errorType === 'insufficient_credits']. *)
Definition isCreditError (asset : Asset) : bool :=
  bool_decide (status asset = failed)
  && match getProp "errorType" (metadata asset) with
     | Some (JString t) => String.eqb t "insufficient_credits"
     | _ => false
     end.

(** [checkCreditStatus]: the new value of
    [showInsufficientCreditsNotification]. *)
Definition checkCreditStatus (currentAssets : list Asset) (showing : bool)
  (st : StorageService.Storage) : bool :=
  let hasCreditError := existsb isCreditError currentAssets in
  if showing then showing
  else if hasCreditError then
    let dismissed :=
      StorageService.hasInsufficientCreditsNotificationDismissed st in
    if negb dismissed then true else showing
  else showing.

(** [handleCloseNotification]. *)
Definition handleCloseNotification (st : StorageService.Storage)
  : bool * StorageService.Storage :=
  (false, StorageService.setInsufficientCreditsNotificationDismissed true st).

End Popup.

(** ** selection-overlay.ts: the events of the page *)

Module OverlayEvents.
Import SelectionOverlay.

(** [handleMouseMove]: the box that is painted, if one is.  The variables
    of the script are read, not written. *)
Definition handleMouseMove (clientX clientY : Z) (o : Overlay)
  : option SelectionCoordinates :=
  if negb (listening o) then None
  else if negb (isSelecting o) then None
  else
    Some {| x := Z.min (startX o) clientX;
            y := Z.min (startY o) clientY;
            width := Z.abs (clientX - startX o);
            height := Z.abs (clientY - startY o) |}.

(** What the page can send to the listeners: [mousedown] on the overlay,
    [mousemove], [mouseup] and [keydown] on the document. *)
Inductive DomEvent : Type :=
| MouseDown (button clientX clientY : Z)
| MouseMove (clientX clientY : Z)
| MouseUp (clientX clientY : Z)
| KeyDown (key : string).

(** One event: the overlay afterwards and the [SELECTION_COMPLETE]
    message that was sent, if any. *)
Definition dispatch (num : Z) (den : positive) (o : Overlay) (e : DomEvent)
  : Overlay * option Payload :=
  match e with
  | MouseDown button clientX clientY =>
      (handleMouseDown button clientX clientY o, None)
  | MouseMove _ _ => (o, None)
  | MouseUp clientX clientY => handleMouseUp clientX clientY num den o
  | KeyDown key => handleKeyDown key o
  end.

(** A sequence of events: the overlay afterwards and the messages sent,
    oldest first. *)
Fixpoint deliver (num : Z) (den : positive) (events : list DomEvent)
  (o : Overlay) : Overlay * list Payload :=
  match events with
  | [] => (o, [])
  | e :: rest =>
      let '(o1, sent) := dispatch num den o e in
      let '(o2, later) := deliver num den rest o1 in
      (o2, option_list sent ++ later)
  end.

End OverlayEvents.

(** ** The service worker: capture of the visible tab, manual upload *)

Module Capture.
Import Js IndexedDBService SelectionOverlay ServiceWorker.

Inductive Mode : Type := visible | selection | fullpage.

(** What the browser answers during a capture started from the popup,
    beyond the answers of [Browser]: whether the overlay script can be
    injected, the size of the decoded picture, and whether
    [new URL(tab.url)] succeeds. *)
Record Page : Type := {
  answers : Browser;
  executeScript : Completion unit;
  createImageBitmap : Completion (Z * Z);
  urlParses : bool;
}.

(** The asset a capture of the visible tab stores. *)
Definition visibleAsset (b : Browser) (urlParses : bool)
  (settings : list (string * JsValue)) (t : Tab) (dataUrl : string)
  (width height : Z) : Asset :=
  {| id := "screenshot_" +:+ digits (captureTime_ms b) +:+ "_" +:+ random b;
     uri := dataUrl;
     mimeType := "image/" +:+ interpolate (setting "screenshotFormat" settings);
     createdAt := Int (captureTime_ms b);
     status := draft;
     metadata :=
       [ ("uploadedAt", JString (captureTime_iso b));
         ("width", JNumber (Int width));
         ("height", JNumber (Int height)) ];
     gpsLocation :=
       if truthy (setting "includeLocation" settings) then
         match geolocation b with
         | Returns g => g
         | Throws _ => None
         end
       else None;
     sourceWebsite :=
       if truthy (setting "includeWebsiteInfo" settings) then
         match tab_url t, tab_title t with
         | Some (String c r), Some (String c' r') =>
             if urlParses
             then Some {| url := String c r; title := String c' r' |}
             else None
         | _, _ => None
         end
       else None |}.

(** [handleScreenshotCapture]: the worker afterwards and how the promise
    of this call was settled; in selection mode the promise stays pending
    ([None]) until the overlay answers or the timer fires.  As in
    [ServiceWorker.Browser], [activeTab] is [None] for a first tab without
    an id or a window; a query that returns no tab at all, on which the
    script fails with the runtime's [TypeError], is not modelled. *)
Definition handleScreenshotCapture (mode : Mode) (p : Page) (w : Worker)
  : Worker * option Settlement :=
  let b := answers p in
  match activeTab b with
  | None => (w, Some (Reject "No active tab found"))
  | Some t =>
      match mode with
      | selection =>
          match executeScript p with
          | Throws _ =>
              (w, Some (Reject
                 "Failed to start selection mode. Make sure you are on a valid web page."))
          | Returns _ => (handleSelectionCapture w, None)
          end
      | _ =>
          match StorageService.getSettings
                  (UploadService.metadataStorage (services w)) with
          | Throws e => (w, Some (Reject e))
          | Returns settings =>
              match captureVisibleTab b with
              | Throws e => (w, Some (Reject e))
              | Returns raw =>
                  match createImageBitmap p with
                  | Throws e => (w, Some (Reject e))
                  | Returns (width, height) =>
                      let dataUrl :=
                        match watermark b with
                        | Returns (Some processed) => processed
                        | _ => raw
                        end in
                      let asset :=
                        visibleAsset b (urlParses p) settings t dataUrl
                          width height in
                      let u := services w in
                      let u1 :=
                        UploadService.set_assetStorage
                          (setAsset asset (UploadService.assetStorage u)) u in
                      let u2 :=
                        if truthy (setting "autoUpload" settings)
                           && authenticated b
                        then UploadService.addToQueue asset false u1
                        else u1 in
                      (with_services u2 w,
                       Some (Resolve
                               (Captured (id asset) dataUrl
                                  (captureTime_iso b)
                                  (setting "autoUpload" settings))))
                  end
              end
          end
      end
  end.

(** [handleAssetUpload], on the engine the worker holds. *)
Definition handleAssetUpload (assetId : string) (u : UploadService.State)
  : UploadService.State * Completion unit :=
  match getAsset assetId (UploadService.assetStorage u) with
  | None => (u, Throws "Asset not found")
  | Some asset => (UploadService.addToQueue asset true u, Returns tt)
  end.

(** The [.then]/[.catch] of the [UPLOAD_ASSET] handler: [success] and
    [error] of the response. *)
Definition respondUpload (c : Completion unit) : bool * option string :=
  match c with
  | Returns _ => (true, None)
  | Throws message => (false, Some message)
  end.

End Capture.

(** ** The settings as JSON text *)

Module Json.
Import Js.

(** Whether a text goes on with a digit. *)
Definition startsWithDigit (s : string) : bool :=
  match s with
  | String c _ => isDigit c
  | EmptyString => false
  end.

Fixpoint allDigits (s : string) : bool :=
  match s with
  | EmptyString => true
  | String c r => isDigit c && allDigits r
  end.

(** The numbers the settings hold: a whole number from 0 to below 10^21
    (a quality, a count), or a decimal fraction between 0 and 1 with at
    most six decimal places, the last of which is not 0 (an opacity). *)
Definition plainNumber (x : Number) : Prop :=
  (exponent x = 0 ∧ 0 ≤ mantissa x < 10 ^ 21)
  ∨ (-6 ≤ exponent x < 0 ∧ 0 < mantissa x < 10 ^ (- exponent x)
     ∧ mantissa x mod 10 ≠ 0).

(** The values the settings hold: booleans, strings and such numbers. *)
Definition plainValue (v : JsValue) : Prop :=
  match v with
  | JBool _ | JString _ => True
  | JNumber x => plainNumber x
  | _ => False
  end.

(** The text of one member of an object, without indentation. *)
Definition memberText (kv : string * JsValue) : string :=
  quote kv.1 +:+ ":" +:+
  default EmptyString (serialize None EmptyString EmptyString kv.2).

(** A settings object: each key once, plain values. *)
Definition plainProps (props : list (string * JsValue)) : Prop :=
  NoDup (map fst props) ∧ Forall (fun kv => plainValue kv.2) props.

End Json.

(** ** scripts/bump-version.js *)

Module BumpVersion.
Import Js Json.

(** The version types the script accepts (it exits on any other). *)
Inductive VersionType : Type := major | minor | patch.

(** An element of the array [parts]: a number, [NaN], or a hole that a
    write beyond the end leaves behind. *)
Inductive Part : Type := Num (n : Z) | NaN | Hole.

(** [version.split('.')]. *)
Fixpoint split (s : string) : list string :=
  match s with
  | EmptyString => [EmptyString]
  | String c r =>
      if Ascii.eqb c "." then EmptyString :: split r
      else
        match split r with
        | p :: ps => String c p :: ps
        | [] => [String c EmptyString]
        end
  end.

(** [Number(part)] for a part that is a run of decimal digits (the empty
    part is 0).  The other forms that the conversion takes (white space,
    a sign, an exponent, a radix prefix, [Infinity]) are outside this
    model, which answers [None] for them.  Numbers are whole numbers
    here; the script's are doubles, exact below 2^53. *)
Definition toNumber (part : string) : option Part :=
  if allDigits part then Some (Num (readDigits 0 0 part).1.1) else None.

(** [parts[i]++]: an element that is missing reads [undefined], whose
    increment is [NaN]. *)
Definition increment (p : Part) : Part :=
  match p with
  | Num n => Num (n + 1)
  | NaN | Hole => NaN
  end.

(** [parts[i] = v]: a write beyond the end extends the array. *)
Fixpoint setAt (i : nat) (v : Part) (parts : list Part) : list Part :=
  match i, parts with
  | O, [] => [v]
  | O, _ :: r => v :: r
  | S i', [] => Hole :: setAt i' v []
  | S i', p :: r => p :: setAt i' v r
  end.

Definition getAt (i : nat) (parts : list Part) : Part :=
  default Hole (parts !! i).

(** The text [join] gives an element: nothing for a hole. *)
Definition partText (p : Part) : string :=
  match p with
  | Num n => Number_toString (Int n)
  | NaN => "NaN"
  | Hole => EmptyString
  end.

(** [bumpVersion]. *)
Definition bumpVersion (version : string) (type : VersionType)
  : option string :=
  match mapM toNumber (split version) with
  | None => None
  | Some parts =>
      let parts' :=
        match type with
        | major =>
            setAt 2 (Num 0)
              (setAt 1 (Num 0) (setAt 0 (increment (getAt 0 parts)) parts))
        | minor =>
            setAt 2 (Num 0) (setAt 1 (increment (getAt 1 parts)) parts)
        | patch => setAt 2 (increment (getAt 2 parts)) parts
        end in
      Some (String.concat "." (map partText parts'))
  end.

(** The text of a version with three parts. *)
Definition semver (a b c : Z) : string :=
  digits a +:+ "." +:+ digits b +:+ "." +:+ digits c.

End BumpVersion.

(* ===================================================================== *)
(** * Part II.  Properties                                                *)
(* ===================================================================== *)

(** ** Strings and property lists *)

Module JsFacts.
Import Js.

Lemma startsWith_spec (needle s : string) :
  startsWith s needle = true ↔ ∃ post, s = needle +:+ post.
Proof.
  revert s. induction needle as [|a n IH]; intros s.
  - split; [intros _; by exists s | by destruct s].
  - destruct s as [|b r]; simpl.
    + split; [done | intros [post H]; discriminate].
    + rewrite andb_true_iff, Ascii.eqb_eq, IH. split.
      * intros [-> [post ->]]. by exists post.
      * intros [post H]. injection H as -> ->. split; [done | by exists post].
Qed.

Lemma includes_nil (needle : string) :
  includes EmptyString needle = startsWith EmptyString needle.
Proof. simpl. apply orb_false_r. Qed.

Lemma includes_cons (c : ascii) (r needle : string) :
  includes (String c r) needle =
  startsWith (String c r) needle || includes r needle.
Proof. done. Qed.

Lemma includes_spec (needle s : string) :
  includes s needle = true ↔ ∃ pre post, s = pre +:+ needle +:+ post.
Proof.
  induction s as [|c r IH].
  - rewrite includes_nil, startsWith_spec. split.
    + intros [post H]. by exists EmptyString, post.
    + intros [pre [post H]]. destruct pre; simpl in H; [by exists post | done].
  - rewrite includes_cons, orb_true_iff, startsWith_spec, IH. split.
    + intros [[post H] | [pre [post H]]].
      * by exists EmptyString, post.
      * exists (String c pre), post. simpl. by rewrite H.
    + intros [pre [post H]]. destruct pre as [|c' pre]; simpl in H.
      * left. by exists post.
      * right. injection H as -> ->. by exists pre, post.
Qed.

Lemma getProp_setProp (k k' : string) (v : JsValue) props :
  getProp k (setProp k' v props) =
  if String.eqb k' k then Some v else getProp k props.
Proof.
  induction props as [|[k0 v0] r IH]; simpl.
  - done.
  - destruct (String.eqb k0 k') eqn:E0; simpl.
    + apply String.eqb_eq in E0 as ->.
      by destruct (String.eqb k' k).
    + destruct (String.eqb k0 k) eqn:E1; [|done].
      apply String.eqb_eq in E1. subst k0.
      by rewrite String.eqb_sym, E0.
Qed.

Lemma getProp_setProp_eq (k : string) (v : JsValue) props :
  getProp k (setProp k v props) = Some v.
Proof. by rewrite getProp_setProp, String.eqb_refl. Qed.

Lemma getProp_setProp_ne (k k' : string) (v : JsValue) props :
  k' ≠ k → getProp k (setProp k' v props) = getProp k props.
Proof.
  intros H. rewrite getProp_setProp.
  destruct (String.eqb k' k) eqn:E; [|done].
  by apply String.eqb_eq in E.
Qed.

(** What a spread reads for a key: the value the source gives it (the last
    one, if the source lists the key twice), else the value it had. *)
Lemma getProp_fold_setProp (k : string) (l a : list (string * JsValue)) :
  getProp k (fold_left (fun acc kv => setProp kv.1 kv.2 acc) l a) =
  match getProp k (rev l) with
  | Some v => Some v
  | None => getProp k a
  end.
Proof.
  revert a. induction l as [|[k0 v0] r IH] using rev_ind; intros a.
  - done.
  - rewrite fold_left_app, rev_app_distr. simpl.
    rewrite getProp_setProp.
    destruct (String.eqb k0 k); [done | apply IH].
Qed.

Lemma getProp_spread (k : string) (a : list (string * JsValue)) (b : JsValue) :
  getProp k (spread a b) =
  match getProp k (rev (ownProps b)) with
  | Some v => Some v
  | None => getProp k a
  end.
Proof. apply getProp_fold_setProp. Qed.

Lemma toLowerCase_app (a b : string) :
  toLowerCase (a +:+ b) = toLowerCase a +:+ toLowerCase b.
Proof. induction a as [|c a IH]; simpl; [done | by rewrite IH]. Qed.

Lemma toLowerCase_split (s p q : string) :
  toLowerCase s = p +:+ q →
  ∃ s1 s2, s = s1 +:+ s2 ∧ toLowerCase s1 = p ∧ toLowerCase s2 = q.
Proof.
  revert s. induction p as [|c p IH]; intros s H.
  - by exists EmptyString, s.
  - destruct s as [|c' s]; [done|]. simpl in H. injection H as Hc H.
    destruct (IH s H) as (s1 & s2 & -> & H1 & H2).
    exists (String c' s1), s2. simpl. by rewrite Hc, H1.
Qed.

(** [includes] on the lowered text finds the pieces that read [word] when
    case is ignored. *)
Lemma includes_toLowerCase (word text : string) :
  includes (toLowerCase text) word = true ↔
  ∃ pre piece post,
    text = pre +:+ piece +:+ post ∧ toLowerCase piece = word.
Proof.
  rewrite includes_spec. split.
  - intros (pre & post & H).
    apply toLowerCase_split in H as (s1 & s2 & -> & H1 & H2).
    apply toLowerCase_split in H2 as (s3 & s4 & -> & H3 & H4).
    by exists s1, s3, s4.
  - intros (pre & piece & post & -> & <-).
    exists (toLowerCase pre), (toLowerCase post).
    by rewrite !toLowerCase_app.
Qed.

Lemma includes_empty (word : string) :
  word ≠ EmptyString → includes EmptyString word = false.
Proof. destruct word; [done | reflexivity]. Qed.

End JsFacts.

(** ** The settings read *)

Module StorageFacts.
Import Js StorageService JsFacts.

Lemma getSettings_absent (st : Storage) :
  user_settings st = None → getSettings st = Returns DEFAULT_SETTINGS.
Proof. unfold getSettings. by intros ->. Qed.

Lemma getSettings_parsed (st : Storage) (c : ascii) (r : string) (saved : JsValue) :
  user_settings st = Some (String c r) →
  JSON_parse (String c r) = Some saved →
  getSettings st = Returns (spread DEFAULT_SETTINGS saved).
Proof. unfold getSettings. by intros -> ->. Qed.

(** The scenario of a store that holds only [{autoUpload: false}]. *)
Example getSettings_only_autoUpload :
  getSettings
    {| user_settings := Some ("{" +:+ quote "autoUpload" +:+ ": false}");
       upload_queue := None;
       insufficient_credits_dismissed := None |}
  = Returns (setProp "autoUpload" (JBool false) DEFAULT_SETTINGS).
Proof. vm_compute. reflexivity. Qed.

(** What [init] stores on first run reads back as the defaults. *)
Example getSettings_after_init :
  getSettings (init emptyStorage) = Returns DEFAULT_SETTINGS.
Proof. vm_compute. reflexivity. Qed.

(** C9, as the code has it.  When the settings record is absent (or the
    empty string) the read returns the defaults.  When the record parses,
    the read returns an object in which every settings field is populated:
    a field takes the saved value when the record has one (the last one,
    should the text repeat the field), and the default otherwise.  When
    the record does not parse, the read throws the parser's [SyntaxError];
    it does not fall back to the defaults. *)
Theorem getSettings_merges_defaults (st : Storage) :
  match user_settings st with
  | Some (String c r) =>
      match JSON_parse (String c r) with
      | Some saved =>
          ∃ settings,
            getSettings st = Returns settings
            ∧ (∀ k, is_Some (getProp k DEFAULT_SETTINGS) →
                    is_Some (getProp k settings))
            ∧ (∀ k, getProp k settings =
                    match getProp k (rev (ownProps saved)) with
                    | Some v => Some v
                    | None => getProp k DEFAULT_SETTINGS
                    end)
      | None => getSettings st = Throws "SyntaxError"
      end
  | _ => getSettings st = Returns DEFAULT_SETTINGS
  end.
Proof.
  unfold getSettings.
  destruct (user_settings st) as [[|c r]|]; try reflexivity.
  destruct (JSON_parse (String c r)) as [saved|]; [|reflexivity].
  exists (spread DEFAULT_SETTINGS saved). split; [reflexivity|].
  split; intros k.
  - rewrite getProp_spread. intros H.
    destruct (getProp k (rev (ownProps saved))); [by eexists | done].
  - apply getProp_spread.
Qed.

(** C9 as stated fails: on a record that does not parse, the read throws
    and returns no settings object. *)
Lemma getSettings_corrupted_throws :
  let st := {| user_settings := Some "{oops"; upload_queue := None;
               insufficient_credits_dismissed := None |} in
  getSettings st = Throws "SyntaxError"
  ∧ ¬ ∃ settings, getSettings st = Returns settings.
Proof.
  assert (H : getSettings
                {| user_settings := Some "{oops"; upload_queue := None;
                   insufficient_credits_dismissed := None |}
              = Throws "SyntaxError") by (vm_compute; reflexivity).
  simpl. split; [exact H|]. intros [settings H']. rewrite H in H'. discriminate.
Qed.

End StorageFacts.

(** ** The upload queue engine *)

Module UploadFacts.
Import Js IndexedDBService UploadService JsFacts.

(** *** How [processQueue] and the enqueue loop behave *)

Lemma inQueue_spec (k : string) (q : list Asset) :
  inQueue k q = true ↔ k ∈ map id q.
Proof.
  unfold inQueue. induction q as [|a q IH]; simpl.
  - split; [done | by intros H%elem_of_nil].
  - rewrite orb_true_iff, String.eqb_eq, IH, elem_of_cons.
    split; (intros [H|H]; [left|right]); done.
Qed.

Lemma inQueue_false (k : string) (q : list Asset) :
  inQueue k q = false ↔ k ∉ map id q.
Proof.
  rewrite <- inQueue_spec. destruct (inQueue k q); naive_solver.
Qed.

Lemma processQueue_noop (s : State) :
  isUploading s = true ∨ isPaused s = true ∨ uploadQueue s = [] →
  processQueue s = s.
Proof.
  unfold processQueue. intros [H | [H | H]]; rewrite H; simpl.
  - done.
  - by rewrite orb_true_r.
  - by rewrite !orb_true_r.
Qed.

Lemma processQueue_start (s : State) (a : Asset) (rest : list Asset) :
  isUploading s = false → isPaused s = false → uploadQueue s = a :: rest →
  processQueue s =
  uploadAsset_post a (set_uploadQueue rest (set_isUploading true s)).
Proof. unfold processQueue. intros -> -> Hq. simpl. by rewrite Hq. Qed.


Lemma processQueue_busy (s : State) :
  isPaused s = false → uploadQueue s ≠ [] →
  isUploading (processQueue s) = true.
Proof.
  intros Hp Hq. destruct (isUploading s) eqn:Hu.
  - rewrite processQueue_noop; auto.
  - destruct (uploadQueue s) as [|a rest] eqn:E; [done|].
    by rewrite (processQueue_start s a rest).
Qed.

Lemma pushEach_all_present (assets : list Asset) (n : nat) (s : State) :
  Forall (fun a => id a ∈ queueIds s) assets → pushEach assets n s = (n, s).
Proof.
  induction 1 as [|a l Ha _ IH]; simpl; [done|].
  apply inQueue_spec in Ha. by rewrite Ha.
Qed.

(** The loop keeps the flags, only grows the queue and the counter, and
    counts an asset whose id the queue did not hold. *)
Lemma pushEach_spec (assets : list Asset) (n : nat) (s : State) :
  let r := pushEach assets n s in
  isPaused r.2 = isPaused s ∧ isUploading r.2 = isUploading s
  ∧ metadataStorage r.2 = metadataStorage s
  ∧ assetStorage r.2 = assetStorage s
  ∧ inFlight r.2 = inFlight s ∧ effects r.2 = effects s
  ∧ (n ≤ r.1)%nat
  ∧ ((n < r.1)%nat → uploadQueue r.2 ≠ [])
  ∧ (Exists (fun a => id a ∉ queueIds s) assets → (n < r.1)%nat).
Proof.
  revert n s. induction assets as [|a l IH]; intros n s; simpl.
  - repeat split; try done; try lia. by intros H%Exists_nil.
  - destruct (inQueue (id a) (uploadQueue s)) eqn:E.
    + destruct (IH n s) as (?&?&?&?&?&?&?&?&Hex).
      repeat split; try done. intros [Ha|Hl]%Exists_cons; [|auto].
      apply inQueue_spec in E. done.
    + destruct (IH (S n) (push a s)) as (?&?&?&?&?&?&?&?&Hex).
      repeat split; try done; try lia.
      intros _. destruct (decide (S n < (pushEach l (S n) (push a s)).1)%nat);
        [auto|].
      assert (Hpe : pushEach l (S n) (push a s) = (S n, push a s)).
      { apply pushEach_all_present. apply Forall_forall. intros b Hb.
        destruct (decide (id b ∈ queueIds (push a s))) as [|Hn]; [done|].
        exfalso. apply n0, Hex, Exists_exists. eauto. }
      rewrite Hpe. simpl. by destruct (uploadQueue s).
Qed.

Lemma updateAsset_absent (k k' : string) (u : AssetUpdate)
  (db : gmap string Asset) :
  db !! k = None → updateAsset k' u db !! k = None.
Proof.
  intros H. unfold updateAsset. destruct (db !! k') eqn:E; [|done].
  rewrite lookup_insert_ne; [done | congruence].
Qed.

Lemma uploadAsset_post_effects (a : Asset) (s : State) :
  ∃ later, effects (uploadAsset_post a s) = effects s ++ later.
Proof.
  unfold uploadAsset_post. simpl. eexists.
  by rewrite <- !app_assoc.
Qed.

Lemma processQueue_effects (s : State) :
  ∃ later, effects (processQueue s) = effects s ++ later.
Proof.
  unfold processQueue.
  destruct (isUploading s || isPaused s || (length (uploadQueue s) =? 0)%nat).
  - exists []. by rewrite app_nil_r.
  - simpl. destruct (uploadQueue s) as [|a rest].
    + exists []. by rewrite app_nil_r.
    + apply (uploadAsset_post_effects a
               (set_uploadQueue rest (set_isUploading true s))).
Qed.

Lemma processQueue_absent (k : string) (s : State) :
  assetStorage s !! k = None → assetStorage (processQueue s) !! k = None.
Proof.
  intros H. unfold processQueue.
  destruct (isUploading s || isPaused s || (length (uploadQueue s) =? 0)%nat);
    [done|].
  simpl. destruct (uploadQueue s) as [|a rest]; [done|].
  simpl. by apply updateAsset_absent.
Qed.

Lemma keyed_empty : keyed ∅.
Proof. intros k a H. by rewrite lookup_empty in H. Qed.

Lemma keyed_setAsset (a : Asset) (db : gmap string Asset) :
  keyed db → keyed (setAsset a db).
Proof.
  intros Hk k b. unfold setAsset. rewrite lookup_insert.
  case_decide as E; [by intros [= <-] | apply Hk].
Qed.

Lemma keyed_updateAsset (k : string) (u : AssetUpdate) (db : gmap string Asset) :
  keyed db → keyed (updateAsset k u db).
Proof.
  intros Hk k' b. unfold updateAsset. destruct (db !! k) as [a|] eqn:E;
    [|apply Hk].
  rewrite lookup_insert. case_decide as E'; [|apply Hk].
  intros [= <-]. simpl. subst k'. by apply Hk.
Qed.

Lemma keyed_deleteAsset (k : string) (db : gmap string Asset) :
  keyed db → keyed (deleteAsset k db).
Proof.
  intros Hk k' b. unfold deleteAsset. rewrite lookup_delete.
  case_decide; [done | apply Hk].
Qed.

(** What a drain that starts from rest does. *)
Lemma processQueue_from_rest (s : State) :
  isUploading s = false → isPaused s = false → inFlight s = [] →
  let s' := processQueue s in
  map id (inFlight s') ++ queueIds s' = queueIds s
  ∧ isPaused s' = false
  ∧ enqueued s' = enqueued s
  ∧ metadataStorage s' = metadataStorage s
  ∧ match uploadQueue s with
    | [] => s' = s
    | first :: _ =>
        isUploading s' = true
        ∧ ∃ a, inFlight s' = [a] ∧ id a = id first ∧ status a = uploading
    end.
Proof.
  intros Hu Hp Hf. simpl. destruct (uploadQueue s) as [|a rest] eqn:Hq.
  - rewrite processQueue_noop by auto. unfold queueIds.
    by rewrite Hf, Hq.
  - rewrite (processQueue_start s a rest) by done.
    unfold queueIds, uploadAsset_post. simpl. rewrite Hf, Hq. simpl.
    repeat split; try done. by eexists.
Qed.

(** *** C6: enqueuing a queued id *)

(** C6.  Enqueuing an asset whose id is already in the queue changes
    nothing, for [addToQueue] and for [addMultipleToQueue], whose loop
    skips every such asset. *)
Theorem enqueue_queued_id_is_noop (s : State) (asset : Asset)
  (assets : list Asset) (isManualRetry : bool) :
  id asset ∈ queueIds s →
  Forall (fun a => id a ∈ queueIds s) assets →
  addToQueue asset isManualRetry s = s
  ∧ addMultipleToQueue assets isManualRetry s = s
  ∧ uploadQueue (addToQueue asset isManualRetry s) = uploadQueue s
  ∧ length (uploadQueue (addMultipleToQueue assets isManualRetry s))
    = length (uploadQueue s)
  ∧ ∀ rest n, pushEach (asset :: rest) n s = pushEach rest n s.
Proof.
  intros Ha Hall.
  assert (H1 : addToQueue asset isManualRetry s = s).
  { unfold addToQueue. apply inQueue_spec in Ha. by rewrite Ha. }
  assert (H2 : addMultipleToQueue assets isManualRetry s = s).
  { unfold addMultipleToQueue. by rewrite pushEach_all_present. }
  rewrite H1, H2. repeat split; try done.
  intros rest n. simpl. apply inQueue_spec in Ha. by rewrite Ha.
Qed.

Lemma enqueue_queued_id_is_noop_witness :
  id Samples.assetA ∈ queueIds Samples.pausedWithA
  ∧ addToQueue Samples.assetA false Samples.pausedWithA = Samples.pausedWithA
  ∧ addMultipleToQueue [Samples.assetA; Samples.assetA] false
      Samples.pausedWithA = Samples.pausedWithA.
Proof.
  assert (H : id Samples.assetA ∈ queueIds Samples.pausedWithA)
    by (vm_compute; apply list_elem_of_here).
  assert (Hall : Forall (fun a => id a ∈ queueIds Samples.pausedWithA)
                    [Samples.assetA; Samples.assetA])
    by (repeat constructor; exact H).
  split; [exact H|].
  pose proof (enqueue_queued_id_is_noop Samples.pausedWithA Samples.assetA
                [Samples.assetA; Samples.assetA] false H Hall)
    as (H1 & H2 & _).
  exact (conj H1 H2).
Defined.

(** *** C5: manual retry *)





(** *** C3: failure classification *)

(** The test the code makes is the classification the specification
    words. *)
Lemma isInsufficientBalanceError_spec (err : ApiError) :
  isInsufficientBalanceError err = true ↔ signalsInsufficientBalance err.
Proof.
  unfold isInsufficientBalanceError, signalsInsufficientBalance, mentions.
  case_bool_decide as Hcode.
  - split; auto.
  - destruct (message err) as [text|]; simpl.
    + rewrite andb_true_iff, !orb_true_iff, !includes_toLowerCase. split.
      * intros [H1 H2]. right. exists text. repeat split; [done | tauto].
      * intros [H | (text' & [= <-] & H1 & H2)]; [done|].
        split; [done | tauto].
    + split; [done|]. by intros [H | (text & H & _)].
Qed.

Lemma isInsufficientBalanceError_false (err : ApiError) :
  isInsufficientBalanceError err = false ↔ ¬ signalsInsufficientBalance err.
Proof.
  rewrite <- isInsufficientBalanceError_spec.
  by destruct (isInsufficientBalanceError err).
Qed.

(** C3.  When the failure signals insufficient balance (by the structured
    code, or by a message that mentions "insufficient" and one of "fund",
    "balance", "credit", whatever the letter case), the error handler
    pauses the engine, records the asset as [failed] with the error
    classification [insufficient_credits], and clears the dismissed flag.
    For every other failure it leaves the pause flag and the small-record
    store as they were and records the asset as [failed] with an
    [errorType] that reads [undefined]. *)
Theorem handleUploadError_classifies (asset stored : Asset) (err : ApiError)
  (s : State) :
  assetStorage s !! id asset = Some stored →
  let s' := handleUploadError asset err s in
  ∃ recorded,
    assetStorage s' !! id asset = Some recorded
    ∧ status recorded = failed
    ∧ (signalsInsufficientBalance err →
         isPaused s' = true
         ∧ getProp "errorType" (metadata recorded)
           = Some (JString "insufficient_credits")
         ∧ StorageService.insufficient_credits_dismissed (metadataStorage s')
           = None)
    ∧ (¬ signalsInsufficientBalance err →
         isPaused s' = isPaused s
         ∧ isUploading s' = isUploading s
         ∧ default JUndefined (getProp "errorType" (metadata recorded))
           = JUndefined
         ∧ metadataStorage s' = metadataStorage s).
Proof.
  intros Hst. simpl. unfold handleUploadError.
  destruct (isInsufficientBalanceError err) eqn:E.
  - apply isInsufficientBalanceError_spec in E.
    simpl. unfold updateAsset. simpl. rewrite Hst. rewrite lookup_insert_eq.
    eexists. split; [reflexivity|]. split; [reflexivity|].
    split; [|done]. intros _. simpl.
    by rewrite getProp_setProp_eq.
  - apply isInsufficientBalanceError_false in E.
    simpl. unfold updateAsset. rewrite Hst. rewrite lookup_insert_eq.
    eexists. split; [reflexivity|]. split; [reflexivity|].
    split; [done|]. intros _. simpl.
    by rewrite getProp_setProp_eq.
Qed.

Lemma handleUploadError_classifies_witness :
  assetStorage Samples.fresh !! id Samples.assetA = Some Samples.assetA
  ∧ ∃ recorded,
      assetStorage
        (handleUploadError Samples.assetA
           {| error_type := None;
              message := Some "Insufficient FUNDS for this commit" |}
           Samples.fresh) !! id Samples.assetA = Some recorded
      ∧ status recorded = failed.
Proof.
  assert (H : assetStorage Samples.fresh !! id Samples.assetA
              = Some Samples.assetA) by (vm_compute; reflexivity).
  split; [exact H|].
  destruct (handleUploadError_classifies Samples.assetA Samples.assetA
              {| error_type := None;
                 message := Some "Insufficient FUNDS for this commit" |}
              Samples.fresh H) as (recorded & H1 & H2 & _).
  exists recorded. exact (conj H1 H2).
Defined.

(** The scenario of the specification: A succeeds, then B fails for lack
    of credits. *)
Example upload_then_insufficient_balance :
  let s := run [AddToQueue Samples.assetA false;
                AddToQueue Samples.assetB false;
                Answer 0 Samples.now Samples.registered;
                Answer 0 Samples.now Samples.insufficient] Samples.fresh in
  assetStorage s !! "a" = None
  ∧ uploadedIds s = ["a"]
  ∧ status <$> assetStorage s !! "b" = Some failed
  ∧ (assetStorage s !! "b" ≫= fun b => getProp "errorType" (metadata b))
    = Some (JString "insufficient_credits")
  ∧ isPaused s = true
  ∧ isUploading s = false.
Proof. vm_compute. done. Qed.

(** *** C2: what a successful upload leaves behind *)

(** C2.  When the request of an asset in flight is answered with success,
    the drain step first writes status [uploaded] and a metadata object
    that carries the returned [cid] and [nid] to the blob store: in the
    state the engine is in after that write, the record of a stored asset
    reads [uploaded] and has that [cid] and [nid], with its payload as it
    was, and every other record is untouched.  From that state the engine
    reports full progress, then deletes the asset from the blob store,
    then broadcasts the completion, and only then saves the queue.  The
    asset is absent from the blob store after the success handler and
    after the step. *)
Theorem upload_success_records_then_deletes (s : State) (i : nat)
  (asset : Asset) (result : ApiResult) (now : string) :
  inFlight s !! i = Some asset →
  let handled :=
    handleUploadSuccess asset result now
      (set_inFlight (delete i (inFlight s)) s) in
  let s' := processQueue_resume i now (Resolved result) s in
  ∃ md persisted,
    getProp "cid" md = Some (cid result)
    ∧ getProp "nid" md = Some (nid result)
    ∧ persisted
      = storeUpdate (id asset) uploaded md
          (set_inFlight (delete i (inFlight s)) s)
    ∧ handled
      = emitCompletion (id asset)
          (storeDelete (id asset)
             (emitProgress
                {| assetId := id asset; progress := Int 1;
                   progress_status := uploaded; error := None |}
                persisted))
    ∧ (∀ stored, assetStorage s !! id asset = Some stored →
         ∃ recorded,
           assetStorage persisted !! id asset = Some recorded
           ∧ status recorded = uploaded
           ∧ getProp "cid" (metadata recorded) = Some (cid result)
           ∧ getProp "nid" (metadata recorded) = Some (nid result)
           ∧ metadata recorded = md
           ∧ uri recorded = uri stored)
    ∧ (∀ k, k ≠ id asset → assetStorage persisted !! k = assetStorage s !! k)
    ∧ effects handled =
        effects s ++
        [ UpdateAsset (id asset)
            {| new_status := Some uploaded; new_metadata := Some md |};
          EmitProgress {| assetId := id asset; progress := Int 1;
                          progress_status := uploaded; error := None |};
          DeleteAsset (id asset);
          EmitCompletion (id asset) ]
    ∧ assetStorage handled !! id asset = None
    ∧ (∃ later,
         effects s' =
         effects handled ++ SetUploadQueueIds (queueIds s) :: later)
    ∧ assetStorage s' !! id asset = None.
Proof.
  intros Hi. simpl. unfold processQueue_resume. rewrite Hi.
  set (md := setProp "uploadProgress" (JNumber (Int 1))
               (setProp "nid" (nid result)
                  (setProp "cid" (cid result)
                     (setProp "uploadedAt" (JString now) (metadata asset))))).
  assert (Hcid : getProp "cid" md = Some (cid result)).
  { unfold md. rewrite getProp_setProp_ne by done.
    rewrite getProp_setProp_ne by done. apply getProp_setProp_eq. }
  assert (Hnid : getProp "nid" md = Some (nid result)).
  { unfold md. rewrite getProp_setProp_ne by done. apply getProp_setProp_eq. }
  exists md, (storeUpdate (id asset) uploaded md
                (set_inFlight (delete i (inFlight s)) s)).
  split; [exact Hcid|]. split; [exact Hnid|]. split; [reflexivity|].
  split; [reflexivity|]. split.
  { intros stored Hst. unfold storeUpdate, updateAsset. simpl. rewrite Hst.
    rewrite lookup_insert_eq. eexists. split; [reflexivity|].
    simpl. done. }
  split.
  { intros k Hk. unfold storeUpdate, updateAsset. simpl.
    destruct (assetStorage s !! id asset); [|done].
    by rewrite lookup_insert_ne. }
  split.
  { unfold handleUploadSuccess. simpl. rewrite <- !app_assoc. reflexivity. }
  split.
  { unfold handleUploadSuccess. simpl. apply lookup_delete_eq. }
  split.
  - match goal with
    | |- ∃ later, effects (processQueue ?t) = _ =>
        destruct (processQueue_effects t) as [later Hl]
    end.
    exists later. rewrite Hl. simpl. unfold queueIds.
    by rewrite <- !app_assoc.
  - apply processQueue_absent. simpl. apply lookup_delete_eq.
Qed.

Lemma upload_success_records_then_deletes_witness :
  inFlight (run [AddToQueue Samples.assetA false] Samples.fresh) !! 0%nat
  = Some (set_status uploading Samples.assetA)
  ∧ (∃ persisted recorded,
       assetStorage persisted !! id Samples.assetA = Some recorded
       ∧ status recorded = uploaded
       ∧ getProp "cid" (metadata recorded) = Some (JString "bafy-cid")
       ∧ handleUploadSuccess (set_status uploading Samples.assetA)
           {| cid := JString "bafy-cid"; nid := JString "bafy-nid" |}
           Samples.now
           (set_inFlight []
              (run [AddToQueue Samples.assetA false] Samples.fresh))
         = emitCompletion (id Samples.assetA)
             (storeDelete (id Samples.assetA)
                (emitProgress
                   {| assetId := id Samples.assetA; progress := Int 1;
                      progress_status := uploaded; error := None |}
                   persisted)))
  ∧ assetStorage
      (processQueue_resume 0 Samples.now Samples.registered
         (run [AddToQueue Samples.assetA false] Samples.fresh))
      !! id Samples.assetA = None.
Proof.
  assert (H : inFlight (run [AddToQueue Samples.assetA false] Samples.fresh)
              !! 0%nat = Some (set_status uploading Samples.assetA))
    by (vm_compute; reflexivity).
  assert (Hst : assetStorage
                  (run [AddToQueue Samples.assetA false] Samples.fresh)
                  !! id (set_status uploading Samples.assetA)
                = Some (set_status uploading Samples.assetA))
    by (vm_compute; reflexivity).
  split; [exact H|].
  destruct (upload_success_records_then_deletes _ 0
              (set_status uploading Samples.assetA)
              {| cid := JString "bafy-cid"; nid := JString "bafy-nid" |}
              Samples.now H)
    as (md & persisted & _ & _ & _ & Hh & Hrec & _ & _ & _ & _ & Habs).
  destruct (Hrec _ Hst) as (recorded & H1 & H2 & H3 & _).
  split; [|exact Habs].
  exists persisted, recorded. split; [exact H1|]. split; [exact H2|].
  split; [exact H3|]. exact Hh.
Defined.

(** *** C7: restoring the queue *)

Lemma resolved_ids (db : gmap string Asset) (ids : list string) :
  keyed db →
  map id (omap (fun k => getAsset k db) ids)
  = filter (fun k => is_Some (db !! k)) ids.
Proof.
  intros Hk. unfold getAsset. induction ids as [|k ids IH]; [done|].
  rewrite filter_cons. simpl. destruct (db !! k) as [a|] eqn:E.
  - rewrite decide_True by eauto. simpl. f_equal; [by apply Hk | exact IH].
  - rewrite decide_False by (by intros [? ?]). exact IH.
Qed.



(** *** C4: the persisted list and the queue *)

Lemma processQueue_idempotent (s : State) :
  processQueue (processQueue s) = processQueue s.
Proof.
  destruct (isUploading s) eqn:Hu;
    [by rewrite !(processQueue_noop s) by auto|].
  destruct (isPaused s) eqn:Hp;
    [by rewrite !(processQueue_noop s) by auto|].
  destruct (uploadQueue s) as [|a rest] eqn:Hq;
    [by rewrite !(processQueue_noop s) by auto|].
  apply processQueue_noop. left. apply processQueue_busy; [done|].
  by rewrite Hq.
Qed.

Lemma unpause_then_process (m : bool) (s : State) :
  processQueue (maybeUnpauseForManualRetry m s) = processQueue s
  ∨ processQueue (maybeUnpauseForManualRetry m s)
    = processQueue (set_isPaused false s).
Proof.
  unfold maybeUnpauseForManualRetry, setPaused.
  destruct (m && isPaused s); [right | by left].
  apply processQueue_idempotent.
Qed.

(** Right after the list was saved, starting the next upload is all that
    can set the two apart. *)
Lemma processQueue_after_save (s : State) :
  durableIds s = queueIds s → durableListTracksQueue (processQueue s).
Proof.
  intros H. unfold durableListTracksQueue.
  destruct (isUploading s) eqn:Hu; [left; by rewrite processQueue_noop by auto|].
  destruct (isPaused s) eqn:Hp; [left; by rewrite processQueue_noop by auto|].
  destruct (uploadQueue s) as [|a rest] eqn:Hq;
    [left; by rewrite processQueue_noop by auto|].
  right. rewrite (processQueue_start s a rest) by done.
  unfold uploadAsset_post, durableIds, queueIds in *. simpl.
  eexists. split; [apply last_snoc|]. split; [done|].
  simpl. by rewrite H, Hq.
Qed.




(** *** First in, first out, one at a time *)

Ltac history :=
  unfold startedIds, uploadedIds, queueIds; simpl;
  rewrite ?omap_app; simpl; rewrite ?app_nil_r.

(** What [processQueue] does to the observations. *)
Lemma processQueue_obs (s : State) :
  let s' := processQueue s in
  enqueued s' = enqueued s ∧ isPaused s' = isPaused s
  ∧ uploadedIds s' = uploadedIds s
  ∧ ((s' = s
      ∧ (isUploading s = true ∨ isPaused s = true ∨ uploadQueue s = []))
     ∨ ∃ a rest a',
         uploadQueue s = a :: rest ∧ isUploading s = false
         ∧ isPaused s = false
         ∧ uploadQueue s' = rest ∧ isUploading s' = true
         ∧ inFlight s' = inFlight s ++ [a'] ∧ id a' = id a
         ∧ startedIds s' = startedIds s ++ [id a]).
Proof.
  simpl.
  destruct (isUploading s) eqn:Hu;
    [rewrite processQueue_noop by auto; repeat split; auto|].
  destruct (isPaused s) eqn:Hp;
    [rewrite processQueue_noop by auto; repeat split; auto|].
  destruct (uploadQueue s) as [|a rest] eqn:Hq;
    [rewrite processQueue_noop by auto; repeat split; auto|].
  rewrite (processQueue_start s a rest) by done.
  unfold uploadAsset_post. simpl. repeat split; try done.
  - by history.
  - right. eexists a, rest, _. repeat split; try done. by history.
Qed.

Lemma processQueue_oneAtATime (s : State) :
  oneAtATime s → oneAtATime (processQueue s).
Proof.
  intros [Hl Hb].
  destruct (processQueue_obs s) as (_ & _ & _ & [[-> _] | H]); [done|].
  destruct H as (a & rest & a' & _ & Hu & _ & _ & Hu' & Hf & _).
  assert (Hnil : inFlight s = []).
  { destruct (inFlight s) as [|x l] eqn:E; [done|].
    assert (isUploading s = true) by (by apply Hb). congruence. }
  unfold oneAtATime. rewrite Hf, Hu', Hnil. simpl. split; [lia | done].
Qed.

Lemma processQueue_fifo (s : State) : fifo s → fifo (processQueue s).
Proof.
  unfold fifo. intros H.
  destruct (processQueue_obs s) as (He & _ & _ & [[-> _] | H']); [done|].
  destruct H' as (a & rest & a' & Hq & _ & _ & Hq' & _ & _ & _ & Hs).
  rewrite He, Hs, <- H. unfold queueIds. rewrite Hq, Hq'. simpl.
  by rewrite <- app_assoc.
Qed.

Lemma processQueue_flowing (s : State) :
  uploadedIds s ++ map id (inFlight s) = startedIds s →
  isPaused s = false →
  flowing (processQueue s).
Proof.
  intros H Hp. unfold flowing.
  destruct (processQueue_obs s) as (_ & Hp' & Hup & Hcase).
  rewrite Hp', Hup, Hp. destruct Hcase as [[-> Hc] | H'].
  - repeat split; try done. intros Hu.
    destruct Hc as [Hc | [Hc | Hc]]; [congruence | congruence | done].
  - destruct H' as (a & rest & a' & _ & _ & _ & _ & Hu' & Hf & Hid & Hs).
    rewrite Hf, Hs, Hu', map_app, app_assoc, H. simpl. rewrite Hid.
    repeat split; done.
Qed.

(** What the enqueue loop does to the queue and to the history. *)
Lemma pushEach_appends (assets : list Asset) (n : nat) (s : State) :
  ∃ added,
    uploadQueue (pushEach assets n s).2 = uploadQueue s ++ added
    ∧ enqueued (pushEach assets n s).2 = enqueued s ++ map id added.
Proof.
  revert n s. induction assets as [|a l IH]; intros n s; simpl.
  - exists []. by rewrite !app_nil_r.
  - destruct (inQueue (id a) (uploadQueue s)); [apply IH|].
    destruct (IH (S n) (push a s)) as (added & H1 & H2).
    exists (a :: added). rewrite H1, H2. simpl.
    by rewrite <- !app_assoc.
Qed.

Lemma pushEach_none_added (assets : list Asset) (n : nat) (s : State) :
  (pushEach assets n s).1 = n → (pushEach assets n s).2 = s.
Proof.
  intros H.
  destruct (decide (Forall (fun a => id a ∈ queueIds s) assets)) as [Hall|Hn].
  - by rewrite pushEach_all_present.
  - apply not_Forall_Exists in Hn; [|intros a; apply _].
    pose proof (pushEach_spec assets n s) as (_&_&_&_&_&_&_&_&Hex).
    specialize (Hex Hn). lia.
Qed.

(** Every operation is a run of quiet changes that ends, at most, with
    [processQueue]: a quiet change keeps the requests in flight, the busy
    flag and the record of what happened. *)
Lemma unpause_process_oneAtATime (m : bool) (s : State) :
  oneAtATime s → oneAtATime (processQueue (maybeUnpauseForManualRetry m s)).
Proof.
  intros H. destruct (unpause_then_process m s) as [-> | ->];
    by apply processQueue_oneAtATime.
Qed.

Lemma addMultipleToQueue_oneAtATime (assets : list Asset) (m : bool)
  (s : State) :
  oneAtATime s → oneAtATime (addMultipleToQueue assets m s).
Proof.
  intros H. unfold addMultipleToQueue.
  pose proof (pushEach_spec assets 0 s) as (_&Hu&_&_&Hf&_).
  destruct (pushEach assets 0 s) as [n s1]. simpl in *.
  assert (H1 : oneAtATime s1) by (unfold oneAtATime; by rewrite Hu, Hf).
  destruct (0 <? n)%nat; [|done].
  by apply unpause_process_oneAtATime.
Qed.

Lemma step_oneAtATime (s : State) (e : Event) :
  oneAtATime s → oneAtATime (step s e).
Proof.
  intros H. destruct e as [asset m|assets m|k|b| |i now r]; simpl.
  - unfold addToQueue. destruct (inQueue (id asset) (uploadQueue s)); [done|].
    by apply unpause_process_oneAtATime.
  - by apply addMultipleToQueue_oneAtATime.
  - done.
  - unfold setPaused. destruct b; [done|]. by apply processQueue_oneAtATime.
  - unfold retryFailedUploads.
    destruct (0 <? _)%nat; [|done]. by apply addMultipleToQueue_oneAtATime.
  - unfold processQueue_resume.
    destruct (inFlight s !! i) as [asset|] eqn:Hi; [|done].
    apply processQueue_oneAtATime. destruct H as [Hl _].
    assert (Hnil : delete i (inFlight s) = []).
    { destruct (inFlight s) as [|x [|y l]]; simpl in *; try done; [|lia].
      destruct i; [done | by destruct i]. }
    unfold oneAtATime.
    destruct r as [result|err]; simpl.
    + rewrite Hnil. simpl. split; [lia | done].
    + unfold handleUploadError.
      destruct (isInsufficientBalanceError err); simpl;
        rewrite Hnil; simpl; (split; [lia | done]).
Qed.

Lemma create_oneAtATime (ms : StorageService.Storage) (db : gmap string Asset) :
  oneAtATime (create ms db).
Proof.
  unfold create, restoreQueue.
  destruct (0 <? _)%nat; [apply processQueue_oneAtATime|];
    (split; simpl; [lia | done]).
Qed.

Lemma run_oneAtATime (events : list Event) (s : State) :
  oneAtATime s → oneAtATime (run events s).
Proof.
  revert s. induction events as [|e l IH]; intros s H; [done|].
  simpl. apply IH. by apply step_oneAtATime.
Qed.

Lemma unpause_process_fifo (m : bool) (s : State) :
  fifo s → fifo (processQueue (maybeUnpauseForManualRetry m s)).
Proof.
  intros H. destruct (unpause_then_process m s) as [-> | ->];
    by apply processQueue_fifo.
Qed.

Lemma addMultipleToQueue_fifo (assets : list Asset) (m : bool) (s : State) :
  fifo s → fifo (addMultipleToQueue assets m s).
Proof.
  intros H. unfold addMultipleToQueue.
  pose proof (pushEach_spec assets 0 s) as (_&_&_&_&_&He&_).
  destruct (pushEach_appends assets 0 s) as (added & Hq & Hn).
  destruct (pushEach assets 0 s) as [n s1]. simpl in *.
  assert (H1 : fifo s1).
  { unfold fifo, startedIds, queueIds in *.
    rewrite He, Hq, Hn, <- H, map_app. by rewrite <- app_assoc. }
  destruct (0 <? n)%nat; [|done].
  apply unpause_process_fifo. unfold fifo in *. history. exact H1.
Qed.

Lemma resume_fifo (i : nat) (now : string) (r : Response) (s : State) :
  fifo s → fifo (processQueue_resume i now r s).
Proof.
  intros H. unfold processQueue_resume.
  destruct (inFlight s !! i) as [asset|]; [|done].
  apply processQueue_fifo. unfold fifo in *.
  destruct r as [result|err].
  - history. exact H.
  - unfold handleUploadError.
    destruct (isInsufficientBalanceError err); history; exact H.
Qed.

Lemma step_fifo (s : State) (e : Event) :
  keepsQueue e → fifo s → fifo (step s e).
Proof.
  intros He H. destruct e as [asset m|assets m|k|b| |i now r]; simpl.
  - unfold addToQueue. destruct (inQueue (id asset) (uploadQueue s)); [done|].
    apply unpause_process_fifo. unfold fifo, startedIds, queueIds in *.
    simpl. rewrite omap_app, map_app. simpl.
    by rewrite app_nil_r, app_assoc, H.
  - by apply addMultipleToQueue_fifo.
  - done.
  - unfold setPaused. destruct b; [done|]. by apply processQueue_fifo.
  - unfold retryFailedUploads.
    destruct (0 <? _)%nat; [|done]. by apply addMultipleToQueue_fifo.
  - by apply resume_fifo.
Qed.

Lemma create_fifo (ms : StorageService.Storage) (db : gmap string Asset) :
  fifo (create ms db).
Proof.
  unfold create, restoreQueue.
  destruct (0 <? _)%nat; [apply processQueue_fifo|]; done.
Qed.

Lemma run_fifo (events : list Event) (s : State) :
  Forall keepsQueue events → fifo s → fifo (run events s).
Proof.
  intros Hall. revert s. induction Hall as [|e l He _ IH]; intros s H; [done|].
  simpl. apply IH. by apply step_fifo.
Qed.

Lemma unpause_process_flowing (m : bool) (s : State) :
  uploadedIds s ++ map id (inFlight s) = startedIds s →
  isPaused s = false →
  flowing (processQueue (maybeUnpauseForManualRetry m s)).
Proof.
  intros H Hp. destruct (unpause_then_process m s) as [-> | ->];
    by apply processQueue_flowing.
Qed.

Lemma addMultipleToQueue_flowing (assets : list Asset) (m : bool) (s : State) :
  flowing s → flowing (addMultipleToQueue assets m s).
Proof.
  intros (H & Hp & Hq). unfold addMultipleToQueue.
  pose proof (pushEach_spec assets 0 s) as (Hp'&_&_&_&Hf&He&_).
  pose proof (pushEach_none_added assets 0 s) as Hnone.
  destruct (pushEach assets 0 s) as [n s1]. simpl in *.
  destruct (0 <? n)%nat eqn:E.
  - apply unpause_process_flowing; [|simpl; congruence].
    unfold uploadedIds, startedIds in *. simpl. rewrite !omap_app. simpl.
    rewrite !app_nil_r. by rewrite He, Hf.
  - apply Nat.ltb_ge in E. rewrite Hnone by lia. done.
Qed.

Lemma in_flight_alone (i : nat) (asset : Asset) (s : State) :
  oneAtATime s → inFlight s !! i = Some asset →
  inFlight s = [asset] ∧ delete i (inFlight s) = [].
Proof.
  intros [Hl _] Hi. destruct (inFlight s) as [|x [|y l]]; simpl in *;
    [done| |lia].
  destruct i; simpl in Hi; [by injection Hi as -> | by destruct i].
Qed.

Lemma step_flowing (s : State) (e : Event) :
  succeeds e → oneAtATime s → flowing s → flowing (step s e).
Proof.
  intros He Hone Hfl. pose proof Hfl as (H & Hp & Hq).
  destruct e as [asset m|assets m|k|b| |i now r]; simpl in *; try done.
  - unfold addToQueue. destruct (inQueue (id asset) (uploadQueue s)); [done|].
    apply unpause_process_flowing; [|done]. history. exact H.
  - by apply addMultipleToQueue_flowing.
  - subst b. unfold setPaused. by apply processQueue_flowing.
  - unfold retryFailedUploads.
    destruct (0 <? _)%nat; [|done]. by apply addMultipleToQueue_flowing.
  - destruct r as [result|err]; [|done]. unfold processQueue_resume.
    destruct (inFlight s !! i) as [asset|] eqn:Hi; [|done].
    destruct (in_flight_alone i asset s Hone Hi) as [Hf Hd].
    apply processQueue_flowing; [|done].
    rewrite Hf in H. simpl in H. history. rewrite Hd. simpl.
    rewrite app_nil_r. exact H.
Qed.

Lemma create_flowing (ms : StorageService.Storage) (db : gmap string Asset) :
  flowing (create ms db).
Proof.
  unfold create, restoreQueue.
  destruct (0 <? _)%nat; [by apply processQueue_flowing | done].
Qed.

Lemma run_flowing (events : list Event) (s : State) :
  Forall succeeds events → oneAtATime s → flowing s →
  flowing (run events s).
Proof.
  intros Hall. revert s.
  induction Hall as [|e l He _ IH]; intros s H1 H2; [done|].
  simpl. apply IH; [by apply step_oneAtATime | by apply step_flowing].
Qed.

Lemma resume_enqueued (i : nat) (now : string) (r : Response) (s : State) :
  enqueued (processQueue_resume i now r s) = enqueued s.
Proof.
  unfold processQueue_resume. destruct (inFlight s !! i) as [asset|]; [|done].
  destruct (processQueue_obs
              (set_isUploading false
                 (saveQueue
                    match r with
                    | Resolved result =>
                        handleUploadSuccess asset result now
                          (set_inFlight (delete i (inFlight s)) s)
                    | Rejected err =>
                        handleUploadError asset err
                          (set_inFlight (delete i (inFlight s)) s)
                    end))) as (-> & _).
  destruct r as [result|err]; [done|].
  unfold handleUploadError. by destruct (isInsufficientBalanceError err).
Qed.

Lemma run_cons (e : Event) (events : list Event) (s : State) :
  run (e :: events) s = run events (step s e).
Proof. reflexivity. Qed.

Lemma resume_success_length (now : string) (result : ApiResult)
  (asset : Asset) (s : State) :
  inFlight s = [asset] → isPaused s = false →
  length (inFlight (processQueue_resume 0 now (Resolved result) s)
          ++ uploadQueue (processQueue_resume 0 now (Resolved result) s))
  = length (uploadQueue s).
Proof.
  intros Hf Hp. unfold processQueue_resume. rewrite Hf.
  change ([asset] !! 0%nat) with (Some asset). cbv iota beta.
  set (t := set_isUploading false _).
  assert (Hu : isUploading t = false) by reflexivity.
  assert (Hp' : isPaused t = false) by exact Hp.
  assert (Hn : inFlight t = []) by reflexivity.
  assert (Hq : queueIds t = queueIds s) by reflexivity.
  clearbody t.
  pose proof (processQueue_from_rest t Hu Hp' Hn) as (Hids & _).
  apply (f_equal length) in Hids. rewrite Hq in Hids. unfold queueIds in Hids.
  rewrite length_app, !length_map in Hids.
  by rewrite length_app.
Qed.

(** With no failures, as many successful answers as there are assets in
    flight or queued bring every enqueued asset to [uploaded], in the order
    of the enqueues, and leave the engine at rest. *)
Lemma drains (answers : list (string * ApiResult)) (s : State) :
  oneAtATime s → fifo s → flowing s →
  length answers = length (inFlight s ++ uploadQueue s) →
  uploadedIds (run (successes answers) s) = enqueued s
  ∧ enqueued (run (successes answers) s) = enqueued s
  ∧ uploadQueue (run (successes answers) s) = []
  ∧ inFlight (run (successes answers) s) = []
  ∧ isUploading (run (successes answers) s) = false.
Proof.
  revert s. induction answers as [|[now result] l IH]; intros s H1 H2 H3 Hlen.
  - simpl in Hlen. symmetry in Hlen. apply length_zero_iff_nil in Hlen.
    apply app_eq_nil in Hlen as [Hf Hq].
    destruct H3 as (H3 & _ & _). unfold fifo, queueIds in H2.
    rewrite Hf in H3. rewrite Hq in H2. simpl in H2, H3.
    rewrite app_nil_r in H2, H3.
    change (run (successes []) s) with s.
    repeat split; try congruence.
    destruct H1 as [_ Hb]. destruct (isUploading s); [|done].
    by destruct (proj1 Hb eq_refl).
  - assert (Hf : ∃ asset, inFlight s = [asset]).
    { destruct (inFlight s) as [|x [|y t]] eqn:E.
      - destruct H3 as (_ & _ & Hq). destruct H1 as [_ Hb].
        rewrite Hq in Hlen; [done|].
        destruct (isUploading s); [|done]. by destruct (proj1 Hb eq_refl).
      - by exists x.
      - destruct H1 as [Hl _]. rewrite E in Hl. simpl in Hl. lia. }
    destruct Hf as [asset Hf].
    change (successes ((now, result) :: l))
      with (Answer 0 now (Resolved result) :: successes l).
    rewrite run_cons.
    set (e := Answer 0 now (Resolved result)) in *.
    assert (Hs : succeeds e) by exact I.
    assert (Hk : keepsQueue e) by exact I.
    pose proof (resume_success_length now result asset s Hf (proj1 (proj2 H3)))
      as Hlen'.
    pose proof (resume_enqueued 0 now (Resolved result) s) as He.
    change (processQueue_resume 0 now (Resolved result) s)
      with (step s e) in Hlen', He.
    pose proof (step_oneAtATime s e H1) as H1'.
    pose proof (step_fifo s e Hk H2) as H2'.
    pose proof (step_flowing s e Hs H1 H3) as H3'.
    clearbody e. generalize dependent (step s e). intros s1 **.
    destruct (IH s1 H1' H2' H3') as (Ha & Hb & Hc).
    { rewrite Hlen'. rewrite Hf, length_app in Hlen. simpl in Hlen. lia. }
    rewrite Ha, Hb, He. split; [reflexivity|]. split; [reflexivity|]. exact Hc.
Qed.

Lemma succeeds_keepsQueue (events : list Event) :
  Forall succeeds events → Forall keepsQueue events.
Proof.
  induction 1 as [|e l He _ IH]; constructor; [by destruct e | exact IH].
Qed.

(** The order of the uploads of an engine whose restoration has run to
    its end before the first call ([create]), whatever it is asked and
    answered after that: at most one upload is in flight at any time.  As long as nobody removes
    an asset from the queue, the uploads started so far followed by the
    queue are the enqueued assets in the order of their enqueue: uploads
    start first in, first out.  In a run with no failures the assets
    recorded as [uploaded], then the one in flight, then the queue, are the
    enqueued assets in that order, and once every pending request has been
    answered every enqueued asset has been recorded as [uploaded], in
    exactly the order of the enqueues. *)
Theorem uploads_are_fifo (ms : StorageService.Storage)
  (db : gmap string Asset) (events : list Event) :
  let s := run events (create ms db) in
  (length (inFlight s) ≤ 1)%nat
  ∧ (Forall keepsQueue events → startedIds s ++ queueIds s = enqueued s)
  ∧ (Forall succeeds events →
       uploadedIds s ++ map id (inFlight s) ++ queueIds s = enqueued s
       ∧ ∀ answers,
           length answers = length (inFlight s ++ uploadQueue s) →
           uploadedIds (run (successes answers) s) = enqueued s
           ∧ uploadQueue (run (successes answers) s) = []
           ∧ inFlight (run (successes answers) s) = []
           ∧ isUploading (run (successes answers) s) = false).
Proof.
  cbv zeta.
  pose proof (run_oneAtATime events _ (create_oneAtATime ms db)) as H1.
  split; [apply H1|]. split.
  - intros Hk. apply (run_fifo events _ Hk (create_fifo ms db)).
  - intros Hs.
    pose proof (run_fifo events _ (succeeds_keepsQueue _ Hs)
                  (create_fifo ms db)) as H2.
    pose proof (run_flowing events _ Hs (create_oneAtATime ms db)
                  (create_flowing ms db)) as H3.
    split.
    + destruct H3 as (H3 & _). unfold fifo in H2.
      by rewrite app_assoc, H3.
    + intros answers Hlen.
      destruct (drains answers _ H1 H2 H3 Hlen) as (Ha & _ & Hq & Hf & Hu).
      done.
Qed.

Lemma uploads_are_fifo_witness :
  Forall succeeds Samples.cleanRun
  ∧ length Samples.twoAnswers
    = length (inFlight (run Samples.cleanRun Samples.fresh)
              ++ uploadQueue (run Samples.cleanRun Samples.fresh))
  ∧ uploadedIds (run (successes Samples.twoAnswers)
                   (run Samples.cleanRun Samples.fresh))
    = enqueued (run Samples.cleanRun Samples.fresh).
Proof.
  assert (Hs : Forall succeeds Samples.cleanRun)
    by (unfold Samples.cleanRun; repeat constructor).
  assert (Hl : length Samples.twoAnswers
               = length (inFlight (run Samples.cleanRun Samples.fresh)
                         ++ uploadQueue (run Samples.cleanRun Samples.fresh)))
    by (vm_compute; reflexivity).
  split; [exact Hs|]. split; [exact Hl|].
  destruct (uploads_are_fifo StorageService.emptyStorage Samples.blobs
              Samples.cleanRun) as (_ & _ & H).
  destruct (H Hs) as (_ & Hd).
  exact (proj1 (Hd Samples.twoAnswers Hl)).
Defined.

(** A enqueued, then B, B and C in a batch, then B again: the uploads start
    and complete in the order A, B, C, and the queue ends empty. *)
Example fifo_run :
  let s := run (Samples.cleanRun ++ successes Samples.twoAnswers)
             Samples.fresh in
  enqueued s = ["a"; "b"; "c"]
  ∧ startedIds s = ["a"; "b"; "c"]
  ∧ uploadedIds s = ["a"; "b"; "c"]
  ∧ getQueueStatus s = (0%nat, false, false)
  ∧ durableIds s = []
  ∧ assetStorage s = ∅.
Proof. vm_compute. done. Qed.

(** An ordinary failure does not stop the queue: the next asset starts. *)
Example ordinary_failure_continues :
  let s := run [AddToQueue Samples.assetA false;
                AddToQueue Samples.assetB false;
                Answer 0 Samples.now Samples.unreachable] Samples.fresh in
  status <$> assetStorage s !! "a" = Some failed
  ∧ isPaused s = false
  ∧ map id (inFlight s) = ["b"]
  ∧ startedIds s = ["a"; "b"].
Proof. vm_compute. done. Qed.

End UploadFacts.

(** ** The signed-metadata document *)

Module MetadataFacts.
Import Js IndexedDBService UploadService.

Ltac not_listed :=
  let H := fresh in
  intros H;
  repeat (apply elem_of_cons in H as [H|H]; [discriminate|]);
  by apply elem_of_nil in H.

Ltac listed :=
  repeat (first [ apply list_elem_of_here | apply list_elem_of_further ]).

Lemma createSignedMetadata_fields (a a' : Asset) :
  createdAt a' = createdAt a → position a' = position a →
  sourceWebsite a' = sourceWebsite a →
  signedMetadataObject a' = signedMetadataObject a.
Proof.
  unfold signedMetadataObject, position. intros -> Hp ->.
  destruct (gpsLocation a') as [g'|], (gpsLocation a) as [g|];
    simpl in Hp; try discriminate; [|done].
  injection Hp as -> ->. done.
Qed.

(** C8.  The document is a function of the capture timestamp, of the
    latitude and longitude when the asset has a position, and of the page
    address and title when it has a source page: two assets that agree on
    these give the same text, byte for byte.  The text is a JSON object
    whose keys come in strictly increasing order; it always has the
    version marker, the recorder and the capture timestamp, has the two
    location keys exactly when the asset has a position, and the two
    source-page keys exactly when it has a source page. *)
Theorem signed_metadata_is_canonical (a a' : Asset) :
  createdAt a' = createdAt a → position a' = position a →
  sourceWebsite a' = sourceWebsite a →
  createSignedMetadata a' = createSignedMetadata a
  ∧ ∃ entries,
      createSignedMetadata a = document entries
      ∧ StronglySorted before (map fst entries)
      ∧ ("spec_version", quote "2.0.0") ∈ entries
      ∧ ("recorder", quote "ProofSnap Browser Extension") ∈ entries
      ∧ ("created_at", Number_toString (createdAt a)) ∈ entries
      ∧ (match gpsLocation a with
         | Some g =>
             ("location_latitude", Number_toString (latitude g)) ∈ entries
             ∧ ("location_longitude", Number_toString (longitude g)) ∈ entries
         | None =>
             ("location_latitude" ∉ map fst entries)
             ∧ ("location_longitude" ∉ map fst entries)
         end)
      ∧ (match sourceWebsite a with
         | Some w =>
             ("web_source_url", quote (url w)) ∈ entries
             ∧ ("web_source_title", quote (title w)) ∈ entries
         | None =>
             ("web_source_url" ∉ map fst entries)
             ∧ ("web_source_title" ∉ map fst entries)
         end).
Proof.
  intros Hc Hp Hw. split.
  { unfold createSignedMetadata.
    by rewrite (createSignedMetadata_fields a a'). }
  clear. unfold createSignedMetadata, signedMetadataObject.
  destruct (gpsLocation a) as [g|], (sourceWebsite a) as [w|].
  - exists [ ("created_at", Number_toString (createdAt a));
             ("location_latitude", Number_toString (latitude g));
             ("location_longitude", Number_toString (longitude g));
             ("recorder", quote "ProofSnap Browser Extension");
             ("spec_version", quote "2.0.0");
             ("web_source_title", quote (title w));
             ("web_source_url", quote (url w)) ].
    split; [reflexivity|].
    split; [repeat constructor|].
    repeat split; listed.
  - exists [ ("created_at", Number_toString (createdAt a));
             ("location_latitude", Number_toString (latitude g));
             ("location_longitude", Number_toString (longitude g));
             ("recorder", quote "ProofSnap Browser Extension");
             ("spec_version", quote "2.0.0") ].
    split; [reflexivity|].
    split; [repeat constructor|].
    repeat split; first [ by listed | not_listed ].
  - exists [ ("created_at", Number_toString (createdAt a));
             ("recorder", quote "ProofSnap Browser Extension");
             ("spec_version", quote "2.0.0");
             ("web_source_title", quote (title w));
             ("web_source_url", quote (url w)) ].
    split; [reflexivity|].
    split; [repeat constructor|].
    repeat split; first [ by listed | not_listed ].
  - exists [ ("created_at", Number_toString (createdAt a));
             ("recorder", quote "ProofSnap Browser Extension");
             ("spec_version", quote "2.0.0") ].
    split; [reflexivity|].
    split; [repeat constructor|].
    repeat split; first [ by listed | not_listed ].
Qed.

Lemma signed_metadata_is_canonical_witness :
  createdAt Samples.assetG' = createdAt Samples.assetG
  ∧ position Samples.assetG' = position Samples.assetG
  ∧ sourceWebsite Samples.assetG' = sourceWebsite Samples.assetG
  ∧ createSignedMetadata Samples.assetG' = createSignedMetadata Samples.assetG.
Proof.
  split; [reflexivity|]. split; [reflexivity|]. split; [reflexivity|].
  exact (proj1 (signed_metadata_is_canonical Samples.assetG Samples.assetG'
                  eq_refl eq_refl eq_refl)).
Defined.

(** The document of a capture with a position and a source page. *)
Example signed_metadata_of_a_page :
  createSignedMetadata Samples.assetG =
  "{" +:+ nl +:+
  "  " +:+ quote "created_at" +:+ ": 1700000000000," +:+ nl +:+
  "  " +:+ quote "location_latitude" +:+ ": 37.7749," +:+ nl +:+
  "  " +:+ quote "location_longitude" +:+ ": -122.4194," +:+ nl +:+
  "  " +:+ quote "recorder" +:+ ": "
         +:+ quote "ProofSnap Browser Extension" +:+ "," +:+ nl +:+
  "  " +:+ quote "spec_version" +:+ ": " +:+ quote "2.0.0" +:+ "," +:+ nl +:+
  "  " +:+ quote "web_source_title" +:+ ": "
         +:+ quote "An example" +:+ "," +:+ nl +:+
  "  " +:+ quote "web_source_url" +:+ ": "
         +:+ quote "https://example.org/a?b=1" +:+ nl +:+
  "}".
Proof. vm_compute. reflexivity. Qed.

(** Parsing the document gives back the keys in the order they were
    written. *)
Example signed_metadata_parses_back :
  (fun v => map fst (ownProps v))
    <$> JSON_parse (createSignedMetadata Samples.assetG)
  = Some [ "created_at"; "location_latitude"; "location_longitude";
           "recorder"; "spec_version"; "web_source_title"; "web_source_url" ].
Proof. vm_compute. reflexivity. Qed.

End MetadataFacts.

(** ** Region selection *)

Module CaptureFacts.
Import Js IndexedDBService SelectionOverlay ServiceWorker.

Lemma respond_cancelled_iff (st : Settlement) :
  respond st = ResponseCancelled ↔ ∃ reason, st = Resolve (CaptureCancelled reason).
Proof.
  split.
  - destruct st as [[reason|]|]; try discriminate. by exists reason.
  - by intros [reason ->].
Qed.

(** C10.  When a selection that is under way is completed with a width or
    a height below 10 pixels, the overlay reports a cancellation with the
    reason "Selection too small"; the worker resolves the waiting capture
    with that cancelled outcome, leaves the stores and the queue as they
    were (no asset is created), and the page that asked is answered with
    the cancelled response, which no error produces. *)
Theorem small_selection_is_cancelled (o : Overlay) (clientX clientY num : Z)
  (den : positive) (b : Browser) (w : Worker) :
  listening o = true → isSelecting o = true →
  Z.abs (clientX - startX o) < 10 ∨ Z.abs (clientY - startY o) < 10 →
  pendingSelection w = true →
  ∃ o' payload,
    handleMouseUp clientX clientY num den o = (o', Some payload)
    ∧ payload = Cancelled "Selection too small"
    ∧ settled (handleSelectionComplete b payload w)
      = settled w ++ [Resolve (CaptureCancelled "Selection too small")]
    ∧ services (handleSelectionComplete b payload w) = services w
    ∧ respond (Resolve (CaptureCancelled "Selection too small"))
      = ResponseCancelled
    ∧ ∀ message, respond (Reject message) ≠ ResponseCancelled.
Proof.
  intros Hl Hs Hsmall Hp. unfold handleMouseUp. rewrite Hl, Hs. simpl.
  assert (Hb : (Z.abs (clientX - startX o) <? 10)
               || (Z.abs (clientY - startY o) <? 10) = true).
  { apply orb_true_iff. rewrite !Z.ltb_lt. exact Hsmall. }
  rewrite Hb. eexists _, _. split; [reflexivity|]. split; [reflexivity|].
  unfold handleSelectionComplete, settle. rewrite Hp. simpl.
  repeat split. intros message H. discriminate.
Qed.

(** The scenario of a selection of width 5 and height 50. *)
Lemma small_selection_is_cancelled_witness :
  listening Samples.dragging = true
  ∧ isSelecting Samples.dragging = true
  ∧ Z.abs (105 - startX Samples.dragging) < 10
  ∧ pendingSelection Samples.waiting = true
  ∧ ∃ o' payload,
      handleMouseUp 105 150 2 1 Samples.dragging = (o', Some payload)
      ∧ payload = Cancelled "Selection too small"
      ∧ settled (handleSelectionComplete Samples.browser payload Samples.waiting)
        = [Resolve (CaptureCancelled "Selection too small")]
      ∧ services (handleSelectionComplete Samples.browser payload Samples.waiting)
        = Samples.fresh.
Proof.
  assert (H3 : Z.abs (105 - startX Samples.dragging) < 10)
    by (vm_compute; reflexivity).
  split; [reflexivity|]. split; [reflexivity|]. split; [exact H3|].
  split; [reflexivity|].
  destruct (small_selection_is_cancelled Samples.dragging 105 150 2 1
              Samples.browser Samples.waiting eq_refl eq_refl (or_introl H3)
              eq_refl) as (o' & payload & H & Hp & Hs & Hv & _).
  exists o', payload. exact (conj H (conj Hp (conj Hs Hv))).
Defined.

(** A selection that is large enough does create an asset, which the
    cancelled one does not. *)
Example large_selection_creates_asset :
  let w :=
    handleSelectionComplete Samples.browser
      (Selected {| x := 200; y := 200; width := 400; height := 300 |}
                {| x := 100; y := 100; width := 200; height := 150 |})
      Samples.waiting in
  settled w
  = [Resolve (Captured "screenshot_1700000000000_k3j9x0q2a"
                "data:image/png;base64,BBBB" Samples.now (JBool true))]
  ∧ status <$>
      UploadService.assetStorage (services w)
        !! "screenshot_1700000000000_k3j9x0q2a" = Some uploading
  ∧ UploadService.assetStorage
      (services (handleSelectionComplete Samples.browser
                   (Cancelled "Selection too small") Samples.waiting))
      !! "screenshot_1700000000000_k3j9x0q2a" = None.
Proof. vm_compute. done. Qed.

Example selection_scales_by_pixel_ratio :
  (handleMouseUp 300 250 3 2 Samples.dragging).2
  = Some (Selected {| x := 150; y := 150; width := 300; height := 225 |}
                   {| x := 100; y := 100; width := 200; height := 150 |}).
Proof. vm_compute. reflexivity. Qed.

End CaptureFacts.

(** ** The engine between the claims *)

Module EngineFacts.
Import Js IndexedDBService UploadService Engine JsFacts UploadFacts.

(** *** The queue never holds an id twice *)

Lemma processQueue_queue (s : State) :
  uploadQueue (processQueue s) = uploadQueue s
  ∨ ∃ a, uploadQueue s = a :: uploadQueue (processQueue s).
Proof.
  destruct (processQueue_obs s) as (_ & _ & _ & [[-> _] | H]); [by left|].
  destruct H as (a & rest & a' & Hq & _ & _ & Hq' & _). right.
  exists a. by rewrite Hq'.
Qed.

Lemma processQueue_NoDup (s : State) :
  NoDup (queueIds s) → NoDup (queueIds (processQueue s)).
Proof.
  unfold queueIds. destruct (processQueue_queue s) as [-> | [a ->]]; [done|].
  simpl. by intros [_ H]%NoDup_cons.
Qed.

Lemma unpause_process_NoDup (m : bool) (s : State) :
  NoDup (queueIds s) →
  NoDup (queueIds (processQueue (maybeUnpauseForManualRetry m s))).
Proof.
  intros H. destruct (unpause_then_process m s) as [-> | ->];
    by apply processQueue_NoDup.
Qed.

Lemma push_NoDup (a : Asset) (s : State) :
  id a ∉ queueIds s → NoDup (queueIds s) → NoDup (queueIds (push a s)).
Proof.
  intros Hn H. unfold queueIds in *. simpl. rewrite map_app. simpl.
  apply NoDup_app. split; [done|]. split; [|apply NoDup_singleton].
  intros x Hx Hx'. apply list_elem_of_singleton in Hx'. by subst.
Qed.

Lemma pushEach_NoDup (assets : list Asset) (n : nat) (s : State) :
  NoDup (queueIds s) → NoDup (queueIds (pushEach assets n s).2).
Proof.
  revert n s. induction assets as [|a l IH]; intros n s H; simpl; [done|].
  destruct (inQueue (id a) (uploadQueue s)) eqn:E; [by apply IH|].
  apply IH, push_NoDup; [|done]. by apply inQueue_false.
Qed.

Lemma addMultipleToQueue_NoDup (assets : list Asset) (m : bool) (s : State) :
  NoDup (queueIds s) → NoDup (queueIds (addMultipleToQueue assets m s)).
Proof.
  intros H. unfold addMultipleToQueue.
  pose proof (pushEach_NoDup assets 0 s H) as H1.
  destruct (pushEach assets 0 s) as [n s1]. simpl in H1.
  destruct (0 <? n)%nat; [|done]. by apply unpause_process_NoDup.
Qed.

Lemma filter_ids_NoDup (P : Asset → Prop) `{∀ a, Decision (P a)}
  (q : list Asset) :
  NoDup (map id q) → NoDup (map id (filter P q)).
Proof.
  induction q as [|a q IH]; [done|]. simpl. intros [Hn Hq]%NoDup_cons.
  rewrite filter_cons. destruct (decide (P a)); [|by apply IH].
  simpl. apply NoDup_cons. split; [|by apply IH].
  intros Hin. apply Hn. apply list_elem_of_fmap in Hin as (b & -> & Hb).
  apply list_elem_of_fmap. exists b. split; [done|].
  by apply list_elem_of_filter in Hb as [_ Hb].
Qed.

Lemma step_NoDup (s : State) (e : Event) :
  NoDup (queueIds s) → NoDup (queueIds (step s e)).
Proof.
  intros H. destruct e as [asset m|assets m|k|b| |i now r]; simpl.
  - unfold addToQueue.
    destruct (inQueue (id asset) (uploadQueue s)) eqn:E; [done|].
    apply unpause_process_NoDup.
    apply (push_NoDup asset s); [by apply inQueue_false | done].
  - by apply addMultipleToQueue_NoDup.
  - unfold removeFromQueue, queueIds. simpl. by apply filter_ids_NoDup.
  - unfold setPaused. destruct b; [done|]. by apply processQueue_NoDup.
  - unfold retryFailedUploads.
    destruct (0 <? _)%nat; [|done]. by apply addMultipleToQueue_NoDup.
  - unfold processQueue_resume.
    destruct (inFlight s !! i) as [asset|]; [|done].
    apply processQueue_NoDup. destruct r as [result|err]; [done|].
    unfold handleUploadError. by destruct (isInsufficientBalanceError err).
Qed.

(** *** The persisted list at every moment *)

Lemma processQueue_tracks (s : State) :
  durableListTracksQueue s → durableListTracksQueue (processQueue s).
Proof.
  intros H. destruct (isUploading s) eqn:Hu.
  - by rewrite processQueue_noop by auto.
  - destruct H as [H | (a & _ & Hb & _)]; [|congruence].
    by apply processQueue_after_save.
Qed.

Lemma addMultipleToQueue_tracks (assets : list Asset) (m : bool) (s : State) :
  durableListTracksQueue s →
  durableListTracksQueue (addMultipleToQueue assets m s).
Proof.
  intros H. unfold addMultipleToQueue.
  pose proof (pushEach_none_added assets 0 s) as Hnone.
  destruct (pushEach assets 0 s) as [n s1]. simpl in Hnone.
  destruct (0 <? n)%nat eqn:E.
  - destruct (unpause_then_process m (saveQueue s1)) as [-> | ->];
      by apply processQueue_after_save.
  - apply Nat.ltb_ge in E. rewrite Hnone by lia. done.
Qed.

Lemma step_tracks (s : State) (e : Event) :
  durableListTracksQueue s → durableListTracksQueue (step s e).
Proof.
  intros H. destruct e as [asset m|assets m|k|b| |i now r]; simpl.
  - unfold addToQueue.
    destruct (inQueue (id asset) (uploadQueue s)); [done|].
    destruct (unpause_then_process m (saveQueue (push asset s))) as [-> | ->];
      by apply processQueue_after_save.
  - by apply addMultipleToQueue_tracks.
  - by left.
  - unfold setPaused. destruct b; [done|]. by apply processQueue_tracks.
  - unfold retryFailedUploads.
    destruct (0 <? _)%nat; [|done]. by apply addMultipleToQueue_tracks.
  - unfold processQueue_resume.
    destruct (inFlight s !! i) as [asset|]; [|done].
    by apply processQueue_after_save.
Qed.

Lemma filter_all {A} (P : A → Prop) `{∀ x, Decision (P x)} (l : list A) :
  Forall P l → filter P l = l.
Proof.
  induction 1 as [|x l Hx _ IH]; [done|].
  by rewrite filter_cons, decide_True, IH by done.
Qed.

(** *** Enqueuing and pausing around an upload in flight *)

(** What an enqueue that adds comes to when no upload can start. *)
Lemma addToQueue_held (asset : Asset) (m : bool) (s : State) :
  id asset ∉ queueIds s →
  isUploading s = true ∨ (isPaused s = true ∧ m = false) →
  let s' := addToQueue asset m s in
  uploadQueue s' = uploadQueue s ++ [asset]
  ∧ inFlight s' = inFlight s
  ∧ isUploading s' = isUploading s
  ∧ durableIds s' = queueIds s ++ [id asset]
  ∧ startedIds s' = startedIds s
  ∧ assetStorage s' = assetStorage s
  ∧ (m = false → isPaused s' = isPaused s).
Proof.
  intros Hnew Hheld. cbv zeta. unfold addToQueue.
  apply inQueue_false in Hnew. rewrite Hnew.
  set (t := saveQueue (push asset s)).
  assert (Ht : processQueue (maybeUnpauseForManualRetry m t) = t
               ∨ processQueue (maybeUnpauseForManualRetry m t)
                 = set_isPaused false t ∧ m = true).
  { destruct Hheld as [Hu | [Hp ->]].
    - unfold maybeUnpauseForManualRetry, setPaused.
      destruct (m && isPaused t) eqn:E.
      + right. apply andb_true_iff in E as [-> _].
        rewrite !(processQueue_noop (set_isPaused false t)) by (by left).
        done.
      + left. apply processQueue_noop. by left.
    - left. unfold maybeUnpauseForManualRetry. simpl.
      apply processQueue_noop. right. by left. }
  destruct Ht as [-> | [-> ->]]; subst t.
  - repeat split; try done.
    + unfold durableIds, queueIds. simpl. by rewrite map_app.
    + unfold startedIds. simpl. rewrite omap_app. simpl. by rewrite app_nil_r.
  - repeat split; try done.
    + unfold durableIds, queueIds. simpl. by rewrite map_app.
    + unfold startedIds. simpl. rewrite omap_app. simpl. by rewrite app_nil_r.
Qed.

Lemma create_restored_ids (ms : StorageService.Storage)
  (db : gmap string Asset) :
  keyed db →
  map id (inFlight (create ms db)) ++ queueIds (create ms db)
  = filter (fun k => is_Some (db !! k)) (StorageService.getUploadQueueIds ms).
Proof.
  intros Hk. unfold create, restoreQueue. cbv zeta.
  change (metadataStorage (initial ms db)) with ms.
  change (assetStorage (initial ms db)) with db.
  destruct (StorageService.getUploadQueueIds ms) as [|k ids] eqn:E;
    [by rewrite filter_nil|].
  change (0 <? length (k :: ids))%nat with true. cbv iota.
  rewrite <- (resolved_ids db _ Hk).
  generalize (omap (fun k0 => getAsset k0 db) (k :: ids)). intros assets.
  by destruct (processQueue_from_rest (restored assets (initial ms db))
                 eq_refl eq_refl eq_refl) as (-> & _).
Qed.

(** X3.  An enqueue that adds while an upload is in flight rewrites the
    persisted list from the in-memory queue alone: the id of the asset in
    flight is no longer persisted, and an engine constructed from that
    storage (a restart before the upload ends) neither queues nor uploads
    that asset. *)
Theorem enqueue_during_upload_forgets_asset_in_flight (s : State)
  (asset busy : Asset) (m : bool) (db : gmap string Asset) :
  isUploading s = true → busy ∈ inFlight s →
  id asset ∉ queueIds s → id busy ∉ queueIds s → id busy ≠ id asset →
  keyed db →
  durableIds (addToQueue asset m s) = queueIds s ++ [id asset]
  ∧ busy ∈ inFlight (addToQueue asset m s)
  ∧ (id busy ∉ durableIds (addToQueue asset m s))
  ∧ id busy ∉
      (map id (inFlight (create (metadataStorage (addToQueue asset m s)) db))
       ++ queueIds (create (metadataStorage (addToQueue asset m s)) db)).
Proof.
  intros Hu Hb Hnew Hnb Hne Hk.
  destruct (addToQueue_held asset m s Hnew (or_introl Hu))
    as (_ & Hf & _ & Hd & _).
  assert (Hnot : id busy ∉ durableIds (addToQueue asset m s)).
  { rewrite Hd. intros [H | H]%elem_of_app; [done|].
    apply list_elem_of_singleton in H. done. }
  rewrite Hf. repeat split; try done.
  rewrite (create_restored_ids _ db Hk).
  intros [_ H]%list_elem_of_filter. exact (Hnot H).
Qed.

Lemma enqueue_during_upload_forgets_asset_in_flight_witness :
  isUploading (run [AddToQueue Samples.assetA false] Samples.fresh) = true
  ∧ id (set_status uploading Samples.assetA)
    ∉ durableIds (addToQueue Samples.assetB false
                    (run [AddToQueue Samples.assetA false] Samples.fresh)).
Proof.
  split; [reflexivity|].
  refine (proj1 (proj2 (proj2
            (enqueue_during_upload_forgets_asset_in_flight
               (run [AddToQueue Samples.assetA false] Samples.fresh)
               Samples.assetB (set_status uploading Samples.assetA) false
               Samples.blobs eq_refl _ _ _ _ _)))).
  - vm_compute. apply list_elem_of_here.
  - vm_compute. by intros H%elem_of_nil.
  - vm_compute. by intros H%elem_of_nil.
  - discriminate.
  - repeat apply keyed_setAsset; apply keyed_empty.
Defined.

(** X4.  While the engine is paused, an enqueue that is not a manual retry
    appends the asset and persists the list but starts nothing: the
    requests in flight, the busy flag, the pause and the blob store stay
    as they were. *)
Theorem paused_engine_queues_without_starting (s : State) (asset : Asset) :
  isPaused s = true → id asset ∉ queueIds s →
  uploadQueue (addToQueue asset false s) = uploadQueue s ++ [asset]
  ∧ durableIds (addToQueue asset false s) = queueIds s ++ [id asset]
  ∧ inFlight (addToQueue asset false s) = inFlight s
  ∧ isUploading (addToQueue asset false s) = isUploading s
  ∧ isPaused (addToQueue asset false s) = true
  ∧ startedIds (addToQueue asset false s) = startedIds s
  ∧ assetStorage (addToQueue asset false s) = assetStorage s.
Proof.
  intros Hp Hnew.
  destruct (addToQueue_held asset false s Hnew (or_intror (conj Hp eq_refl)))
    as (H1 & H2 & H3 & H4 & H5 & H6 & H7).
  rewrite (H7 eq_refl). done.
Qed.

Lemma paused_engine_queues_without_starting_witness :
  isPaused Samples.pausedWithA = true
  ∧ (id Samples.assetC ∉ queueIds Samples.pausedWithA)
  ∧ inFlight (addToQueue Samples.assetC false Samples.pausedWithA)
    = inFlight Samples.pausedWithA.
Proof.
  assert (Hn : id Samples.assetC ∉ queueIds Samples.pausedWithA).
  { vm_compute. intros H.
    apply elem_of_cons in H as [H|H]; [discriminate|].
    by apply elem_of_nil in H. }
  split; [reflexivity|]. split; [exact Hn|].
  exact (proj1 (proj2 (proj2
           (paused_engine_queues_without_starting Samples.pausedWithA
              Samples.assetC eq_refl Hn)))).
Defined.

(** *** What a drain step leaves behind when the upload fails *)

(** The state from which a drain step goes on after its request was
    answered and handled. *)
Lemma resume_shape (i : nat) (now : string) (r : Response) (asset : Asset)
  (s : State) :
  oneAtATime s → inFlight s !! i = Some asset →
  ∃ t, processQueue_resume i now r s = processQueue t
       ∧ isUploading t = false ∧ inFlight t = []
       ∧ uploadQueue t = uploadQueue s
       ∧ enqueued t = enqueued s
       ∧ startedIds t = startedIds s
       ∧ durableIds t = queueIds s
       ∧ isPaused t =
           match r with
           | Resolved _ => isPaused s
           | Rejected err => isInsufficientBalanceError err || isPaused s
           end
       ∧ uploadedIds t =
           match r with
           | Resolved _ => uploadedIds s ++ [id asset]
           | Rejected _ => uploadedIds s
           end.
Proof.
  intros Hone Hi. destruct (in_flight_alone i asset s Hone Hi) as [_ Hd].
  unfold processQueue_resume. rewrite Hi. eexists. split; [reflexivity|].
  destruct r as [result|err].
  - simpl. rewrite Hd. repeat split; try done.
    + unfold startedIds. simpl. rewrite !omap_app. simpl.
      by rewrite !app_nil_r.
    + unfold uploadedIds. simpl. rewrite !omap_app. simpl.
      by rewrite !app_nil_r.
  - unfold handleUploadError.
    destruct (isInsufficientBalanceError err); simpl; rewrite Hd;
      repeat split; try done;
      unfold startedIds, uploadedIds; simpl; rewrite !omap_app; simpl;
      by rewrite !app_nil_r.
Qed.

(** X5.  A failure that signals insufficient balance stops the draining
    and drops nothing: the engine is left paused and at rest, every queued
    asset is still queued and persisted, and no upload was started. *)
Theorem balance_failure_halts_draining (s : State) (i : nat) (now : string)
  (asset : Asset) (err : ApiError) :
  oneAtATime s → inFlight s !! i = Some asset →
  signalsInsufficientBalance err →
  isPaused (processQueue_resume i now (Rejected err) s) = true
  ∧ isUploading (processQueue_resume i now (Rejected err) s) = false
  ∧ inFlight (processQueue_resume i now (Rejected err) s) = []
  ∧ uploadQueue (processQueue_resume i now (Rejected err) s) = uploadQueue s
  ∧ durableIds (processQueue_resume i now (Rejected err) s) = queueIds s
  ∧ startedIds (processQueue_resume i now (Rejected err) s) = startedIds s.
Proof.
  intros Hone Hi Hsig. apply isInsufficientBalanceError_spec in Hsig.
  destruct (resume_shape i now (Rejected err) asset s Hone Hi)
    as (t & -> & Hu & Hf & Hq & _ & Hs & Hd & Hp & _).
  rewrite Hsig in Hp. simpl in Hp.
  rewrite (processQueue_noop t) by auto. done.
Qed.

(** X6.  A failure of any other kind does not hold the queue up: on an
    engine that is not paused the next queued asset is taken off the queue
    and its upload is started in the same step. *)
Theorem ordinary_failure_starts_next_upload (s : State) (i : nat)
  (now : string) (asset next : Asset) (rest : list Asset) (err : ApiError) :
  oneAtATime s → inFlight s !! i = Some asset →
  ¬ signalsInsufficientBalance err →
  isPaused s = false → uploadQueue s = next :: rest →
  uploadQueue (processQueue_resume i now (Rejected err) s) = rest
  ∧ isUploading (processQueue_resume i now (Rejected err) s) = true
  ∧ isPaused (processQueue_resume i now (Rejected err) s) = false
  ∧ startedIds (processQueue_resume i now (Rejected err) s)
    = startedIds s ++ [id next]
  ∧ ∃ a, inFlight (processQueue_resume i now (Rejected err) s) = [a]
         ∧ id a = id next ∧ status a = uploading.
Proof.
  intros Hone Hi Hsig Hp Hq. apply isInsufficientBalanceError_false in Hsig.
  destruct (resume_shape i now (Rejected err) asset s Hone Hi)
    as (t & -> & Hu & Hf & Hq' & _ & Hs & _ & Hp' & _).
  rewrite Hsig, Hp in Hp'. simpl in Hp'. rewrite Hq in Hq'.
  rewrite (processQueue_start t next rest) by done.
  unfold uploadAsset_post. simpl. rewrite Hf.
  split; [done|]. split; [done|]. split; [done|]. split.
  - unfold startedIds in *. simpl. rewrite !omap_app. simpl.
    by rewrite !app_nil_r, Hs.
  - eexists. split; [reflexivity|]. split; reflexivity.
Qed.


Lemma balance_failure_halts_draining_witness :
  isPaused
    (processQueue_resume 0 Samples.now Samples.insufficient
       (run [AddToQueue Samples.assetA false; AddToQueue Samples.assetB false]
            Samples.fresh)) = true.
Proof.
  refine (proj1 (balance_failure_halts_draining
            (run [AddToQueue Samples.assetA false;
                  AddToQueue Samples.assetB false] Samples.fresh)
            0 Samples.now (set_status uploading Samples.assetA)
            {| error_type := Some "asset_commit_insufficient_fund";
               message := Some "Payment required" |} _ _ _)).
  - split; [vm_compute; lia | by vm_compute].
  - vm_compute. reflexivity.
  - left. reflexivity.
Defined.

Lemma ordinary_failure_starts_next_upload_witness :
  uploadQueue
    (processQueue_resume 0 Samples.now Samples.unreachable
       (run [AddToQueue Samples.assetA false; AddToQueue Samples.assetB false;
             AddToQueue Samples.assetC false] Samples.fresh))
  = [Samples.assetC].
Proof.
  refine (proj1 (ordinary_failure_starts_next_upload
            (run [AddToQueue Samples.assetA false;
                  AddToQueue Samples.assetB false;
                  AddToQueue Samples.assetC false] Samples.fresh)
            0 Samples.now (set_status uploading Samples.assetA)
            Samples.assetB [Samples.assetC]
            {| error_type := None; message := Some "Network error" |}
            _ _ _ _ _)).
  - split; [vm_compute; lia | by vm_compute].
  - vm_compute. reflexivity.
  - intros H. apply isInsufficientBalanceError_spec in H. by vm_compute in H.
  - reflexivity.
  - reflexivity.
Defined.


(** *** The record of an asset across a failure and a retry *)

Lemma getProp_deleteProp (k k' : string) (props : list (string * JsValue)) :
  getProp k (deleteProp k' props)
  = if String.eqb k' k then None else getProp k props.
Proof.
  unfold deleteProp. induction props as [|[k0 v] r IH]; simpl.
  - by destruct (String.eqb k' k).
  - rewrite filter_cons. simpl. destruct (decide (k0 ≠ k')) as [Hn|He].
    + simpl. destruct (String.eqb k0 k) eqn:E; [|exact IH].
      apply String.eqb_eq in E. subst k0.
      destruct (String.eqb k' k) eqn:E'; [|done].
      apply String.eqb_eq in E'. congruence.
    + apply dec_stable in He. subst k0. rewrite IH.
      by destruct (String.eqb k' k).
Qed.

Lemma truthyProp_deleteProp (k : string) (props : list (string * JsValue)) :
  truthyProp k (deleteProp k props) = false.
Proof.
  unfold truthyProp. by rewrite getProp_deleteProp, String.eqb_refl.
Qed.

Lemma storeUpdate_lookup (k : string) (st : AssetStatus)
  (md : list (string * JsValue)) (stored : Asset) (s : State) :
  assetStorage s !! k = Some stored →
  assetStorage (storeUpdate k st md s) !! k
  = Some (set_metadata md (set_status st stored))
  ∧ ∀ k', k' ≠ k →
      assetStorage (storeUpdate k st md s) !! k' = assetStorage s !! k'.
Proof.
  intros Hst. unfold storeUpdate. simpl. unfold updateAsset. rewrite Hst.
  split; [by rewrite lookup_insert_eq|].
  intros k' Hne. by rewrite lookup_insert_ne.
Qed.

(** The asset and the record that [updateAssetStatusToUploading] leaves. *)
Lemma updateAssetStatusToUploading_record (asset stored : Asset)
  (s : State) :
  assetStorage s !! id asset = Some stored →
  let r := updateAssetStatusToUploading asset s in
  status r.1 = uploading
  ∧ truthyProp "error" (metadata r.1) = false
  ∧ truthyProp "errorType" (metadata r.1) = false
  ∧ assetStorage r.2 !! id asset
    = Some (set_metadata (metadata r.1) (set_status uploading stored)).
Proof.
  intros Hst. unfold updateAssetStatusToUploading. cbv zeta.
  set (md0 := metadata asset).
  set (md1 := if truthyProp "error" md0 then deleteProp "error" md0 else md0).
  set (md2 :=
         if truthyProp "errorType" md1 then deleteProp "errorType" md1
         else md1).
  assert (H1 : truthyProp "error" md1 = false).
  { unfold md1. destruct (truthyProp "error" md0) eqn:E; [|exact E].
    apply truthyProp_deleteProp. }
  simpl.
  destruct (storeUpdate_lookup (id asset) uploading md2 stored s Hst)
    as [Hl _].
  split; [done|]. split.
  { unfold md2. destruct (truthyProp "errorType" md1); [|exact H1].
    unfold truthyProp in *. by rewrite getProp_deleteProp. }
  split.
  { unfold md2. destruct (truthyProp "errorType" md1) eqn:E; [|exact E].
    apply truthyProp_deleteProp. }
  exact Hl.
Qed.

(** X8.  Starting an upload wipes the trace of an earlier failure: the
    asset that is posted, and the record written to the blob store, read
    [uploading] and carry no truthy [error] or [errorType]; every other
    metadata property, and every other stored record, is as it was. *)
Theorem start_of_upload_clears_failure_record (asset stored : Asset)
  (s : State) :
  assetStorage s !! id asset = Some stored →
  let r := updateAssetStatusToUploading asset s in
  status r.1 = uploading
  ∧ truthyProp "error" (metadata r.1) = false
  ∧ truthyProp "errorType" (metadata r.1) = false
  ∧ (∀ k, k ≠ "error" → k ≠ "errorType" →
       getProp k (metadata r.1) = getProp k (metadata asset))
  ∧ assetStorage r.2 !! id asset
    = Some (set_metadata (metadata r.1) (set_status uploading stored))
  ∧ (∀ k, k ≠ id asset → assetStorage r.2 !! k = assetStorage s !! k).
Proof.
  intros Hst. unfold updateAssetStatusToUploading. cbv zeta.
  set (md0 := metadata asset).
  set (md1 := if truthyProp "error" md0 then deleteProp "error" md0 else md0).
  set (md2 :=
         if truthyProp "errorType" md1 then deleteProp "errorType" md1
         else md1).
  assert (H1 : truthyProp "error" md1 = false).
  { unfold md1. destruct (truthyProp "error" md0) eqn:E; [|exact E].
    apply truthyProp_deleteProp. }
  assert (H2 : ∀ k, k ≠ "errorType" → getProp k md2 = getProp k md1).
  { intros k Hk. unfold md2. destruct (truthyProp "errorType" md1); [|done].
    rewrite getProp_deleteProp.
    destruct (String.eqb "errorType" k) eqn:E; [|done].
    apply String.eqb_eq in E. congruence. }
  assert (H3 : ∀ k, k ≠ "error" → getProp k md1 = getProp k md0).
  { intros k Hk. unfold md1. destruct (truthyProp "error" md0); [|done].
    rewrite getProp_deleteProp.
    destruct (String.eqb "error" k) eqn:E; [|done].
    apply String.eqb_eq in E. congruence. }
  simpl.
  destruct (storeUpdate_lookup (id asset) uploading md2 stored s Hst)
    as [Hl Hf].
  split; [done|]. split.
  { unfold truthyProp in *. by rewrite H2. }
  split.
  { unfold md2. destruct (truthyProp "errorType" md1) eqn:E; [|exact E].
    apply truthyProp_deleteProp. }
  split.
  { intros k Hk Hk'. by rewrite H2, H3. }
  split; [exact Hl | exact Hf].
Qed.

Lemma start_of_upload_clears_failure_record_witness :
  assetStorage
    (set_assetStorage (setAsset Samples.assetG' ∅) Samples.fresh) !! "g"
  = Some Samples.assetG'
  ∧ truthyProp "error"
      (metadata
         (updateAssetStatusToUploading Samples.assetG'
            (set_assetStorage (setAsset Samples.assetG' ∅) Samples.fresh)).1)
    = false.
Proof.
  assert (H : assetStorage
                (set_assetStorage (setAsset Samples.assetG' ∅) Samples.fresh)
                !! id Samples.assetG' = Some Samples.assetG')
    by (vm_compute; reflexivity).
  split; [exact H|].
  exact (proj1 (proj2 (start_of_upload_clears_failure_record
                         Samples.assetG' Samples.assetG' _ H))).
Defined.

(** X9.  A failed upload loses nothing: the error handler leaves the record
    in the blob store with its payload, position and source page as they
    were, writes the metadata of the asset that was posted plus the error
    text, and touches no other record.  The error text is the message of
    the failure, or [Upload failed] when the failure has no message or an
    empty one; the same text goes out with the progress report. *)
Theorem failed_upload_stays_stored (asset stored : Asset) (err : ApiError)
  (s : State) :
  assetStorage s !! id asset = Some stored →
  let s' := handleUploadError asset err s in
  ∃ recorded text,
    assetStorage s' !! id asset = Some recorded
    ∧ uri recorded = uri stored ∧ mimeType recorded = mimeType stored
    ∧ createdAt recorded = createdAt stored
    ∧ gpsLocation recorded = gpsLocation stored
    ∧ sourceWebsite recorded = sourceWebsite stored
    ∧ getProp "error" (metadata recorded) = Some (JString text)
    ∧ (∀ m, message err = Some m → m ≠ EmptyString → text = m)
    ∧ (message err = None ∨ message err = Some EmptyString →
       text = "Upload failed")
    ∧ (∀ k, k ≠ "error" → k ≠ "errorType" →
         getProp k (metadata recorded) = getProp k (metadata asset))
    ∧ (∀ k, k ≠ id asset → assetStorage s' !! k = assetStorage s !! k)
    ∧ last (effects s')
      = Some (EmitProgress {| assetId := id asset; progress := Int 0;
                              progress_status := failed;
                              error := Some text |}).
Proof.
  intros Hst. cbv zeta. unfold handleUploadError.
  set (text := match message err with
               | Some (String c r) => String c r
               | _ => "Upload failed"
               end).
  assert (Ht1 : ∀ m, message err = Some m → m ≠ EmptyString → text = m).
  { intros m Hm Hne. unfold text. rewrite Hm. by destruct m. }
  assert (Ht2 : message err = None ∨ message err = Some EmptyString →
                text = "Upload failed").
  { intros [H|H]; unfold text; by rewrite H. }
  clearbody text.
  assert (Hmd : ∀ ty,
    getProp "error"
      (setProp "errorType" ty (setProp "error" (JString text) (metadata asset)))
    = Some (JString text)
    ∧ ∀ k, k ≠ "error" → k ≠ "errorType" →
        getProp k
          (setProp "errorType" ty
             (setProp "error" (JString text) (metadata asset)))
        = getProp k (metadata asset)).
  { intros ty. split.
    - rewrite getProp_setProp_ne by done. apply getProp_setProp_eq.
    - intros k Hk Hk'. by rewrite !getProp_setProp_ne. }
  destruct (isInsufficientBalanceError err).
  - set (s1 := clearDismissed (setPaused true s)).
    assert (Hst1 : assetStorage s1 !! id asset = Some stored) by exact Hst.
    destruct (storeUpdate_lookup (id asset) failed
                (setProp "errorType" (JString "insufficient_credits")
                   (setProp "error" (JString text) (metadata asset)))
                stored s1 Hst1) as [Hl Hf].
    destruct (Hmd (JString "insufficient_credits")) as [Hm1 Hm2].
    eexists _, text. split; [exact Hl|].
    do 5 (split; [reflexivity|]). split; [exact Hm1|].
    split; [exact Ht1|]. split; [exact Ht2|]. split; [exact Hm2|].
    split; [exact Hf|]. simpl. by rewrite !last_snoc.
  - destruct (storeUpdate_lookup (id asset) failed
                (setProp "errorType" JUndefined
                   (setProp "error" (JString text) (metadata asset)))
                stored s Hst) as [Hl Hf].
    destruct (Hmd JUndefined) as [Hm1 Hm2].
    eexists _, text. split; [exact Hl|].
    do 5 (split; [reflexivity|]). split; [exact Hm1|].
    split; [exact Ht1|]. split; [exact Ht2|]. split; [exact Hm2|].
    split; [exact Hf|]. simpl. by rewrite !last_snoc.
Qed.

Lemma failed_upload_stays_stored_witness :
  assetStorage Samples.fresh !! id Samples.assetA = Some Samples.assetA
  ∧ ∃ recorded text,
      assetStorage
        (handleUploadError Samples.assetA
           {| error_type := None; message := Some EmptyString |}
           Samples.fresh) !! id Samples.assetA = Some recorded
      ∧ uri recorded = uri Samples.assetA
      ∧ getProp "error" (metadata recorded) = Some (JString text).
Proof.
  assert (H : assetStorage Samples.fresh !! id Samples.assetA
              = Some Samples.assetA) by (vm_compute; reflexivity).
  split; [exact H|].
  destruct (failed_upload_stays_stored Samples.assetA Samples.assetA
              {| error_type := None; message := Some EmptyString |}
              Samples.fresh H)
    as (recorded & text & H1 & H2 & _ & _ & _ & _ & H3 & _).
  exists recorded, text. exact (conj H1 (conj H2 H3)).
Defined.

(** *** Removing from the queue, retrying what failed *)

(** X10.  [removeFromQueue] cancels only an upload that has not started:
    the id leaves the queue and the persisted list, the other queued assets
    keep their order, nothing is started and the blob store is not
    touched; an upload in flight, even of that very id, carries on, and
    its success is recorded when the answer arrives. *)
Theorem remove_cancels_only_queued_upload (s : State) (k : string) (i : nat)
  (asset : Asset) (now : string) (result : ApiResult) :
  oneAtATime s → inFlight s !! i = Some asset →
  let s' := removeFromQueue k s in
  (k ∉ queueIds s')
  ∧ queueIds s' = filter (fun x => x ≠ k) (queueIds s)
  ∧ durableIds s' = queueIds s'
  ∧ inFlight s' = inFlight s
  ∧ startedIds s' = startedIds s
  ∧ assetStorage s' = assetStorage s
  ∧ uploadedIds (processQueue_resume i now (Resolved result) s')
    = uploadedIds s ++ [id asset].
Proof.
  intros Hone Hi. cbv zeta.
  assert (Hq : queueIds (removeFromQueue k s)
               = filter (fun x => x ≠ k) (queueIds s)).
  { unfold removeFromQueue, queueIds. simpl.
    induction (uploadQueue s) as [|a q IH]; [done|]. simpl.
    rewrite !filter_cons. simpl.
    destruct (decide (id a ≠ k)); simpl; by rewrite IH. }
  split.
  { rewrite Hq. intros H. apply list_elem_of_filter in H as [H _]. by apply H. }
  split; [exact Hq|]. split; [reflexivity|]. split; [reflexivity|].
  split.
  { unfold removeFromQueue, startedIds. simpl. rewrite omap_app. simpl.
    by rewrite app_nil_r. }
  split; [reflexivity|].
  assert (Hone' : oneAtATime (removeFromQueue k s)) by exact Hone.
  assert (Hi' : inFlight (removeFromQueue k s) !! i = Some asset)
    by exact Hi.
  destruct (resume_shape i now (Resolved result) asset _ Hone' Hi')
    as (t & -> & _ & _ & _ & _ & _ & _ & _ & Hup).
  destruct (processQueue_obs t) as (_ & _ & -> & _). rewrite Hup.
  unfold removeFromQueue, uploadedIds. simpl. rewrite omap_app. simpl.
  by rewrite app_nil_r.
Qed.

Lemma remove_cancels_only_queued_upload_witness :
  uploadedIds
    (processQueue_resume 0 Samples.now Samples.registered
       (removeFromQueue "a"
          (run [AddToQueue Samples.assetA false;
                AddToQueue Samples.assetB false] Samples.fresh)))
  = uploadedIds
      (run [AddToQueue Samples.assetA false;
            AddToQueue Samples.assetB false] Samples.fresh)
    ++ [id (set_status uploading Samples.assetA)].
Proof.
  refine (proj2 (proj2 (proj2 (proj2 (proj2 (proj2
            (remove_cancels_only_queued_upload
               (run [AddToQueue Samples.assetA false;
                     AddToQueue Samples.assetB false] Samples.fresh)
               "a" 0 (set_status uploading Samples.assetA) Samples.now
               {| cid := JString "bafy-cid"; nid := JString "bafy-nid" |}
               _ _))))))).
  - split; [vm_compute; lia | by vm_compute].
  - vm_compute. reflexivity.
Defined.

Lemma processQueue_held (k : string) (s : State) :
  held k s → held k (processQueue s).
Proof.
  destruct (processQueue_obs s) as (_ & _ & _ & [[-> _]|H]); [done|].
  destruct H as (a & rest & a' & Hq & _ & _ & Hq' & _ & Hf & Hid & _).
  unfold held, queueIds. rewrite Hq, Hq', Hf, map_app. simpl.
  rewrite Hid, elem_of_cons, elem_of_app, list_elem_of_singleton. tauto.
Qed.

Lemma pushEach_covers (assets : list Asset) (n : nat) (s : State) :
  (∀ k, k ∈ queueIds s → k ∈ queueIds (pushEach assets n s).2)
  ∧ Forall (fun a => id a ∈ queueIds (pushEach assets n s).2) assets.
Proof.
  revert n s. induction assets as [|a l IH]; intros n s; simpl; [done|].
  destruct (inQueue (id a) (uploadQueue s)) eqn:E.
  - destruct (IH n s) as [Hm Hall]. split; [exact Hm|].
    constructor; [|exact Hall]. apply Hm. by apply inQueue_spec.
  - destruct (IH (S n) (push a s)) as [Hm Hall].
    assert (Hp : ∀ k, k ∈ queueIds s ∨ k = id a → k ∈ queueIds (push a s)).
    { intros k Hk. unfold push, queueIds. simpl.
      rewrite map_app, elem_of_app. simpl.
      rewrite list_elem_of_singleton. exact Hk. }
    split; [intros k Hk; apply Hm, Hp; by left|].
    constructor; [|exact Hall]. apply Hm, Hp. by right.
Qed.

(** X11.  After [retryFailedUploads] every asset that the blob store
    records as [failed] is queued or in flight; when the store records no
    failure the engine is left exactly as it was (a paused engine stays
    paused). *)
Theorem retry_takes_up_every_failed_asset (s : State) :
  keyed (assetStorage s) →
  (∀ k a, assetStorage s !! k = Some a → status a = failed →
     held k (retryFailedUploads s))
  ∧ ((∀ k a, assetStorage s !! k = Some a → status a ≠ failed) →
     retryFailedUploads s = s).
Proof.
  intros Hk. unfold retryFailedUploads. cbv zeta. split.
  - intros k a Hst Hf.
    assert (Hin : a ∈ filter (fun a => status a = failed)
                       (getAllAssets (assetStorage s))).
    { apply list_elem_of_filter. split; [exact Hf|].
      unfold getAllAssets. apply list_elem_of_fmap. exists (k, a).
      split; [done|]. by apply elem_of_map_to_list. }
    rewrite <- (Hk k a Hst).
    destruct (filter _ _) as [|f l] eqn:E; [by apply elem_of_nil in Hin|].
    change (0 <? length (f :: l))%nat with true. cbv iota.
    unfold addMultipleToQueue.
    destruct (pushEach_covers (f :: l) 0 s) as [_ Hall].
    rewrite Forall_forall in Hall. specialize (Hall a Hin).
    destruct (pushEach (f :: l) 0 s) as [n s1]. simpl in Hall.
    destruct (0 <? n)%nat; [|by left].
    apply processQueue_held. unfold maybeUnpauseForManualRetry. simpl.
    destruct (isPaused s1); [|by left].
    unfold setPaused. apply processQueue_held. by left.
  - intros Hnone.
    assert (E : filter (fun a => status a = failed)
                  (getAllAssets (assetStorage s)) = []).
    { destruct (filter _ _) as [|a l] eqn:E; [done|]. exfalso.
      assert (Ha : a ∈ a :: l) by apply list_elem_of_here.
      rewrite <- E in Ha. apply list_elem_of_filter in Ha as [Hf Ha].
      unfold getAllAssets in Ha.
      apply list_elem_of_fmap in Ha as ([k a'] & -> & Ha).
      apply elem_of_map_to_list in Ha. by apply (Hnone k a'). }
    by rewrite E.
Qed.

Lemma retry_takes_up_every_failed_asset_witness :
  held "a"
    (retryFailedUploads
       (handleUploadError Samples.assetA
          {| error_type := None; message := None |} Samples.fresh)).
Proof.
  assert (Hk : keyed (assetStorage
                        (handleUploadError Samples.assetA
                           {| error_type := None; message := None |}
                           Samples.fresh))).
  { apply keyed_updateAsset.
    repeat apply keyed_setAsset; apply keyed_empty. }
  refine (proj1 (retry_takes_up_every_failed_asset _ Hk) "a" _ _ _).
  - vm_compute. reflexivity.
  - reflexivity.
Defined.

End EngineFacts.

(** ** The constructor and the calls that overlap it *)

Module LifecycleFacts.
Import Js IndexedDBService UploadService Engine Lifecycle.
Import JsFacts UploadFacts EngineFacts.

(** *** What the engine's own steps keep *)

Lemma processQueue_store (s : State) :
  keyed (assetStorage s) → keyed (assetStorage (processQueue s)).
Proof.
  intros H. unfold processQueue.
  destruct (isUploading s || isPaused s || (length (uploadQueue s) =? 0)%nat);
    [done|].
  simpl. destruct (uploadQueue s) as [|a rest]; [done|].
  simpl. by apply keyed_updateAsset.
Qed.

Lemma processQueue_durable (s : State) :
  durableIds (processQueue s) = durableIds s.
Proof.
  unfold processQueue.
  destruct (isUploading s || isPaused s || (length (uploadQueue s) =? 0)%nat);
    [done|].
  simpl. by destruct (uploadQueue s) as [|a rest].
Qed.

Lemma unpause_process_store (m : bool) (s : State) :
  keyed (assetStorage s) →
  keyed (assetStorage (processQueue (maybeUnpauseForManualRetry m s))).
Proof.
  intros H. destruct (unpause_then_process m s) as [-> | ->];
    by apply processQueue_store.
Qed.

Lemma unpause_process_durable (m : bool) (s : State) :
  durableIds (processQueue (maybeUnpauseForManualRetry m s)) = durableIds s.
Proof.
  destruct (unpause_then_process m s) as [-> | ->];
    by rewrite processQueue_durable.
Qed.

Lemma addMultipleToQueue_distinct (assets : list Asset) (m : bool)
  (s : State) :
  keyed (assetStorage s) → NoDup (queueIds s) → NoDup (durableIds s) →
  keyed (assetStorage (addMultipleToQueue assets m s))
  ∧ NoDup (durableIds (addMultipleToQueue assets m s)).
Proof.
  intros Hk Hq Hd. unfold addMultipleToQueue.
  pose proof (pushEach_spec assets 0 s) as (_&_&Hm&Hs&_).
  pose proof (pushEach_NoDup assets 0 s Hq) as Hq1.
  destruct (pushEach assets 0 s) as [n s1]. simpl in Hm, Hs, Hq1.
  destruct (0 <? n)%nat.
  - split.
    + apply unpause_process_store. simpl. by rewrite Hs.
    + rewrite unpause_process_durable. exact Hq1.
  - split; [by rewrite Hs|]. unfold durableIds. by rewrite Hm.
Qed.

Lemma step_distinct (s : State) (e : Event) :
  keyed (assetStorage s) → NoDup (queueIds s) → NoDup (durableIds s) →
  keyed (assetStorage (step s e)) ∧ NoDup (durableIds (step s e)).
Proof.
  intros Hk Hq Hd. destruct e as [asset m|assets m|k|b| |i now r]; simpl.
  - unfold addToQueue.
    destruct (inQueue (id asset) (uploadQueue s)) eqn:E; [done|].
    split; [by apply unpause_process_store|].
    rewrite unpause_process_durable.
    apply (push_NoDup asset s); [by apply inQueue_false | done].
  - by apply addMultipleToQueue_distinct.
  - split; [done|]. unfold removeFromQueue, durableIds. simpl.
    by apply filter_ids_NoDup.
  - unfold setPaused. destruct b; [done|].
    split; [by apply processQueue_store | by rewrite processQueue_durable].
  - unfold retryFailedUploads.
    destruct (0 <? _)%nat; [|done]. by apply addMultipleToQueue_distinct.
  - unfold processQueue_resume.
    destruct (inFlight s !! i) as [asset|]; [|done].
    split.
    + apply processQueue_store. destruct r as [result|err]; simpl.
      * by apply keyed_deleteAsset, keyed_updateAsset.
      * unfold handleUploadError.
        destruct (isInsufficientBalanceError err); simpl;
          by apply keyed_updateAsset.
    + rewrite processQueue_durable.
      destruct r as [result|err]; [exact Hq|].
      unfold handleUploadError.
      by destruct (isInsufficientBalanceError err).
Qed.

(** *** The invariant of the service *)

Lemma NoDup_without {A} (l : list A) (x : A) (rest : list A) :
  NoDup (l ++ x :: rest) → NoDup (l ++ rest).
Proof.
  intros H. eapply sublist_NoDup; [exact H|].
  apply sublist_app; [done|]. by apply sublist_cons.
Qed.

Lemma restoreStep_distinct (v : Service) :
  distinctIds v → distinctIds (restoreStep v).
Proof.
  intros (Hk & Hq & Hd & Hr). unfold restoreStep, distinctIds.
  destruct (restoration v) as [|ids|assets k rest|assets found rest| ]
    eqn:Er; simpl in *.
  - done.
  - destruct ids as [|k rest]; simpl; [done|].
    repeat split; done.
  - repeat split; try done. unfold getAsset.
    destruct (assetStorage (engine v) !! k) as [a|] eqn:E; simpl.
    + rewrite map_app, <- app_assoc. simpl. by rewrite (Hk k a E).
    + rewrite app_nil_r. by apply NoDup_without in Hr.
  - destruct rest as [|k rest]; simpl.
    + split; [by apply processQueue_store|].
      split; [|by rewrite processQueue_durable].
      apply processQueue_NoDup. unfold queueIds. simpl.
      by rewrite app_nil_r in Hr.
    + repeat split; done.
  - repeat split; try done. by rewrite Er.
Qed.

Lemma turn_distinct (v : Service) (t : Turn) :
  distinctIds v → distinctIds (turn v t).
Proof.
  intros (Hk & Hq & Hd & Hr).
  destruct t as [e|asset m|assets m|n| ]; simpl.
  - destruct (step_distinct (engine v) e Hk Hq Hd) as [Hk' Hd'].
    repeat split; try done. by apply step_NoDup.
  - unfold enqueue.
    destruct (inQueue (id asset) (uploadQueue (engine v))) eqn:E; [done|].
    assert (Hn : NoDup (queueIds (push asset (engine v))))
      by (apply push_NoDup; [by apply inQueue_false | done]).
    repeat split; done.
  - unfold enqueueMany.
    pose proof (pushEach_spec assets 0 (engine v)) as (_&_&Hm&Hs&_).
    pose proof (pushEach_NoDup assets 0 (engine v) Hq) as Hq1.
    destruct (pushEach assets 0 (engine v)) as [n s1]. simpl in Hm, Hs, Hq1.
    destruct (0 <? n)%nat; unfold distinctIds; simpl.
    + rewrite Hs. repeat split; done.
    + rewrite Hs. unfold durableIds. rewrite Hm. repeat split; done.
  - unfold saved. destruct (saving v !! n) as [m|]; [|done].
    unfold distinctIds. simpl. rewrite unpause_process_durable.
    repeat split; try done.
    + by apply unpause_process_store.
    + by apply unpause_process_NoDup.
  - by apply restoreStep_distinct.
Qed.

Lemma play_distinct (turns : list Turn) (v : Service) :
  distinctIds v → distinctIds (play turns v).
Proof.
  revert v. induction turns as [|t l IH]; intros v H; [done|].
  simpl. by apply IH, turn_distinct.
Qed.

(** *** A restoration that nothing overlaps *)

Lemma play_app (l1 l2 : list Turn) (v : Service) :
  play (l1 ++ l2) v = play l2 (play l1 v).
Proof. apply fold_left_app. Qed.

Lemma settled_stays (n : nat) (e : State) (p : list bool) :
  play (replicate n Restoring)
    {| engine := e; restoration := Settled; saving := p |}
  = {| engine := e; restoration := Settled; saving := p |}.
Proof. induction n as [|n IH]; [done|]. exact IH. Qed.

Lemma restoreLoop_runs (rest : list string) (assets : list Asset)
  (k : string) (e : State) (p : list bool) (n : nat) :
  (2 * S (length rest) ≤ n)%nat →
  play (replicate n Restoring)
    {| engine := e; restoration := AssetAsked assets k rest; saving := p |}
  = {| engine :=
         processQueue
           (restored
              (assets ++ omap (fun k => getAsset k (assetStorage e))
                           (k :: rest)) e);
       restoration := Settled; saving := p |}.
Proof.
  revert assets k n. induction rest as [|k' rest IH]; intros assets k n Hn.
  - destruct n as [|[|n]]; [simpl in Hn; lia..|].
    change (replicate (S (S n)) Restoring)
      with ([Restoring; Restoring] ++ replicate n Restoring).
    rewrite play_app. simpl play at 2. unfold turn, restoreStep. simpl.
    rewrite settled_stays.
    by destruct (getAsset k (assetStorage e)).
  - destruct n as [|[|n]]; [simpl in Hn; lia..|].
    change (replicate (S (S n)) Restoring)
      with ([Restoring; Restoring] ++ replicate n Restoring).
    rewrite play_app. simpl play at 2. unfold turn, restoreStep. simpl.
    rewrite IH by (simpl in *; lia).
    do 3 f_equal. simpl.
    destruct (getAsset k (assetStorage e)); simpl;
      by rewrite <- app_assoc.
Qed.

(** Left alone, the restoration ends in the engine that [create]
    describes. *)
Lemma restoration_alone_gives_create (ms : StorageService.Storage)
  (db : gmap string Asset) (n : nat) :
  (2 + 2 * length (StorageService.getUploadQueueIds ms) ≤ n)%nat →
  play (replicate n Restoring) (construct ms db) = settled (create ms db).
Proof.
  intros Hn. destruct n as [|[|n]]; [simpl in Hn; lia..|].
  change (replicate (S (S n)) Restoring)
    with ([Restoring; Restoring] ++ replicate n Restoring).
  rewrite play_app. unfold create, restoreQueue, settled. cbv zeta.
  change (metadataStorage (initial ms db)) with ms.
  change (assetStorage (initial ms db)) with db.
  simpl play at 2. unfold turn, restoreStep. simpl.
  destruct (StorageService.getUploadQueueIds ms) as [|k ids] eqn:E.
  - simpl. apply settled_stays.
  - change (0 <? length (k :: ids))%nat with true. cbv iota. simpl restoreLoop.
    cbv iota beta. rewrite restoreLoop_runs by (simpl in *; lia). done.
Qed.

(** *** The persisted list once the restoration has settled *)

Lemma turn_tracks (v : Service) (t : Turn) :
  restoration v = Settled → durableListTracksQueue (engine v) →
  restoration (turn v t) = Settled
  ∧ durableListTracksQueue (engine (turn v t)).
Proof.
  intros Hr Ht. destruct t as [e|asset m|assets m|n| ]; simpl.
  - split; [done|]. by apply step_tracks.
  - unfold enqueue.
    destruct (inQueue (id asset) (uploadQueue (engine v))); [done|].
    split; [done|]. by left.
  - unfold enqueueMany.
    pose proof (pushEach_none_added assets 0 (engine v)) as Hnone.
    destruct (pushEach assets 0 (engine v)) as [n s1]. simpl in Hnone.
    destruct (0 <? n)%nat eqn:E.
    + split; [done|]. by left.
    + apply Nat.ltb_ge in E. rewrite Hnone by lia. done.
  - unfold saved. destruct (saving v !! n) as [m|]; [|done].
    split; [done|]. simpl.
    destruct (unpause_then_process m (engine v)) as [-> | ->];
      by apply processQueue_tracks.
  - unfold restoreStep. by rewrite Hr.
Qed.

Lemma play_tracks (turns : list Turn) (v : Service) :
  restoration v = Settled → durableListTracksQueue (engine v) →
  durableListTracksQueue (engine (play turns v)).
Proof.
  revert v. induction turns as [|t l IH]; intros v Hr Ht; [done|].
  simpl. destruct (turn_tracks v t Hr Ht) as [Hr' Ht']. by apply IH.
Qed.

Lemma create_tracks (ms : StorageService.Storage) (db : gmap string Asset) :
  keyed db →
  Forall (fun k => is_Some (db !! k)) (StorageService.getUploadQueueIds ms) →
  durableListTracksQueue (create ms db).
Proof.
  intros Hk Hall. unfold create, restoreQueue. cbv zeta.
  change (metadataStorage (initial ms db)) with ms.
  change (assetStorage (initial ms db)) with db.
  destruct (StorageService.getUploadQueueIds ms) as [|k ids] eqn:E.
  - left. unfold durableIds. simpl. by rewrite E.
  - change (0 <? length (k :: ids))%nat with true. cbv iota.
    apply processQueue_after_save. unfold durableIds, queueIds.
    change (metadataStorage (restored _ (initial ms db))) with ms.
    change (uploadQueue (restored ?a _)) with a.
    rewrite E, (resolved_ids db _ Hk).
    by rewrite filter_all.
Qed.

(** *** The service from the constructor on *)

(** C1.  An asset enqueued while the restoration is under way is not
    uploaded, although nothing fails: the uploads do not follow the
    enqueue order to its end.  An engine is constructed over a persisted
    list that holds "a" and is asked to upload "b" before its restoration
    has gone on: [addToQueue] puts "b" on the queue and saves the list,
    then the restoration assigns the assets it found to the queue, over
    "b", and starts the upload of "a".  When that upload has succeeded and nothing is under
    way any more, the queue is empty, nothing is in flight, the persisted
    list is empty, and "b" was never started: it is still a draft in the
    blob store.  Had the same call been made after the restoration had
    run to its end, both assets would have been uploaded, "a" before
    "b", and "b" would have left the blob store. *)
Theorem enqueue_during_restoration_is_lost :
  let start := construct leftOver Samples.blobs in
  let racing := play overlapped start in
  let patient := play waited start in
  queueIds (engine (play (take 2 overlapped) start)) = ["b"]
  ∧ durableIds (engine (play (take 2 overlapped) start)) = ["b"]
  ∧ queueIds (engine (play (take 5 overlapped) start)) = []
  ∧ map id (inFlight (engine (play (take 5 overlapped) start))) = ["a"]
  ∧ restoration racing = Settled
  ∧ saving racing = []
  ∧ inFlight (engine racing) = []
  ∧ uploadQueue (engine racing) = []
  ∧ isUploading (engine racing) = false
  ∧ isPaused (engine racing) = false
  ∧ durableIds (engine racing) = []
  ∧ enqueued (engine racing) = ["b"; "a"]
  ∧ startedIds (engine racing) = ["a"]
  ∧ uploadedIds (engine racing) = ["a"]
  ∧ assetStorage (engine racing) !! "b" = Some Samples.assetB
  ∧ assetStorage (engine racing) !! "a" = None
  ∧ enqueued (engine patient) = ["a"; "b"]
  ∧ startedIds (engine patient) = ["a"; "b"]
  ∧ uploadedIds (engine patient) = ["a"; "b"]
  ∧ assetStorage (engine patient) !! "b" = None.
Proof. cbv zeta. repeat split; vm_compute; reflexivity. Qed.

(** X1.  The in-memory queue never holds the same asset id twice: when the
    blob store is keyed by asset id and the persisted list has no repeated
    id, then from the constructor on, whatever is called and answered and
    however the calls overlap the restoration and each other's saves, no
    id appears twice in the queue. *)
Theorem queue_ids_never_repeat (ms : StorageService.Storage)
  (db : gmap string Asset) (turns : list Turn) :
  keyed db → NoDup (StorageService.getUploadQueueIds ms) →
  NoDup (queueIds (engine (play turns (construct ms db)))).
Proof.
  intros Hk Hn.
  assert (H : distinctIds (play turns (construct ms db))).
  { apply play_distinct. repeat split; try done. apply NoDup_nil_2. }
  by destruct H as (_ & H & _).
Qed.

Lemma queue_ids_never_repeat_witness :
  keyed Samples.blobs
  ∧ NoDup (StorageService.getUploadQueueIds Samples.staleStorage)
  ∧ NoDup (queueIds (engine (play overlapped
                               (construct Samples.staleStorage
                                  Samples.blobs)))).
Proof.
  assert (Hk : keyed Samples.blobs)
    by (repeat apply keyed_setAsset; apply keyed_empty).
  assert (Hn : NoDup (StorageService.getUploadQueueIds Samples.staleStorage)).
  { vm_compute. repeat constructor; intros H;
      repeat (apply elem_of_cons in H as [H|H]; [discriminate|]);
      by apply elem_of_nil in H. }
  split; [exact Hk|]. split; [exact Hn|].
  exact (queue_ids_never_repeat Samples.staleStorage Samples.blobs
           overlapped Hk Hn).
Defined.

(** X2.  When every persisted id resolves to a stored asset and the
    restoration that the constructor starts has run to its end before the
    first call, then at every moment after that, however the later calls
    overlap each other's saves, the persisted list is the in-memory queue,
    preceded by the id of the asset in flight if that asset was taken off
    the queue since the list was last written.  So every queued id is in
    the persisted list, and the two are equal whenever no upload is in
    flight. *)
Theorem persisted_list_covers_queue (ms : StorageService.Storage)
  (db : gmap string Asset) (turns : list Turn) :
  keyed db →
  Forall (fun k => is_Some (db !! k)) (StorageService.getUploadQueueIds ms) →
  let s :=
    engine
      (play
         (restorationTurns (length (StorageService.getUploadQueueIds ms))
          ++ turns)
         (construct ms db)) in
  durableListTracksQueue s
  ∧ (isUploading s = false → durableIds s = queueIds s)
  ∧ ∀ k, k ∈ queueIds s → k ∈ durableIds s.
Proof.
  intros Hk Hall. cbv zeta. rewrite play_app. unfold restorationTurns.
  rewrite restoration_alone_gives_create by done.
  assert (H : durableListTracksQueue
                (engine (play turns (settled (create ms db))))).
  { apply play_tracks; [done|]. by apply create_tracks. }
  split; [exact H|]. split.
  - intros Hu. destruct H as [H | (a & _ & Hb & _)]; [done | congruence].
  - intros k Hin. destruct H as [-> | (a & _ & _ & ->)]; [done|].
    by apply list_elem_of_further.
Qed.

Lemma persisted_list_covers_queue_witness :
  keyed Samples.blobs
  ∧ Forall (fun k => is_Some (Samples.blobs !! k))
           (StorageService.getUploadQueueIds twoLeft)
  ∧ durableListTracksQueue
      (engine
         (play
            (restorationTurns
               (length (StorageService.getUploadQueueIds twoLeft))
             ++ [Enqueue Samples.assetC false;
                 Call (Answer 0 Samples.now Samples.registered);
                 Saved 0])
            (construct twoLeft Samples.blobs))).
Proof.
  assert (Hk : keyed Samples.blobs)
    by (repeat apply keyed_setAsset; apply keyed_empty).
  assert (Hall : Forall (fun k => is_Some (Samples.blobs !! k))
                   (StorageService.getUploadQueueIds twoLeft)).
  { change (StorageService.getUploadQueueIds twoLeft) with ["a"; "b"].
    repeat constructor; vm_compute; eauto. }
  split; [exact Hk|]. split; [exact Hall|].
  exact (proj1 (persisted_list_covers_queue twoLeft Samples.blobs
                  [Enqueue Samples.assetC false;
                   Call (Answer 0 Samples.now Samples.registered);
                   Saved 0] Hk Hall)).
Defined.

End LifecycleFacts.

(* --------------------------------------------------------------------- *)
(** ** The remaining records of the small-record store                    *)
(* --------------------------------------------------------------------- *)

Module LocalStorageFacts.
Import Js IndexedDBService UploadService LocalStorage.

(** X12.  Stored credentials are read back only when the token is not
    empty: after [setAuth], [getAuth] returns the three fields and
    [isAuthenticated] holds exactly when the token is a non-empty string;
    [clearAuth] makes both answer "no", and neither method touches the
    settings, the persisted queue or the dismissal flag. *)
Theorem auth_is_read_back_unless_token_is_empty (auth : StoredAuth)
  (st : Local) :
  (token auth ≠ EmptyString →
     getAuth (setAuth auth st)
     = Some {| read_token := token auth; read_email := Some (email auth);
               read_username := Some (username auth) |})
  ∧ (token auth = EmptyString → getAuth (setAuth auth st) = None)
  ∧ isAuthenticated (setAuth auth st) = bool_decide (is_Some (getAuth (setAuth auth st)))
  ∧ getAuth (clearAuth (setAuth auth st)) = None
  ∧ isAuthenticated (clearAuth (setAuth auth st)) = false
  ∧ records (setAuth auth st) = records st
  ∧ records (clearAuth st) = records st.
Proof.
  unfold getAuth, isAuthenticated, setAuth, clearAuth. simpl.
  destruct (token auth) as [|c r]; repeat split; try done.
Qed.

(** X13.  The Google sign-in error and the pending share are read at most
    once: after a non-empty text was stored, the first read returns it and
    removes it, so the second read returns nothing.  An empty text is
    never returned.  A failed Google sign-in always leaves a text that the
    next read returns: the message of the error when it has one that is
    not empty, and [Google Auth failed] when it has none. *)
Theorem stored_notices_are_read_once (text : string) (message : option string)
  (st : Local) :
  text ≠ EmptyString →
  (getAndClearGoogleAuthError (setGoogleAuthError text st)).1 = Some text
  ∧ (getAndClearGoogleAuthError
       (getAndClearGoogleAuthError (setGoogleAuthError text st)).2).1 = None
  ∧ (getAndClearPendingShare (setPendingShare text st)).1 = Some text
  ∧ (getAndClearPendingShare
       (getAndClearPendingShare (setPendingShare text st)).2).1 = None
  ∧ (getAndClearGoogleAuthError (setGoogleAuthError EmptyString st)).1 = None
  ∧ (getAndClearPendingShare (setPendingShare EmptyString st)).1 = None
  ∧ (getAndClearGoogleAuthError (googleAuthFailed message st).1).1
    = Some (googleAuthFailed message st).2
  ∧ ((message = None ∨ message = Some EmptyString) →
     (googleAuthFailed message st).2 = "Google Auth failed")
  ∧ (∀ m, message = Some m → m ≠ EmptyString →
     (googleAuthFailed message st).2 = m
     ∧ (getAndClearGoogleAuthError (googleAuthFailed message st).1).1
       = Some m).
Proof.
  intros Hne.
  unfold getAndClearGoogleAuthError, getAndClearPendingShare,
    setGoogleAuthError, setPendingShare, googleAuthFailed.
  simpl. destruct text as [|c r]; [done|]. simpl.
  repeat split.
  - by destruct message as [[|c' r']|].
  - by intros [->| ->].
  - subst message. by destruct m.
  - subst message. by destruct m.
Qed.

Lemma stored_notices_are_read_once_witness :
  (getAndClearPendingShare
     (getAndClearPendingShare (setPendingShare "bafy-nid" empty)).2).1 = None
  ∧ (getAndClearGoogleAuthError
       (googleAuthFailed (Some "The user did not approve access.") empty).1).1
    = Some "The user did not approve access.".
Proof.
  assert (Hne : "bafy-nid" ≠ EmptyString) by discriminate.
  assert (Hm : "The user did not approve access." ≠ EmptyString)
    by discriminate.
  destruct (stored_notices_are_read_once "bafy-nid"
              (Some "The user did not approve access.") empty Hne)
    as (_ & _ & _ & H4 & _ & _ & _ & _ & H9).
  split; [exact H4|]. exact (proj2 (H9 _ eq_refl Hm)).
Defined.

(** X14.  [clearAll] forgets everything: the credentials, the notices, the
    dismissal flag and the persisted queue are gone, the settings read as
    the defaults, and an engine constructed over the cleared store starts
    with an empty queue and nothing in flight, whatever the blob store
    holds. *)
Theorem clearAll_forgets_everything (st : Local) (db : gmap string Asset) :
  getAuth (clearAll st) = None
  ∧ isAuthenticated (clearAll st) = false
  ∧ (getAndClearGoogleAuthError (clearAll st)).1 = None
  ∧ (getAndClearPendingShare (clearAll st)).1 = None
  ∧ StorageService.getSettings (records (clearAll st))
    = Returns StorageService.DEFAULT_SETTINGS
  ∧ StorageService.getUploadQueueIds (records (clearAll st)) = []
  ∧ StorageService.hasInsufficientCreditsNotificationDismissed
      (records (clearAll st)) = false
  ∧ uploadQueue (create (records (clearAll st)) db) = []
  ∧ inFlight (create (records (clearAll st)) db) = []
  ∧ effects (create (records (clearAll st)) db) = [].
Proof. repeat split. Qed.

(** X15.  [init] never changes what [getSettings] answers: it writes the
    defaults only when no settings text is stored (or an empty one), and
    reading those back gives the defaults, which is what [getSettings]
    answers without them; a stored text, even one that does not parse, is
    left as it is.  [init] is idempotent and touches no other key. *)
Theorem init_keeps_settings_reading (st : StorageService.Storage) :
  StorageService.getSettings (StorageService.init st)
  = StorageService.getSettings st
  ∧ StorageService.init (StorageService.init st) = StorageService.init st
  ∧ StorageService.upload_queue (StorageService.init st)
    = StorageService.upload_queue st
  ∧ StorageService.insufficient_credits_dismissed (StorageService.init st)
    = StorageService.insufficient_credits_dismissed st
  ∧ (∀ text, StorageService.user_settings st = Some text →
       text ≠ EmptyString →
       StorageService.user_settings (StorageService.init st) = Some text).
Proof.
  destruct st as [[[|c r]|] q d].
  - split; [vm_compute; reflexivity|]. split; [vm_compute; reflexivity|].
    split; [reflexivity|]. split; [reflexivity|].
    intros text [= <-] Hne. done.
  - change (StorageService.init
              {| StorageService.user_settings := Some (String c r);
                 StorageService.upload_queue := q;
                 StorageService.insufficient_credits_dismissed := d |})
      with {| StorageService.user_settings := Some (String c r);
              StorageService.upload_queue := q;
              StorageService.insufficient_credits_dismissed := d |}.
    split; [reflexivity|]. split; [reflexivity|]. split; [reflexivity|].
    split; [reflexivity|]. intros text H _. exact H.
  - split; [vm_compute; reflexivity|]. split; [vm_compute; reflexivity|].
    split; [reflexivity|]. split; [reflexivity|].
    intros text [=].
Qed.

End LocalStorageFacts.

(* --------------------------------------------------------------------- *)
(** ** The insufficient-credits notification of the popup                 *)
(* --------------------------------------------------------------------- *)

Module PopupFacts.
Import Js IndexedDBService UploadService Popup JsFacts UploadFacts.

Lemma existsb_elem {A} (f : A → bool) (x : A) (l : list A) :
  x ∈ l → f x = true → existsb f l = true.
Proof.
  intros Hin Hf. induction Hin as [x l|x y l Hin IH]; simpl.
  - by rewrite Hf.
  - by rewrite IH, orb_true_r.
Qed.

(** X16.  A dismissed notification stays away until the next failure for
    lack of credits: after [handleCloseNotification] no list of assets
    makes [checkCreditStatus] show it, a failure of another kind does not
    change that, and a failure that signals insufficient balance makes the
    check over the stored assets show it again. *)
Theorem credit_notice_returns_after_new_failure (s : State)
  (asset stored : Asset) (err : ApiError) :
  assetStorage s !! id asset = Some stored →
  let closed :=
    set_metadataStorage (handleCloseNotification (metadataStorage s)).2 s in
  let s' := handleUploadError asset err closed in
  (∀ assets,
     checkCreditStatus assets (handleCloseNotification (metadataStorage s)).1
       (metadataStorage closed) = false)
  ∧ (¬ signalsInsufficientBalance err → ∀ assets,
       checkCreditStatus assets false (metadataStorage s') = false)
  ∧ (signalsInsufficientBalance err →
       checkCreditStatus (getAllAssets (assetStorage s')) false
         (metadataStorage s') = true).
Proof.
  intros Hst. cbv zeta. split; [|split].
  - intros assets. unfold checkCreditStatus. simpl.
    by destruct (existsb isCreditError assets).
  - intros Hsig assets. apply isInsufficientBalanceError_false in Hsig.
    unfold handleUploadError. rewrite Hsig. unfold checkCreditStatus. simpl.
    by destruct (existsb isCreditError assets).
  - intros Hsig. apply isInsufficientBalanceError_spec in Hsig.
    unfold handleUploadError. rewrite Hsig.
    unfold checkCreditStatus. simpl.
    unfold updateAsset. simpl. rewrite Hst.
    erewrite existsb_elem; [reflexivity| |].
    + unfold getAllAssets. apply list_elem_of_fmap.
      eexists (id asset, _). split; [reflexivity|].
      apply elem_of_map_to_list. apply lookup_insert_eq.
    + unfold isCreditError. simpl. by rewrite getProp_setProp_eq.
Qed.

Lemma credit_notice_returns_after_new_failure_witness :
  checkCreditStatus
    (getAllAssets
       (assetStorage
          (handleUploadError Samples.assetA
             {| error_type := Some "asset_commit_insufficient_fund";
                message := None |}
             (set_metadataStorage
                (handleCloseNotification (metadataStorage Samples.fresh)).2
                Samples.fresh))))
    false
    (metadataStorage
       (handleUploadError Samples.assetA
          {| error_type := Some "asset_commit_insufficient_fund";
             message := None |}
          (set_metadataStorage
             (handleCloseNotification (metadataStorage Samples.fresh)).2
             Samples.fresh))) = true.
Proof.
  refine (proj2 (proj2 (credit_notice_returns_after_new_failure
            Samples.fresh Samples.assetA Samples.assetA
            {| error_type := Some "asset_commit_insufficient_fund";
               message := None |} _)) _).
  - vm_compute. reflexivity.
  - left. reflexivity.
Defined.

End PopupFacts.

(* --------------------------------------------------------------------- *)
(** ** The selection overlay                                              *)
(* --------------------------------------------------------------------- *)

Module OverlayFacts.
Import SelectionOverlay OverlayEvents.

Lemma dispatch_detached (num : Z) (den : positive) (o : Overlay)
  (e : DomEvent) :
  listening o = false → dispatch num den o e = (o, None).
Proof.
  intros H. destruct e; simpl;
    unfold handleMouseDown, handleMouseUp, handleKeyDown; by rewrite ?H.
Qed.

Lemma deliver_detached (num : Z) (den : positive) (events : list DomEvent)
  (o : Overlay) :
  listening o = false → deliver num den events o = (o, []).
Proof.
  intros H. induction events as [|e l IH]; [done|]. simpl.
  by rewrite dispatch_detached, IH.
Qed.

Lemma dispatch_sends (num : Z) (den : positive) (o : Overlay) (e : DomEvent) :
  match (dispatch num den o e).2 with
  | Some _ => listening (dispatch num den o e).1 = false
  | None => listening (dispatch num den o e).1 = listening o
  end.
Proof.
  destruct e as [b cx cy|cx cy|cx cy|k]; simpl.
  - unfold handleMouseDown. destruct (listening o) eqn:E; simpl; [|done].
    by destruct (b =? 0).
  - done.
  - unfold handleMouseUp. destruct (listening o) eqn:E; simpl; [|done].
    destruct (isSelecting o); simpl; [|done].
    destruct ((_ <? 10) || (_ <? 10)); simpl; [done|].
    by destruct (num =? 0).
  - unfold handleKeyDown. destruct (listening o) eqn:E; simpl; [|done].
    by destruct (String.eqb k "Escape").
Qed.

Lemma deliver_once (num : Z) (den : positive) (events : list DomEvent)
  (o : Overlay) :
  listening o = true →
  (length (deliver num den events o).2 ≤ 1)%nat
  ∧ ((deliver num den events o).2 ≠ [] →
     listening (deliver num den events o).1 = false)
  ∧ (KeyDown "Escape" ∈ events →
     length (deliver num den events o).2 = 1%nat).
Proof.
  revert o. induction events as [|e l IH]; intros o Hl.
  - simpl. split; [lia|]. split; [done|]. by intros H%elem_of_nil.
  - simpl. pose proof (dispatch_sends num den o e) as Hd.
    destruct (dispatch num den o e) as [o1 [m|]] eqn:E; simpl in Hd.
    + rewrite (deliver_detached num den l o1 Hd). simpl.
      split; [lia|]. split; done.
    + rewrite Hl in Hd. specialize (IH o1 Hd).
      destruct (deliver num den l o1) as [o2 later].
      simpl in *. destruct IH as (H1 & H2 & H3).
      split; [exact H1|]. split; [exact H2|].
      intros [He|Hin]%elem_of_cons; [|by apply H3].
      subst e. simpl in E. unfold handleKeyDown in E.
      rewrite Hl in E. simpl in E. discriminate.
Qed.

(** X17.  An overlay answers at most once: whatever events the page sends
    after [initSelectionOverlay], at most one [SELECTION_COMPLETE] message
    goes out, and once one has gone out the listeners are detached.  When
    Escape is among the keys pressed, exactly one message goes out. *)
Theorem overlay_answers_at_most_once (num : Z) (den : positive)
  (events : list DomEvent) :
  (length (deliver num den events initSelectionOverlay).2 ≤ 1)%nat
  ∧ ((deliver num den events initSelectionOverlay).2 ≠ [] →
     listening (deliver num den events initSelectionOverlay).1 = false)
  ∧ (KeyDown "Escape" ∈ events →
     length (deliver num den events initSelectionOverlay).2 = 1%nat).
Proof. by apply deliver_once. Qed.

Lemma scale_whole (num v : Z) : scale num 1 v = v * num.
Proof.
  unfold scale.
  replace (2 * v * num + 1) with (1 + v * num * (2 * 1)) by lia.
  rewrite Z.div_add by lia. reflexivity.
Qed.

(** X18.  A selection that is large enough is reported as the rectangle
    between the point where the button went down and the point where it
    was released, whatever the direction of the drag: the viewport
    rectangle has its corner at the smaller coordinates, reaches the
    larger ones, is at least 10 by 10, and is the box that
    [handleMouseMove] painted at the release point.  For a pixel ratio
    that is a whole number, with products below 2^53, the device
    rectangle is the viewport one with every number multiplied by the
    ratio; a ratio of 0 counts as 1.  Nothing is said of the device
    rectangle for a ratio with a fraction. *)
Theorem selection_is_the_dragged_rectangle (o : Overlay)
  (clientX clientY num : Z) (den : positive) :
  listening o = true → isSelecting o = true →
  10 ≤ Z.abs (clientX - startX o) → 10 ≤ Z.abs (clientY - startY o) →
  ∃ c v,
    handleMouseUp clientX clientY num den o
    = (cleanup {| listening := true; isSelecting := false;
                  startX := startX o; startY := startY o |},
       Some (Selected c v))
    ∧ x v = Z.min (startX o) clientX ∧ y v = Z.min (startY o) clientY
    ∧ x v + width v = Z.max (startX o) clientX
    ∧ y v + height v = Z.max (startY o) clientY
    ∧ 10 ≤ width v ∧ 10 ≤ height v
    ∧ handleMouseMove clientX clientY o = Some v
    ∧ (handleMouseUp (startX o) (startY o) num den
         {| listening := true; isSelecting := true;
            startX := clientX; startY := clientY |}).2
      = Some (Selected c v)
    ∧ (num = 0 ∨ (num = 1 ∧ den = 1%positive) → c = v)
    ∧ (den = 1%positive → 0 < num →
       num * (Z.abs (startX o) + Z.abs clientX
              + Z.abs (startY o) + Z.abs clientY) < 2 ^ 53 →
       x c = x v * num ∧ y c = y v * num
       ∧ width c = width v * num ∧ height c = height v * num).
Proof.
  intros Hl Hs Hw Hh. unfold handleMouseUp, handleMouseMove.
  rewrite Hl, Hs. simpl.
  assert (Hb : (Z.abs (clientX - startX o) <? 10)
               || (Z.abs (clientY - startY o) <? 10) = false).
  { apply orb_false_iff. rewrite !Z.ltb_ge. done. }
  assert (Hb' : (Z.abs (startX o - clientX) <? 10)
                || (Z.abs (startY o - clientY) <? 10) = false).
  { apply orb_false_iff. rewrite !Z.ltb_ge. lia. }
  rewrite Hb, Hb'.
  assert (Hsym : Z.min clientX (startX o) = Z.min (startX o) clientX
                 ∧ Z.min clientY (startY o) = Z.min (startY o) clientY
                 ∧ Z.abs (startX o - clientX) = Z.abs (clientX - startX o)
                 ∧ Z.abs (startY o - clientY) = Z.abs (clientY - startY o))
    by lia.
  destruct Hsym as (-> & -> & -> & ->).
  destruct (num =? 0) eqn:En.
  - apply Z.eqb_eq in En. subst num.
    eexists _, _. split; [reflexivity|]. simpl.
    split; [done|]. split; [done|]. split; [lia|]. split; [lia|].
    split; [done|]. split; [done|]. split; [done|]. split; [done|].
    split; [intros _; rewrite !scale_whole; f_equal; lia|]. lia.
  - apply Z.eqb_neq in En.
    eexists _, _. split; [reflexivity|]. simpl.
    split; [done|]. split; [done|]. split; [lia|]. split; [lia|].
    split; [done|]. split; [done|]. split; [done|]. split; [done|].
    split.
    + intros [H|[-> ->]]; [done|]. rewrite !scale_whole. f_equal; lia.
    + intros -> _ _. by rewrite !scale_whole.
Qed.

Lemma selection_is_the_dragged_rectangle_witness :
  ∃ c v,
    handleMouseUp 40 300 2 1 Samples.dragging
    = (cleanup {| listening := true; isSelecting := false;
                  startX := startX Samples.dragging;
                  startY := startY Samples.dragging |},
       Some (Selected c v))
    ∧ x v = Z.min (startX Samples.dragging) 40
    ∧ width c = width v * 2.
Proof.
  destruct (selection_is_the_dragged_rectangle Samples.dragging 40 300 2 1
              eq_refl eq_refl)
    as (c & v & H1 & H2 & _ & _ & _ & _ & _ & _ & _ & _ & H11).
  - vm_compute. discriminate.
  - vm_compute. discriminate.
  - exists c, v. split; [exact H1|]. split; [exact H2|].
    destruct H11 as (_ & _ & H & _); [reflexivity | reflexivity
                                      | vm_compute; reflexivity | exact H].
Defined.

End OverlayFacts.

(* --------------------------------------------------------------------- *)
(** ** The service worker                                                 *)
(* --------------------------------------------------------------------- *)

Module WorkerFacts.
Import Js IndexedDBService SelectionOverlay ServiceWorker Capture.
Import UploadService UploadFacts.






(** X20.  A selection capture that fails leaves no trace in the stores:
    when the active tab is there and the settings cannot be read, or the
    browser refuses the capture, or the watermark request throws, the
    waiting capture is rejected with the error of the step that failed,
    no asset is stored and nothing is queued; the page that asked is
    answered with that error. *)
Theorem failed_selection_capture_stores_nothing (b : Browser) (t : Tab)
  (c v : SelectionCoordinates) (w : Worker) (e : string) :
  pendingSelection w = true →
  activeTab b = Some t →
  StorageService.getSettings (metadataStorage (services w)) = Throws e
  ∨ (∃ settings,
       StorageService.getSettings (metadataStorage (services w))
       = Returns settings
       ∧ captureVisibleTab b = Throws e)
  ∨ (∃ settings raw,
       StorageService.getSettings (metadataStorage (services w))
       = Returns settings
       ∧ captureVisibleTab b = Returns raw
       ∧ watermark b = Throws e) →
  let w' := handleSelectionComplete b (Selected c v) w in
  services w' = services w
  ∧ settled w' = settled w ++ [Reject e]
  ∧ pendingSelection w' = false
  ∧ respond (Reject e) = ResponseError e.
Proof.
  intros Hp Ht H. cbv zeta. unfold handleSelectionComplete. rewrite Ht.
  assert (Hs : services (settle (Reject e) w) = services w
               ∧ settled (settle (Reject e) w) = settled w ++ [Reject e]
               ∧ pendingSelection (settle (Reject e) w) = false
               ∧ respond (Reject e) = ResponseError e).
  { unfold settle. rewrite Hp. done. }
  destruct H as [H|[(settings & H1 & H2)|(settings & raw & H1 & H2 & H3)]].
  - by rewrite H.
  - by rewrite H1, H2.
  - by rewrite H1, H2, H3.
Qed.

Lemma failed_selection_capture_stores_nothing_witness :
  settled
    (handleSelectionComplete
       {| activeTab :=
            Some {| tab_url := Some "https://example.org/a?b=1";
                    tab_title := Some "An example" |};
          captureTime_ms := 0; captureTime_iso := "t";
          random := "r"; captureVisibleTab := Returns "u";
          watermark := Throws "Could not establish connection.";
          geolocation := Returns None;
          authenticated := true |}
       (Selected {| x := 0; y := 0; width := 20; height := 20 |}
                 {| x := 0; y := 0; width := 20; height := 20 |})
       Samples.waiting)
  = settled Samples.waiting ++ [Reject "Could not establish connection."].
Proof.
  assert (Hset : ∃ settings raw,
            StorageService.getSettings
              (metadataStorage (services Samples.waiting))
            = Returns settings
            ∧ Returns "u" = Returns raw
            ∧ Throws "Could not establish connection."
              = @Throws (option string) "Could not establish connection.").
  { eexists _, _. split; [vm_compute; reflexivity|]. split; reflexivity. }
  exact (proj1 (proj2
           (failed_selection_capture_stores_nothing
              {| activeTab :=
                   Some {| tab_url := Some "https://example.org/a?b=1";
                           tab_title := Some "An example" |};
                 captureTime_ms := 0; captureTime_iso := "t";
                 random := "r"; captureVisibleTab := Returns "u";
                 watermark := Throws "Could not establish connection.";
                 geolocation := Returns None;
                 authenticated := true |}
              {| tab_url := Some "https://example.org/a?b=1";
                 tab_title := Some "An example" |}
              {| x := 0; y := 0; width := 20; height := 20 |}
              {| x := 0; y := 0; width := 20; height := 20 |}
              Samples.waiting "Could not establish connection."
              eq_refl eq_refl (or_intror (or_intror Hset))))).
Defined.

Lemma updateAsset_keeps_record (k k' : string) (u : AssetUpdate) (a : Asset)
  (db : gmap string Asset) :
  db !! k = Some a →
  ∃ a', updateAsset k' u db !! k = Some a' ∧ uri a' = uri a ∧ id a' = id a.
Proof.
  intros H. unfold updateAsset. destruct (db !! k') as [x|] eqn:E.
  - destruct (decide (k' = k)) as [->|Hne].
    + rewrite lookup_insert_eq. rewrite H in E. injection E as <-.
      by eexists.
    + rewrite lookup_insert_ne by done. by exists a.
  - by exists a.
Qed.

Lemma processQueue_keeps_record (k : string) (a : Asset) (s : State) :
  assetStorage s !! k = Some a →
  ∃ a', assetStorage (processQueue s) !! k = Some a'
        ∧ uri a' = uri a ∧ id a' = id a.
Proof.
  intros H. unfold processQueue.
  destruct (isUploading s || isPaused s || _); [by exists a|].
  simpl. destruct (uploadQueue s) as [|x rest]; [by exists a|].
  unfold uploadAsset_post. simpl. by apply updateAsset_keeps_record.
Qed.

Lemma addToQueue_keeps_record (asset : Asset) (m : bool) (k : string)
  (a : Asset) (s : State) :
  assetStorage s !! k = Some a →
  ∃ a', assetStorage (addToQueue asset m s) !! k = Some a'
        ∧ uri a' = uri a ∧ id a' = id a.
Proof.
  intros H. unfold addToQueue.
  destruct (inQueue (id asset) (uploadQueue s)); [by exists a|].
  cbv zeta. unfold maybeUnpauseForManualRetry.
  destruct (m && isPaused (saveQueue (push asset s))).
  - unfold setPaused.
    destruct (processQueue_keeps_record k a
                (set_isPaused false (saveQueue (push asset s))) H)
      as (a1 & H1 & Hu1 & Hi1).
    destruct (processQueue_keeps_record k a1 _ H1) as (a2 & H2 & Hu2 & Hi2).
    exists a2. split; [exact H2|]. split; congruence.
  - by apply processQueue_keeps_record.
Qed.

(** X21.  The timer of a selection capture gives up on the promise, not on
    the overlay: when the overlay answers with a selection after the
    capture has timed out, the picture is still taken and stored under its
    id with the processed data URL, while nothing more is settled (the
    page that asked has only seen [Selection timed out]). *)
Theorem completion_after_timeout_still_stores_asset (b : Browser) (t : Tab)
  (settings : list (string * JsValue)) (raw : string)
  (processed : option string) (c v : SelectionCoordinates) (w : Worker) :
  pendingSelection w = true →
  activeTab b = Some t →
  StorageService.getSettings (metadataStorage (services w))
  = Returns settings →
  captureVisibleTab b = Returns raw → watermark b = Returns processed →
  let asset := selectionAsset b settings t (default raw processed) c in
  let w' := handleSelectionComplete b (Selected c v) (selectionTimeout w) in
  settled w' = settled w ++ [Reject "Selection timed out"]
  ∧ ∃ a, assetStorage (services w') !! id asset = Some a
         ∧ uri a = default raw processed.
Proof.
  intros Hp Ht Hs Hc Hw. cbv zeta.
  assert (Hto : selectionTimeout w
                = {| pendingSelection := false; services := services w;
                     settled := settled w ++ [Reject "Selection timed out"] |})
    by (unfold selectionTimeout, settle; by rewrite Hp).
  rewrite Hto. unfold handleSelectionComplete. simpl.
  rewrite Ht, Hs, Hc, Hw. cbv zeta. unfold settle. simpl.
  split; [done|].
  set (asset := selectionAsset b settings t (default raw processed) c).
  set (u1 := set_assetStorage (setAsset asset (assetStorage (services w)))
               (services w)).
  assert (H1 : assetStorage u1 !! id asset = Some asset)
    by (unfold u1, setAsset; simpl; apply lookup_insert_eq).
  destruct (truthy (setting "autoUpload" settings) && authenticated b).
  - destruct (addToQueue_keeps_record asset false (id asset) asset u1 H1)
      as (a' & Ha & Hu & _).
    exists a'. split; [exact Ha|]. by rewrite Hu.
  - exists asset. split; [exact H1|]. done.
Qed.

Lemma completion_after_timeout_still_stores_asset_witness :
  settled
    (handleSelectionComplete Samples.browser
       (Selected {| x := 200; y := 200; width := 400; height := 300 |}
                 {| x := 100; y := 100; width := 200; height := 150 |})
       (selectionTimeout Samples.waiting))
  = settled Samples.waiting ++ [Reject "Selection timed out"].
Proof.
  refine (proj1 (completion_after_timeout_still_stores_asset Samples.browser
            {| tab_url := Some "https://example.org/a?b=1";
               tab_title := Some "An example" |}
            StorageService.DEFAULT_SETTINGS
            "data:image/png;base64,AAAA" (Some "data:image/png;base64,BBBB")
            {| x := 200; y := 200; width := 400; height := 300 |}
            {| x := 100; y := 100; width := 200; height := 150 |}
            Samples.waiting eq_refl eq_refl _ eq_refl eq_refl)).
  vm_compute. reflexivity.
Defined.

(** X22.  A watermark request that throws fails a selection capture and
    not a capture of the visible tab: with the same answers of the
    browser, [handleScreenshotCapture] in visible mode resolves with the
    picture as the browser took it and stores it, while
    [handleSelectionComplete] rejects the waiting capture with the error
    and stores nothing. *)
Theorem watermark_failure_fails_selection_only (p : Page) (t : Tab)
  (settings : list (string * JsValue)) (raw e : string) (size : Z * Z)
  (c v : SelectionCoordinates) (w : Worker) :
  pendingSelection w = true →
  activeTab (answers p) = Some t →
  StorageService.getSettings (metadataStorage (services w))
  = Returns settings →
  captureVisibleTab (answers p) = Returns raw →
  createImageBitmap p = Returns size →
  watermark (answers p) = Throws e →
  let asset :=
    visibleAsset (answers p) (urlParses p) settings t raw size.1 size.2 in
  (handleScreenshotCapture visible p w).2
  = Some (Resolve (Captured (id asset) raw (captureTime_iso (answers p))
                     (setting "autoUpload" settings)))
  ∧ (∃ a, assetStorage (services (handleScreenshotCapture visible p w).1)
            !! id asset = Some a ∧ uri a = raw)
  ∧ settled (handleSelectionComplete (answers p) (Selected c v) w)
    = settled w ++ [Reject e]
  ∧ services (handleSelectionComplete (answers p) (Selected c v) w)
    = services w.
Proof.
  intros Hp Ht Hs Hc Hb Hw. cbv zeta.
  unfold handleScreenshotCapture, handleSelectionComplete. cbv zeta.
  rewrite Ht, Hs, Hc, Hb, Hw. destruct size as [width height]. simpl.
  split; [done|]. split.
  - set (asset := visibleAsset (answers p) (urlParses p) settings t raw
                    width height).
    set (u1 := set_assetStorage (setAsset asset (assetStorage (services w)))
                 (services w)).
    assert (H1 : assetStorage u1 !! id asset = Some asset)
      by (unfold u1, setAsset; simpl; apply lookup_insert_eq).
    destruct (truthy (setting "autoUpload" settings)
              && authenticated (answers p)).
    + destruct (addToQueue_keeps_record asset false (id asset) asset u1 H1)
        as (a' & Ha & Hu & _).
      exists a'. split; [exact Ha|]. by rewrite Hu.
    + exists asset. split; [exact H1|]. done.
  - unfold settle. rewrite Hp. done.
Qed.

Lemma watermark_failure_fails_selection_only_witness :
  services
    (handleSelectionComplete
       {| activeTab := activeTab Samples.browser; captureTime_ms := 0;
          captureTime_iso := "t"; random := "r";
          captureVisibleTab := Returns "u";
          watermark := Throws "Could not establish connection";
          geolocation := Returns None; authenticated := false |}
       (Selected {| x := 0; y := 0; width := 20; height := 20 |}
                 {| x := 0; y := 0; width := 20; height := 20 |})
       Samples.waiting)
  = services Samples.waiting.
Proof.
  refine (proj2 (proj2 (proj2 (watermark_failure_fails_selection_only
            {| answers :=
                 {| activeTab := activeTab Samples.browser;
                    captureTime_ms := 0; captureTime_iso := "t";
                    random := "r"; captureVisibleTab := Returns "u";
                    watermark := Throws "Could not establish connection";
                    geolocation := Returns None; authenticated := false |};
               executeScript := Returns tt;
               createImageBitmap := Returns (1280, 720);
               urlParses := true |}
            {| tab_url := Some "https://example.org/a?b=1";
               tab_title := Some "An example" |}
            StorageService.DEFAULT_SETTINGS "u"
            "Could not establish connection" (1280, 720)
            {| x := 0; y := 0; width := 20; height := 20 |}
            {| x := 0; y := 0; width := 20; height := 20 |}
            Samples.waiting eq_refl eq_refl _ eq_refl eq_refl eq_refl)))).
  vm_compute. reflexivity.
Defined.

(** X23.  An asset that was uploaded cannot be queued again: once the
    success of the upload in flight has been handled, the record is gone
    from the blob store, so a manual upload of that id throws
    [Asset not found], the engine is left as it is, and the popup is
    answered with that error. *)
Theorem uploaded_asset_is_not_found_for_retry (s : State) (i : nat)
  (now : string) (asset : Asset) (result : ApiResult) :
  inFlight s !! i = Some asset → id asset ∉ queueIds s →
  let s' := processQueue_resume i now (Resolved result) s in
  handleAssetUpload (id asset) s' = (s', Throws "Asset not found")
  ∧ respondUpload (handleAssetUpload (id asset) s').2
    = (false, Some "Asset not found").
Proof.
  intros Hi Hn. cbv zeta.
  assert (Habs : assetStorage (processQueue_resume i now (Resolved result) s)
                   !! id asset = None).
  { unfold processQueue_resume. rewrite Hi. apply processQueue_absent.
    simpl. unfold deleteAsset. apply lookup_delete_eq. }
  unfold handleAssetUpload, getAsset. by rewrite Habs.
Qed.

Lemma uploaded_asset_is_not_found_for_retry_witness :
  respondUpload
    (handleAssetUpload (id (set_status uploading Samples.assetA))
       (processQueue_resume 0 Samples.now Samples.registered
          (run [AddToQueue Samples.assetA false] Samples.fresh))).2
  = (false, Some "Asset not found").
Proof.
  refine (proj2 (uploaded_asset_is_not_found_for_retry
            (run [AddToQueue Samples.assetA false] Samples.fresh) 0
            Samples.now (set_status uploading Samples.assetA)
            {| cid := JString "bafy-cid"; nid := JString "bafy-nid" |} _ _)).
  - vm_compute. reflexivity.
  - vm_compute. by intros H%elem_of_nil.
Defined.

(** X24.  A manual upload of a stored asset on an engine that is paused
    and at rest with an empty queue (as after a failure for lack of
    credits) unpauses the engine and starts that upload at once: the
    request in flight and the stored record read [uploading] and carry no
    truthy [error] or [errorType]; the persisted list, written before the
    start, still names the asset. *)
Theorem manual_upload_restarts_failed_asset (s : State) (k : string)
  (stored : Asset) :
  keyed (assetStorage s) → assetStorage s !! k = Some stored →
  isPaused s = true → isUploading s = false →
  uploadQueue s = [] → inFlight s = [] →
  (handleAssetUpload k s).2 = Returns tt
  ∧ isPaused (handleAssetUpload k s).1 = false
  ∧ isUploading (handleAssetUpload k s).1 = true
  ∧ uploadQueue (handleAssetUpload k s).1 = []
  ∧ durableIds (handleAssetUpload k s).1 = [k]
  ∧ ∃ a, inFlight (handleAssetUpload k s).1 = [a]
         ∧ id a = k ∧ status a = uploading
         ∧ truthyProp "error" (metadata a) = false
         ∧ truthyProp "errorType" (metadata a) = false
         ∧ assetStorage (handleAssetUpload k s).1 !! k = Some a.
Proof.
  intros Hk Hst Hp Hu Hq Hf.
  pose proof (Hk k stored Hst) as Hid.
  unfold handleAssetUpload, getAsset. rewrite Hst. simpl.
  unfold addToQueue. rewrite Hq. simpl.
  unfold maybeUnpauseForManualRetry. simpl. rewrite Hp. simpl.
  unfold setPaused.
  set (s2 := set_isPaused false (saveQueue (push stored s))).
  assert (E : processQueue s2
              = uploadAsset_post stored
                  (set_uploadQueue [] (set_isUploading true s2))).
  { apply processQueue_start; [exact Hu|done|].
    unfold s2, push. simpl. by rewrite Hq. }
  rewrite E. rewrite processQueue_noop by (left; reflexivity).
  destruct (EngineFacts.updateAssetStatusToUploading_record stored
              stored (set_uploadQueue [] (set_isUploading true s2)))
    as (H1 & H2 & H3 & H4).
  { unfold s2. simpl. by rewrite Hid. }
  unfold uploadAsset_post.
  destruct (updateAssetStatusToUploading stored
              (set_uploadQueue [] (set_isUploading true s2)))
    as [a s3] eqn:Eu.
  simpl in H1, H2, H3, H4.
  assert (Hs3 : isPaused s3 = false ∧ isUploading s3 = true
                ∧ uploadQueue s3 = [] ∧ inFlight s3 = []
                ∧ durableIds s3 = [k] ∧ id a = k
                ∧ set_metadata (metadata a) (set_status uploading stored)
                  = a).
  { unfold updateAssetStatusToUploading in Eu. injection Eu as <- <-.
    subst s2. unfold durableIds. simpl. rewrite Hf, Hq. simpl.
    by rewrite Hid. }
  destruct Hs3 as (Hs1 & Hs2 & Hs3 & Hs4 & Hs5 & Hs6 & Hs7).
  simpl. rewrite Hs4. simpl.
  split; [done|]. split; [done|]. split; [done|]. split; [done|].
  split; [exact Hs5|].
  exists a. split; [done|]. split; [exact Hs6|]. split; [exact H1|].
  split; [exact H2|]. split; [exact H3|]. rewrite <- Hid, H4.
  by rewrite Hs7.
Qed.

Lemma manual_upload_restarts_failed_asset_witness :
  isPaused
    (handleAssetUpload "g"
       (set_isPaused true
          (initial StorageService.emptyStorage
             (setAsset Samples.assetG' ∅)))).1
  = false.
Proof.
  refine (proj1 (proj2 (manual_upload_restarts_failed_asset
            (set_isPaused true
               (initial StorageService.emptyStorage
                  (setAsset Samples.assetG' ∅)))
            "g" Samples.assetG' _ _ eq_refl eq_refl eq_refl eq_refl))).
  - simpl. apply keyed_setAsset, keyed_empty.
  - vm_compute. reflexivity.
Defined.

(** X25.  A capture of the visible tab is uploaded at once only for a
    signed-in user.  With auto-upload set and no credentials the asset is
    stored as a draft and the engine is not touched, although the result
    still reports auto-upload as set.  With credentials, on an engine that
    is at rest with an empty queue, the asset goes straight in flight: the
    request posted and the stored record read [uploading], and the queue
    is empty again. *)
Theorem capture_is_uploaded_only_when_signed_in (p : Page) (t : Tab)
  (settings : list (string * JsValue)) (raw : string) (size : Z * Z)
  (w : Worker) :
  activeTab (answers p) = Some t →
  StorageService.getSettings (metadataStorage (services w))
  = Returns settings →
  captureVisibleTab (answers p) = Returns raw →
  createImageBitmap p = Returns size →
  truthy (setting "autoUpload" settings) = true →
  let dataUrl :=
    match watermark (answers p) with
    | Returns (Some processed) => processed
    | _ => raw
    end in
  let asset :=
    visibleAsset (answers p) (urlParses p) settings t dataUrl size.1 size.2 in
  let r := handleScreenshotCapture visible p w in
  r.2 = Some (Resolve (Captured (id asset) dataUrl
                         (captureTime_iso (answers p))
                         (setting "autoUpload" settings)))
  ∧ (authenticated (answers p) = false →
     services r.1
     = set_assetStorage (setAsset asset (assetStorage (services w)))
         (services w))
  ∧ (authenticated (answers p) = true →
     isUploading (services w) = false → isPaused (services w) = false →
     uploadQueue (services w) = [] → inFlight (services w) = [] →
     uploadQueue (services r.1) = []
     ∧ isUploading (services r.1) = true
     ∧ ∃ a, inFlight (services r.1) = [a] ∧ id a = id asset
            ∧ status a = uploading
            ∧ assetStorage (services r.1) !! id asset = Some a).
Proof.
  intros Ht Hs Hc Hb Hau. cbv zeta.
  unfold handleScreenshotCapture. cbv zeta.
  rewrite Ht, Hs, Hc, Hb. destruct size as [width height]. simpl.
  rewrite Hau. simpl.
  set (dataUrl := match watermark (answers p) with
                  | Returns (Some processed) => processed
                  | _ => raw
                  end).
  set (asset := visibleAsset (answers p) (urlParses p) settings t dataUrl
                  width height).
  set (u1 := set_assetStorage (setAsset asset (assetStorage (services w)))
               (services w)).
  split; [by destruct (authenticated (answers p))|].
  split; [by intros ->|].
  intros -> Hu Hp Hq Hf. simpl.
  unfold addToQueue. change (uploadQueue u1) with (uploadQueue (services w)).
  rewrite Hq. simpl. unfold maybeUnpauseForManualRetry. simpl.
  set (s2 := saveQueue (push asset u1)).
  assert (E : processQueue s2
              = uploadAsset_post asset
                  (set_uploadQueue [] (set_isUploading true s2))).
  { apply processQueue_start; [exact Hu|exact Hp|].
    unfold s2, push. simpl. by rewrite Hq. }
  rewrite E.
  destruct (EngineFacts.updateAssetStatusToUploading_record asset asset
              (set_uploadQueue [] (set_isUploading true s2)))
    as (H1 & _ & _ & H4).
  { unfold s2, u1, setAsset. simpl. apply lookup_insert_eq. }
  unfold uploadAsset_post.
  destruct (updateAssetStatusToUploading asset
              (set_uploadQueue [] (set_isUploading true s2)))
    as [a s3] eqn:Eu.
  simpl in H1, H4.
  assert (Hs3 : isUploading s3 = true ∧ uploadQueue s3 = []
                ∧ inFlight s3 = [] ∧ id a = id asset
                ∧ set_metadata (metadata a) (set_status uploading asset) = a).
  { unfold updateAssetStatusToUploading in Eu. injection Eu as <- <-.
    subst s2. simpl. by rewrite Hf. }
  destruct Hs3 as (Hs1 & Hs2 & Hs3 & Hs4 & Hs5).
  simpl. rewrite Hs3. simpl.
  split; [done|]. split; [done|].
  exists a. split; [done|]. split; [exact Hs4|]. split; [exact H1|].
  rewrite H4. by rewrite Hs5.
Qed.

Lemma capture_is_uploaded_only_when_signed_in_witness :
  (handleScreenshotCapture visible
     {| answers := Samples.browser; executeScript := Returns tt;
        createImageBitmap := Returns (1280, 720); urlParses := true |}
     Samples.waiting).2
  = Some (Resolve
            (Captured "screenshot_1700000000000_k3j9x0q2a"
               "data:image/png;base64,BBBB" Samples.now (JBool true))).
Proof.
  refine (proj1 (capture_is_uploaded_only_when_signed_in
            {| answers := Samples.browser; executeScript := Returns tt;
               createImageBitmap := Returns (1280, 720); urlParses := true |}
            {| tab_url := Some "https://example.org/a?b=1";
               tab_title := Some "An example" |}
            StorageService.DEFAULT_SETTINGS "data:image/png;base64,AAAA"
            (1280, 720) Samples.waiting eq_refl _ eq_refl eq_refl eq_refl)).
  vm_compute. reflexivity.
Defined.

End WorkerFacts.

(* --------------------------------------------------------------------- *)
(** ** The settings through [JSON.stringify] and [JSON.parse]             *)
(* --------------------------------------------------------------------- *)

From Stdlib Require Import DecimalPos.

Module JsonFacts.
Import Js Json.

Lemma parseValue_digit (f : nat) (d : ascii) (X : string) :
  isDigit d = true →
  parseValue (S f) (String d X) = parseNumber (String d X).
Proof.
  destruct d as [[] [] [] [] [] [] [] []]; intros H;
    first [discriminate H | reflexivity].
Qed.

Lemma parseNumber_head (d : ascii) (X : string) :
  isDigit d = true → Ascii.eqb d "0" = false →
  parseNumber (String d X)
  = let '(ip, _, s2) := readDigits 0 0 (String d X) in
    match readFraction ip s2 with
    | None => None
    | Some (m, k, s3) =>
        match readExponent s3 with
        | None => None
        | Some (ev, s4) => Some (JNumber (Decimal m (ev - Z.of_nat k)), s4)
        end
    end.
Proof.
  destruct d as [[] [] [] [] [] [] [] []]; intros H H';
    first [discriminate H | discriminate H' | reflexivity].
Qed.


Lemma parseChars_quoteChar (c : ascii) (rest : string) :
  parseChars (quoteChar c rest)
  = match parseChars rest with
    | Some (str, r) => Some (String c str, r)
    | None => None
    end.
Proof.
  destruct c as [[] [] [] [] [] [] [] []]; reflexivity.
Qed.

Lemma parseChars_quoteChars (s rest : string) :
  parseChars (quoteChars s (String dquote rest)) = Some (s, rest).
Proof.
  induction s as [|c s IH]; [reflexivity|].
  simpl. by rewrite parseChars_quoteChar, IH.
Qed.

Lemma app_cons (c : ascii) (s t : string) :
  String c s +:+ t = String c (s +:+ t).
Proof. reflexivity. Qed.

Lemma app_nil (t : string) : EmptyString +:+ t = t.
Proof. reflexivity. Qed.

Lemma append_assoc (a b c : string) : (a +:+ b) +:+ c = a +:+ (b +:+ c).
Proof.
  induction a as [|x a IH]; [done|]. rewrite !app_cons. by f_equal.
Qed.

Lemma quoteChars_append (s rest tail : string) :
  quoteChars s rest +:+ tail = quoteChars s (rest +:+ tail).
Proof.
  induction s as [|c s IH]; [reflexivity|]. simpl. rewrite <- IH.
  unfold quoteChar.
  repeat match goal with |- context [if ?b then _ else _] => destruct b end;
    reflexivity.
Qed.

Lemma parse_quote (s tail : string) :
  parseChars (match quote s +:+ tail with
              | String _ r => r
              | EmptyString => EmptyString
              end) = Some (s, tail).
Proof.
  unfold quote. rewrite app_cons, quoteChars_append, app_cons, app_nil.
  apply parseChars_quoteChars.
Qed.


Lemma readDigits_stop (acc : Z) (k : nat) (rest : string) :
  startsWithDigit rest = false → readDigits acc k rest = (acc, k, rest).
Proof. destruct rest as [|c r]; simpl; [done|]. by intros ->. Qed.

Lemma readDigits_acc (l : Decimal.uint) (p : positive) (k : nat)
  (rest : string) :
  startsWithDigit rest = false →
  readDigits (Z.pos p) k (NilEmpty.string_of_uint l +:+ rest)
  = (Z.pos (Pos.of_uint_acc l p), (k + Decimal.nb_digits l)%nat, rest).
Proof.
  intros Hr. revert p k.
  induction l as [|l IH|l IH|l IH|l IH|l IH|l IH|l IH|l IH|l IH|l IH];
    intros p k; cbn [NilEmpty.string_of_uint Pos.of_uint_acc
                     Decimal.nb_digits]; rewrite ?app_cons, ?app_nil;
    [rewrite readDigits_stop by done; by rewrite Nat.add_0_r|..];
    cbn [readDigits]; change (isDigit _) with true; cbv iota;
    match goal with
    | |- readDigits ?a _ _ = (Z.pos (Pos.of_uint_acc _ ?q), _, _) =>
        replace a with (Z.pos q)
          by (match goal with
              | |- context [digitVal ?c] =>
                  let v := eval vm_compute in (digitVal c) in
                  change (digitVal c) with v
              end; lia)
    end; rewrite IH; f_equal; f_equal; lia.
Qed.

Lemma unorm_head (d : Decimal.uint) :
  match Decimal.unorm d with
  | Decimal.Nil => False
  | Decimal.D0 Decimal.Nil => True
  | Decimal.D0 _ => False
  | _ => True
  end.
Proof. induction d; simpl; done. Qed.

Lemma length_string_of_uint (l : Decimal.uint) :
  String.length (NilEmpty.string_of_uint l) = Decimal.nb_digits l.
Proof. induction l; simpl; congruence. Qed.

Lemma of_uint_acc_lower (l : Decimal.uint) (q : positive) :
  Z.pos q * 10 ^ Z.of_nat (Decimal.nb_digits l) ≤ Z.pos (Pos.of_uint_acc l q).
Proof.
  revert q. induction l; intros q; cbn [Pos.of_uint_acc Decimal.nb_digits];
    [rewrite Z.pow_0_r; lia|..];
    rewrite Nat2Z.inj_succ, Z.pow_succ_r by lia;
    match goal with
    | |- _ ≤ Z.pos (Pos.of_uint_acc _ ?q') =>
        specialize (IHl q'); nia
    end.
Qed.

(** The decimal digits of a positive number: they start with a digit that
    is not 0, are read back as the number, and are at most 21 when the
    number is below 10^21. *)
Lemma digits_pos (p : positive) :
  ∃ c r,
    digits (Z.pos p) = String c r
    ∧ isDigit c = true ∧ Ascii.eqb c "0" = false
    ∧ (∀ k rest, startsWithDigit rest = false →
         readDigits 0 k (digits (Z.pos p) +:+ rest)
         = (Z.pos p, (k + String.length (digits (Z.pos p)))%nat, rest))
    ∧ (∀ j : nat, Z.pos p < 10 ^ Z.of_nat j →
         (String.length (digits (Z.pos p)) ≤ j)%nat).
Proof.
  unfold digits. change (N.to_uint (Z.to_N (Z.pos p))) with (Pos.to_uint p).
  pose proof (DecimalPos.Unsigned.of_to p) as Hof.
  pose proof (DecimalPos.Unsigned.to_of (Pos.to_uint p)) as Hto.
  rewrite Hof in Hto. change (N.to_uint (N.pos p)) with (Pos.to_uint p) in Hto.
  pose proof (unorm_head (Pos.to_uint p)) as Hh. rewrite <- Hto in Hh.
  destruct (Pos.to_uint p) as [|l|l|l|l|l|l|l|l|l|l] eqn:E; [done|..].
  { destruct l; done. }
  all: cbn [NilZero.string_of_uint NilEmpty.string_of_uint];
    eexists _, _; (split; [reflexivity|]); (split; [reflexivity|]);
    (split; [reflexivity|]);
    cbn [Pos.of_uint] in Hof; injection Hof as Hof;
    (split;
     [intros k rest Hr; rewrite app_cons; cbn [readDigits];
      change (isDigit _) with true; cbv iota;
      match goal with
      | |- context [digitVal ?c] =>
          let v := eval vm_compute in (digitVal c) in
          change (0 * 10 + digitVal c) with v
      end;
      rewrite readDigits_acc by done; rewrite Hof;
      cbn [String.length]; rewrite length_string_of_uint;
      f_equal; f_equal; lia
     |intros j Hlt; cbn [String.length]; rewrite length_string_of_uint;
      match type of Hof with
      | Pos.of_uint_acc _ ?q = _ =>
          pose proof (of_uint_acc_lower l q) as Hlow
      end;
      rewrite Hof in Hlow;
      destruct (decide (Decimal.nb_digits l < j)%nat) as [|Hge]; [lia|];
      exfalso;
      assert (10 ^ Z.of_nat j ≤ 10 ^ Z.of_nat (Decimal.nb_digits l))
        by (apply Z.pow_le_mono_r; lia);
      nia]).
Qed.

Lemma zeros_app_length (z : nat) (s : string) :
  String.length (s +:+ zeros z) = (String.length s + z)%nat.
Proof.
  induction s as [|c s IH]; [|rewrite app_cons; simpl; by rewrite IH].
  rewrite app_nil. induction z; simpl in *; congruence.
Qed.

Lemma stripZeros_spec (s : string) :
  (stripZeros s).1 +:+ zeros (stripZeros s).2 = s.
Proof.
  induction s as [|c s IH]; [reflexivity|]. simpl.
  destruct (stripZeros s) as [r' n] eqn:E. simpl in IH.
  destruct r' as [|c' r''].
  - destruct (Ascii.eqb c "0") eqn:Ec.
    + apply Ascii.eqb_eq in Ec. subst c. simpl.
      rewrite app_nil in *. simpl. by rewrite IH.
    + simpl. rewrite app_cons. by rewrite IH.
  - simpl. rewrite app_cons. by rewrite IH.
Qed.

Lemma Number_toString_int (n : Z) :
  0 ≤ n < 10 ^ 21 →
  Number_toString (Int n) = digits n.
Proof.
  intros [H0 H1]. unfold Number_toString, Int. simpl mantissa.
  simpl exponent. destruct n as [|p|p]; [reflexivity| |lia].
  change (Z.pos p =? 0) with false. cbv iota.
  change (Z.abs (Z.pos p)) with (Z.pos p).
  destruct (digits_pos p) as (c & r & _ & _ & _ & _ & Hlen).
  specialize (Hlen 21%nat H1).
  pose proof (stripZeros_spec (digits (Z.pos p))) as Hs.
  destruct (stripZeros (digits (Z.pos p))) as [ds z]. simpl in Hs.
  assert (Hl : (String.length ds + z)%nat
               = String.length (digits (Z.pos p)))
    by (rewrite <- Hs; by rewrite zeros_app_length).
  replace (Z.of_nat (String.length ds) <=?
           Z.of_nat (String.length ds) + 0 + Z.of_nat z) with true
    by (symmetry; apply Z.leb_le; lia).
  replace (Z.of_nat (String.length ds) + 0 + Z.of_nat z <=? 21) with true
    by (symmetry; apply Z.leb_le; lia).
  cbn [andb]. change (Z.pos p <? 0) with false. cbv iota.
  replace (Z.to_nat (Z.of_nat (String.length ds) + 0 + Z.of_nat z
                     - Z.of_nat (String.length ds))) with z by lia.
  exact Hs.
Qed.


(** A value that the settings hold: a boolean, a string, or a whole number
    from 0 to below 10^21. *)



Lemma allDigits_string_of_uint (l : Decimal.uint) :
  allDigits (NilEmpty.string_of_uint l) = true.
Proof. induction l; simpl; done. Qed.

Lemma allDigits_app (a b : string) :
  allDigits (a +:+ b) = true → allDigits a = true.
Proof.
  induction a as [|c a IH]; [done|]. rewrite app_cons. simpl.
  intros [-> H]%andb_true_iff. by rewrite IH.
Qed.

Lemma append_nil_r (a : string) : a +:+ EmptyString = a.
Proof. induction a as [|c a IH]; [done|]. by rewrite app_cons, IH. Qed.

Lemma zeros_snoc (z : nat) : zeros (S z) = zeros z +:+ "0".
Proof.
  induction z as [|z IH]; [reflexivity|].
  change (String "0" (zeros (S z)) = String "0" (zeros z) +:+ "0").
  rewrite app_cons. by f_equal.
Qed.

Lemma readDigits_snoc0 (X : string) (acc : Z) (k : nat) :
  allDigits X = true →
  ∃ a j, readDigits acc k (X +:+ "0") = (a * 10, j, EmptyString).
Proof.
  revert acc k. induction X as [|c X IH]; intros acc k H.
  - rewrite app_nil. exists acc, (S k). cbn [readDigits].
    change (isDigit "0") with true. cbv iota.
    change (digitVal "0") with 0. by rewrite Z.add_0_r.
  - simpl in H. apply andb_true_iff in H as [Hc H].
    rewrite app_cons. cbn [readDigits]. rewrite Hc. by apply IH.
Qed.

Lemma stripZeros_none (p : positive) :
  Z.pos p mod 10 ≠ 0 →
  stripZeros (digits (Z.pos p)) = (digits (Z.pos p), 0%nat).
Proof.
  intros Hm. pose proof (stripZeros_spec (digits (Z.pos p))) as Hs.
  destruct (stripZeros (digits (Z.pos p))) as [ds [|z]]; simpl in Hs.
  - by rewrite append_nil_r in Hs; subst.
  - exfalso. change (String "0" (zeros z)) with (zeros (S z)) in Hs.
    rewrite zeros_snoc, <- append_assoc in Hs.
    destruct (digits_pos p) as (c & r & _ & _ & _ & Hread & _).
    specialize (Hread 0%nat EmptyString eq_refl).
    rewrite append_nil_r, <- Hs in Hread.
    assert (Hall : allDigits (ds +:+ zeros z) = true).
    { apply (allDigits_app _ "0"). rewrite Hs. unfold digits.
      change (N.to_uint (Z.to_N (Z.pos p))) with (Pos.to_uint p).
      pose proof (allDigits_string_of_uint (Pos.to_uint p)) as Ha.
      by destruct (Pos.to_uint p). }
    destruct (readDigits_snoc0 _ 0 0%nat Hall) as (a & j & E).
    rewrite E in Hread. injection Hread as Hv _. apply Hm.
    rewrite <- Hv. apply Z.mod_mul. lia.
Qed.

Lemma Number_toString_fraction (m e : Z) :
  -6 ≤ e < 0 → 0 < m < 10 ^ (- e) → m mod 10 ≠ 0 →
  Number_toString (Decimal m e)
  = "0." +:+ zeros (Z.to_nat (- (Z.of_nat (String.length (digits m)) + e)))
    +:+ digits m
  ∧ Z.of_nat (String.length (digits m)) + e ≤ 0.
Proof.
  intros He [H0 H1] Hm. destruct m as [|p|p]; [lia| |lia].
  destruct (digits_pos p) as (c & r & Hd & _ & _ & _ & Hlen).
  specialize (Hlen (Z.to_nat (- e))). rewrite Z2Nat.id in Hlen by lia.
  specialize (Hlen H1).
  assert (Hpos : (1 ≤ String.length (digits (Z.pos p)))%nat)
    by (rewrite Hd; simpl; lia).
  split; [|lia].
  unfold Number_toString. simpl mantissa. simpl exponent.
  change (Z.pos p =? 0) with false. cbv iota.
  change (Z.abs (Z.pos p)) with (Z.pos p).
  rewrite (stripZeros_none p Hm).
  set (k := Z.of_nat (String.length (digits (Z.pos p)))) in *.
  replace (k + e + Z.of_nat 0) with (k + e) by lia.
  replace (k <=? k + e) with false by (symmetry; apply Z.leb_gt; lia).
  replace (0 <? k + e) with false by (symmetry; apply Z.ltb_ge; lia).
  replace (-6 <? k + e) with true by (symmetry; apply Z.ltb_lt; lia).
  replace (k + e <=? 0) with true by (symmetry; apply Z.leb_le; lia).
  cbn [andb]. change (Z.pos p <? 0) with false. cbv iota. reflexivity.
Qed.

Lemma readDigits_zeros (j k : nat) (Y : string) :
  readDigits 0 k (zeros j +:+ Y) = readDigits 0 (k + j) Y.
Proof.
  revert k. induction j as [|j IH]; intros k.
  - by rewrite app_nil, Nat.add_0_r.
  - change (zeros (S j)) with (String "0" (zeros j)). rewrite app_cons.
    cbn [readDigits]. change (isDigit "0") with true. cbv iota.
    change (0 * 10 + digitVal "0") with 0. rewrite IH. f_equal. lia.
Qed.

Lemma parseNumber_zero_point (Y : string) :
  parseNumber (String "0" (String "." Y))
  = let '(m, k, s3) := readDigits 0 0 Y in
    if (k =? 0)%nat then None
    else
      match readExponent s3 with
      | None => None
      | Some (ev, s4) => Some (JNumber (Decimal m (ev - Z.of_nat k)), s4)
      end.
Proof.
  unfold parseNumber. simpl. destruct (readDigits 0 0 Y) as [[m k] s3].
  by destruct (k =? 0)%nat.
Qed.

Lemma parseValue_fraction (f : nat) (m e : Z) (c : ascii) (rest : string) :
  -6 ≤ e < 0 → 0 < m < 10 ^ (- e) → m mod 10 ≠ 0 →
  c = ","%char ∨ c = "}"%char →
  parseValue (S f) (Number_toString (Decimal m e) +:+ String c rest)
  = Some (JNumber (Decimal m e), String c rest).
Proof.
  intros He Hm Hmod Hc.
  destruct (Number_toString_fraction m e He Hm Hmod) as [-> Hk].
  rewrite !append_assoc. rewrite !app_cons, app_nil.
  rewrite parseValue_digit by reflexivity.
  rewrite parseNumber_zero_point, readDigits_zeros.
  destruct m as [|p|p]; [lia| |lia].
  destruct (digits_pos p) as (d & r & Hd & _ & _ & Hread & _).
  assert (Hr : startsWithDigit (String c rest) = false)
    by (destruct Hc as [-> | ->]; reflexivity).
  rewrite (Hread _ _ Hr).
  assert (Hpos : (1 ≤ String.length (digits (Z.pos p)))%nat)
    by (rewrite Hd; simpl; lia).
  set (len := String.length (digits (Z.pos p))) in *.
  destruct (_ =? 0)%nat eqn:E; [apply Nat.eqb_eq in E; lia|].
  assert (Hex : readExponent (String c rest) = Some (0, String c rest))
    by (destruct Hc as [-> | ->]; reflexivity).
  rewrite Hex. do 4 f_equal. lia.
Qed.



Lemma parseValue_number (f : nat) (n : Z) (c : ascii) (rest : string) :
  0 ≤ n < 10 ^ 21 → c = ","%char ∨ c = "}"%char →
  parseValue (S f) (Number_toString (Int n) +:+ String c rest)
  = Some (JNumber (Int n), String c rest).
Proof.
  intros Hn Hc. rewrite Number_toString_int by done.
  destruct n as [|p|p]; [|clear Hn|lia].
  - destruct Hc as [-> | ->]; reflexivity.
  - destruct (digits_pos p) as (d & r & Hd & Hdig & Hnz & Hread & _).
    assert (Hr : startsWithDigit (String c rest) = false)
      by (destruct Hc as [-> | ->]; reflexivity).
    specialize (Hread 0%nat (String c rest) Hr).
    rewrite Hd in *. rewrite app_cons in *.
    rewrite parseValue_digit, parseNumber_head by done.
    rewrite Hread. destruct Hc as [-> | ->]; reflexivity.
Qed.

Lemma quote_app (k tail : string) :
  quote k +:+ tail = String dquote (quoteChars k (String dquote tail)).
Proof.
  unfold quote. by rewrite app_cons, quoteChars_append, app_cons, app_nil.
Qed.

Lemma parseValue_string (f : nat) (s tail : string) :
  parseValue (S f) (quote s +:+ tail) = Some (JString s, tail).
Proof.
  rewrite quote_app. cbn [parseValue skipWs].
  change (isWs dquote) with false. cbv iota.
  change (Ascii.eqb dquote dquote) with true. cbv iota.
  by rewrite parseChars_quoteChars.
Qed.

(** The text of a plain value, and what the parser makes of it. *)
Lemma serialize_plain (v : JsValue) (indent : string) :
  plainValue v →
  ∃ t, serialize None EmptyString indent v = Some t
       ∧ (0 < String.length t)%nat
       ∧ ∀ f c rest, c = ","%char ∨ c = "}"%char →
           parseValue (S f) (t +:+ String c rest) = Some (v, String c rest).
Proof.
  destruct v as [| |[]|[m e]|s| |]; simpl; try done; intros H.
  - eexists. split; [reflexivity|]. split; [simpl; lia|].
    intros f c rest [-> | ->]; reflexivity.
  - eexists. split; [reflexivity|]. split; [simpl; lia|].
    intros f c rest [-> | ->]; reflexivity.
  - unfold plainNumber in H. simpl in H. destruct H as [[-> H]|(He & H & Hm)].
    + eexists. split; [reflexivity|]. split.
      * change (Decimal m 0) with (Int m).
        rewrite Number_toString_int by done.
        destruct m as [|p|p]; [simpl; lia| |lia].
        destruct (digits_pos p) as (d & r & -> & _). simpl. lia.
      * intros f c rest Hc. by apply (parseValue_number f m c rest).
    + eexists. split; [reflexivity|]. split.
      * destruct (Number_toString_fraction m e He H Hm) as [-> _].
        rewrite !app_cons. simpl. lia.
      * intros f c rest Hc. by apply parseValue_fraction.
  - exists (quote s). split; [reflexivity|]. split; [simpl; lia|].
    intros f c rest _. exact (parseValue_string f s (String c rest)).
Qed.




Lemma find_text {B} (g : JsValue → B) (pre suf : list (string * JsValue))
  (k : string) (v : JsValue) :
  k ∉ map fst pre →
  ∃ i, list_find (fun kt : string * B => kt.1 = k)
         (map (fun kv => (kv.1, g kv.2)) (pre ++ (k, v) :: suf))
       = Some (i, (k, g v)).
Proof.
  induction pre as [|[k0 v0] pre IH]; intros Hn; simpl.
  - rewrite decide_True by done. by eexists.
  - apply not_elem_of_cons in Hn as [Hne Hn].
    rewrite decide_False by (simpl in *; intros E; by apply Hne).
    destruct (IH Hn) as [i ->]. by eexists.
Qed.

Lemma members_suffix (props pre suf : list (string * JsValue)) :
  props = pre ++ suf → NoDup (map fst props) →
  Forall (fun kv => plainValue kv.2) suf →
  members ":" (map fst suf)
    (map (fun kv => (kv.1, serialize None EmptyString EmptyString kv.2)) props)
  = map memberText suf.
Proof.
  revert pre. induction suf as [|[k v] suf IH]; intros pre -> Hnd Hall;
    [reflexivity|].
  apply Forall_cons in Hall as [Hv Hall]. cbn [map members fst].
  assert (Hk : k ∉ map fst pre).
  { rewrite map_app in Hnd. apply NoDup_app in Hnd as (_ & Hd & _).
    intros Hin. apply (Hd k Hin). simpl. apply list_elem_of_here. }
  destruct (find_text (serialize None EmptyString EmptyString) pre suf k v Hk)
    as [i ->].
  destruct (serialize_plain v EmptyString Hv) as (t & Ht & _).
  simpl in Ht. rewrite Ht. f_equal.
  - unfold memberText. simpl. by rewrite Ht.
  - apply (IH (pre ++ [(k, v)])); [by rewrite <- app_assoc|done|done].
Qed.

Lemma setProp_fresh (k : string) (v : JsValue) (acc : list (string * JsValue)) :
  k ∉ map fst acc → setProp k v acc = acc ++ [(k, v)].
Proof.
  induction acc as [|[k0 v0] acc IH]; intros Hn; [reflexivity|]. simpl.
  apply not_elem_of_cons in Hn as [Hne Hn].
  simpl in Hne.
  destruct (String.eqb k0 k) eqn:E; [apply String.eqb_eq in E; congruence|].
  by rewrite IH.
Qed.

Lemma fold_setProp_fresh (ps acc : list (string * JsValue)) :
  NoDup (map fst (acc ++ ps)) →
  fold_left (fun a kv => setProp kv.1 kv.2 a) ps acc = acc ++ ps.
Proof.
  revert acc. induction ps as [|[k v] ps IH]; intros acc Hnd; simpl.
  - by rewrite app_nil_r.
  - rewrite setProp_fresh.
    + rewrite IH; rewrite <- app_assoc; done.
    + rewrite map_app in Hnd. apply NoDup_app in Hnd as (_ & Hd & _).
      intros Hin. apply (Hd k Hin). simpl. apply list_elem_of_here.
Qed.

Lemma length_append (a b : string) :
  String.length (a +:+ b) = (String.length a + String.length b)%nat.
Proof.
  induction a as [|c a IH]; [reflexivity|]. rewrite app_cons. simpl.
  by rewrite IH.
Qed.

Lemma parseMembers_props (ps acc : list (string * JsValue)) (fuel : nat)
  (rest : string) :
  ps ≠ [] → Forall (fun kv => plainValue kv.2) ps →
  (length ps < fuel)%nat →
  parseMembers fuel
    (String.concat "," (map memberText ps) +:+ String "}" rest) acc
  = Some (JObject (fold_left (fun a kv => setProp kv.1 kv.2 a) ps acc), rest).
Proof.
  revert acc fuel. induction ps as [|[k v] ps IH]; intros acc fuel Hne Hall Hf;
    [done|].
  apply Forall_cons in Hall as [Hv Hall].
  destruct fuel as [|f]; [simpl in Hf; lia|].
  destruct (serialize_plain v EmptyString Hv) as (t & Ht & _ & Hparse').
  assert (Hparse : ∀ c rest, c = ","%char ∨ c = "}"%char →
            parseValue f (t +:+ String c rest) = Some (v, String c rest)).
  { destruct f as [|f']; [simpl in Hf; lia|]. apply Hparse'. }
  clear Hparse'.
  assert (Hm : ∀ tail, memberText (k, v) +:+ tail
                       = String dquote (quoteChars k
                           (String dquote (String ":" (t +:+ tail))))).
  { intros tail. unfold memberText. simpl. rewrite Ht. simpl.
    rewrite !append_assoc, quote_app. by rewrite app_cons, app_nil. }
  destruct ps as [|kv' ps'].
  - cbn [map String.concat]. rewrite Hm. cbn [parseMembers skipWs].
    change (isWs dquote) with false. cbv iota.
    change (Ascii.eqb dquote dquote) with true. cbv iota.
    rewrite parseChars_quoteChars. cbn [skipWs].
    change (isWs ":") with false. cbv iota.
    change (Ascii.eqb ":" ":") with true. cbv iota.
    rewrite Hparse by (by right). reflexivity.
  - change (String.concat "," (map memberText ((k, v) :: kv' :: ps')))
      with (memberText (k, v) +:+ "," +:+
            String.concat "," (map memberText (kv' :: ps'))).
    rewrite !append_assoc, Hm. cbn [parseMembers skipWs].
    change (isWs dquote) with false. cbv iota.
    change (Ascii.eqb dquote dquote) with true. cbv iota.
    rewrite parseChars_quoteChars. cbn [skipWs].
    change (isWs ":") with false. cbv iota.
    change (Ascii.eqb ":" ":") with true. cbv iota.
    rewrite app_cons, app_nil.
    rewrite Hparse by (by left). cbn [skipWs].
    change (isWs ",") with false. cbv iota.
    change (Ascii.eqb "," ",") with true. cbv iota.
    rewrite IH; [reflexivity|done|done|simpl in *; lia].
Qed.

Lemma length_members (ps : list (string * JsValue)) :
  (length ps ≤ String.length (String.concat "," (map memberText ps)))%nat.
Proof.
  induction ps as [|kv ps IH]; [simpl; lia|].
  assert (Hm : (1 ≤ String.length (memberText kv))%nat).
  { unfold memberText. rewrite quote_app. simpl. lia. }
  destruct ps as [|kv' ps']; [simpl in *; lia|].
  change (String.concat "," (map memberText (kv :: kv' :: ps')))
    with (memberText kv +:+ "," +:+
          String.concat "," (map memberText (kv' :: ps'))).
  rewrite !length_append. simpl in *. lia.
Qed.

(** [JSON.parse(JSON.stringify(o))] for an object of plain values with
    distinct keys. *)
Lemma parse_stringify_plain (props : list (string * JsValue)) :
  plainProps props →
  ∃ text c r,
    JSON_stringify (JObject props) None 0 = Some text
    ∧ text = String c r
    ∧ JSON_parse text = Some (JObject props).
Proof.
  intros [Hnd Hall].
  assert (Hs : JSON_stringify (JObject props) None 0
               = Some (wrap "{" "}" EmptyString EmptyString
                         (map memberText props))).
  { unfold JSON_stringify.
    change (propertyList [] <$> None) with (@None (list string)).
    change (String.string_of_list_ascii (replicate 0 " "%char))
      with EmptyString.
    cbn [serialize default].
    change (EmptyString +:+ EmptyString) with EmptyString.
    change (String.eqb EmptyString EmptyString) with true. cbv iota.
    by rewrite (members_suffix props [] props eq_refl Hnd Hall). }
  rewrite Hs. clear Hs.
  destruct props as [|kv ps].
  - eexists _, _, _. split; [reflexivity|]. split; reflexivity.
  - set (body := String.concat "," (map memberText (kv :: ps))).
    assert (Hw : wrap "{" "}" EmptyString EmptyString
                   (map memberText (kv :: ps))
                 = String "{" (body +:+ String "}" EmptyString))
      by reflexivity.
    rewrite Hw. eexists _, _, _. split; [reflexivity|].
    split; [reflexivity|]. unfold JSON_parse.
    set (n := String.length (String "{" (body +:+ "}"))).
    assert (Hn : (length (kv :: ps) ≤ n)%nat).
    { unfold n. simpl String.length. rewrite length_append.
      pose proof (length_members (kv :: ps)). fold body in H. lia. }
    assert (Hb : ∃ r, body +:+ "}" = String dquote r).
    { unfold body. destruct ps as [|kv' ps'].
      - cbn [map String.concat]. unfold memberText. rewrite append_assoc.
        rewrite quote_app. by eexists.
      - change (String.concat "," (map memberText (kv :: kv' :: ps')))
          with (memberText kv +:+ "," +:+
                String.concat "," (map memberText (kv' :: ps'))).
        unfold memberText at 1. rewrite !append_assoc, quote_app.
        by eexists. }
    destruct Hb as [r Hb].
    change (2 + 2 * n)%nat with (S (S (n + (n + 0)))).
    cbn [parseValue skipWs]. change (isWs "{") with false. cbv iota.
    change (Ascii.eqb "{" dquote) with false.
    change (Ascii.eqb "{" "[") with false.
    change (Ascii.eqb "{" "{") with true. cbv iota.
    rewrite Hb. cbn [skipWs]. change (isWs dquote) with false. cbv iota.
    change (Ascii.eqb dquote "}") with false. cbv iota.
    rewrite <- Hb. unfold body.
    rewrite parseMembers_props; [|done|done|simpl in *; lia].
    simpl. rewrite fold_setProp_fresh by (by destruct kv).
    by destruct kv.
Qed.


Lemma getProp_elem (k : string) (v : JsValue) (l : list (string * JsValue)) :
  NoDup (map fst l) → getProp k l = Some v ↔ (k, v) ∈ l.
Proof.
  induction l as [|[k0 v0] l IH]; simpl; intros Hnd.
  - split; [done | by intros H%elem_of_nil].
  - apply NoDup_cons in Hnd as [Hn Hnd]. rewrite elem_of_cons.
    destruct (String.eqb k0 k) eqn:E.
    + apply String.eqb_eq in E. subst k0. split.
      * intros [= ->]. by left.
      * intros [[= ->]|Hin]; [done|]. exfalso. apply Hn.
        apply list_elem_of_fmap. by exists (k, v).
    + apply String.eqb_neq in E. rewrite (IH Hnd). split; [by right|].
      intros [[= -> ->]|Hin]; [done | exact Hin].
Qed.

Lemma getProp_rev (k : string) (l : list (string * JsValue)) :
  NoDup (map fst l) → getProp k (rev l) = getProp k l.
Proof.
  intros Hnd.
  assert (Hnd' : NoDup (map fst (rev l))).
  { rewrite map_rev. apply NoDup_ListNoDup, List.NoDup_rev.
    by apply NoDup_ListNoDup. }
  assert (Hin : ∀ x, x ∈ rev l ↔ x ∈ l).
  { intros x. rewrite !list_elem_of_In. symmetry. apply List.in_rev. }
  destruct (getProp k l) as [v|] eqn:E.
  - apply getProp_elem; [done|]. rewrite Hin. by apply getProp_elem.
  - destruct (getProp k (rev l)) as [v|] eqn:E'; [|done].
    apply getProp_elem in E'; [|done]. rewrite Hin in E'.
    apply getProp_elem in E'; [|done]. congruence.
Qed.

Lemma setProp_keys (k : string) (v : JsValue) (l : list (string * JsValue)) :
  map fst (setProp k v l)
  = if bool_decide (k ∈ map fst l) then map fst l else map fst l ++ [k].
Proof.
  induction l as [|[k0 v0] l IH]; [done|]. simpl.
  destruct (String.eqb k0 k) eqn:E.
  - apply String.eqb_eq in E. subst k0.
    rewrite bool_decide_eq_true_2 by apply list_elem_of_here. done.
  - apply String.eqb_neq in E. simpl. rewrite IH.
    destruct (bool_decide (k ∈ map fst l)) eqn:Eb.
    + apply bool_decide_eq_true in Eb.
      rewrite bool_decide_eq_true_2 by (by apply list_elem_of_further). done.
    + apply bool_decide_eq_false in Eb.
      rewrite bool_decide_eq_false_2; [done|].
      intros [?|?]%elem_of_cons; [congruence|done].
Qed.

Lemma setProp_plain (k : string) (v : JsValue) (l : list (string * JsValue)) :
  plainValue v → plainProps l → plainProps (setProp k v l).
Proof.
  intros Hv [Hnd Hall]. split.
  - rewrite setProp_keys. case_bool_decide as Hin; [done|].
    apply NoDup_app. split; [done|]. split; [|apply NoDup_singleton].
    intros x Hx ->%list_elem_of_singleton. done.
  - clear Hnd. induction l as [|[k0 v0] l IH]; simpl.
    + by constructor.
    + apply Forall_cons in Hall as [H0 Hall].
      destruct (String.eqb k0 k); constructor; try done. by apply IH.
Qed.

Lemma spread_plain (a b : list (string * JsValue)) :
  plainProps a → plainProps b → plainProps (spread a (JObject b)).
Proof.
  intros Ha [_ Hb]. unfold spread. simpl. revert a Ha.
  induction b as [|[k v] b IH]; intros a Ha; [done|].
  apply Forall_cons in Hb as [Hv Hb]. simpl. apply IH; [done|].
  by apply setProp_plain.
Qed.

Lemma DEFAULT_SETTINGS_plain : plainProps StorageService.DEFAULT_SETTINGS.
Proof.
  split.
  - apply (bool_decide_unpack _). vm_compute. reflexivity.
  - unfold StorageService.DEFAULT_SETTINGS.
    repeat (apply Forall_cons; split); try apply Forall_nil; try exact I.
    all: left; split; [reflexivity|split; [discriminate|reflexivity]].
Qed.

Lemma getSettings_setSettings (settings : list (string * JsValue))
  (st : StorageService.Storage) :
  plainProps settings →
  StorageService.getSettings (StorageService.setSettings settings st)
  = Returns (spread StorageService.DEFAULT_SETTINGS (JObject settings))
  ∧ StorageService.upload_queue (StorageService.setSettings settings st)
    = StorageService.upload_queue st
  ∧ StorageService.insufficient_credits_dismissed
      (StorageService.setSettings settings st)
    = StorageService.insufficient_credits_dismissed st.
Proof.
  intros Hp. destruct (parse_stringify_plain settings Hp)
    as (text & c & r & Hs & -> & Hparse).
  unfold StorageService.setSettings. rewrite Hs.
  unfold StorageService.getSettings. simpl. by rewrite Hparse.
Qed.

(** X26.  Settings that are stored are read back: for a settings object
    with distinct keys whose values are booleans, strings, whole numbers
    below 10^21 or decimal fractions of up to six places, [getSettings]
    after [setSettings] parses the stored text without error, returns each
    stored setting with its value and the default for every other key;
    the persisted queue and the dismissal flag are not touched. *)
Theorem stored_settings_are_read_back (settings : list (string * JsValue))
  (st : StorageService.Storage) :
  plainProps settings →
  ∃ read,
    StorageService.getSettings (StorageService.setSettings settings st)
    = Returns read
    ∧ (∀ k v, getProp k settings = Some v → getProp k read = Some v)
    ∧ (∀ k, getProp k settings = None →
         getProp k read = getProp k StorageService.DEFAULT_SETTINGS)
    ∧ StorageService.upload_queue (StorageService.setSettings settings st)
      = StorageService.upload_queue st
    ∧ StorageService.insufficient_credits_dismissed
        (StorageService.setSettings settings st)
      = StorageService.insufficient_credits_dismissed st.
Proof.
  intros Hp. destruct (getSettings_setSettings settings st Hp)
    as (Hg & Hq & Hd).
  eexists. split; [exact Hg|]. split; [|split; [|done]].
  - intros k v Hk. rewrite JsFacts.getProp_spread. simpl.
    rewrite getProp_rev by apply Hp. by rewrite Hk.
  - intros k Hk. rewrite JsFacts.getProp_spread. simpl.
    rewrite getProp_rev by apply Hp. by rewrite Hk.
Qed.

Lemma getSettings_has_defaults (st : StorageService.Storage)
  (current : list (string * JsValue)) (k : string) :
  StorageService.getSettings st = Returns current →
  getProp k current = None →
  getProp k StorageService.DEFAULT_SETTINGS = None.
Proof.
  unfold StorageService.getSettings.
  destruct (StorageService.user_settings st) as [[|c r]|];
    try (intros [= <-]; done).
  destruct (JSON_parse (String c r)) as [saved|]; [|done].
  intros [= <-]. rewrite JsFacts.getProp_spread.
  by destruct (getProp k (rev (ownProps saved))).
Qed.

(** X27.  [updateSettings] changes the settings it names and no other:
    when the stored settings can be read, the update succeeds, and
    [getSettings] afterwards returns the new value for each key of the
    update and the value read before for every other key; the persisted
    queue and the dismissal flag are not touched. *)
Theorem updateSettings_changes_what_it_names
  (current updates : list (string * JsValue)) (st : StorageService.Storage) :
  StorageService.getSettings st = Returns current →
  plainProps current → plainProps updates →
  ∃ st' read,
    StorageService.updateSettings (JObject updates) st = Returns st'
    ∧ StorageService.getSettings st' = Returns read
    ∧ (∀ k v, getProp k updates = Some v → getProp k read = Some v)
    ∧ (∀ k, getProp k updates = None → getProp k read = getProp k current)
    ∧ StorageService.upload_queue st' = StorageService.upload_queue st
    ∧ StorageService.insufficient_credits_dismissed st'
      = StorageService.insufficient_credits_dismissed st.
Proof.
  intros Hg Hc Hu.
  pose proof (spread_plain current updates Hc Hu) as Hm.
  destruct (getSettings_setSettings (spread current (JObject updates)) st Hm)
    as (Hg' & Hq & Hd).
  unfold StorageService.updateSettings. rewrite Hg.
  eexists _, _. split; [reflexivity|]. split; [exact Hg'|].
  assert (Hr : ∀ k, getProp k (spread StorageService.DEFAULT_SETTINGS
                                 (JObject (spread current (JObject updates))))
                    = match getProp k updates with
                      | Some v => Some v
                      | None => getProp k current
                      end).
  { intros k. rewrite JsFacts.getProp_spread. simpl.
    rewrite getProp_rev by apply Hm. rewrite JsFacts.getProp_spread. simpl.
    rewrite getProp_rev by apply Hu.
    destruct (getProp k updates) as [v|]; [done|].
    destruct (getProp k current) as [v|] eqn:E; [done|].
    by apply (getSettings_has_defaults st current). }
  split; [|split; [|done]].
  - intros k v Hk. by rewrite Hr, Hk.
  - intros k Hk. by rewrite Hr, Hk.
Qed.


Lemma stored_settings_are_read_back_witness :
  ∃ read,
    StorageService.getSettings
      (StorageService.setSettings
         [("autoUpload", JBool false);
          ("timestampOpacity", JNumber (Decimal 75 (-2)));
          ("screenshotQuality", JNumber (Int 80));
          ("huntModeHashtags", JString "#ProofSnap")]
         StorageService.emptyStorage)
    = Returns read
    ∧ getProp "timestampOpacity" read = Some (JNumber (Decimal 75 (-2))).
Proof.
  assert (Hp : plainProps
                 [("autoUpload", JBool false);
                  ("timestampOpacity", JNumber (Decimal 75 (-2)));
                  ("screenshotQuality", JNumber (Int 80));
                  ("huntModeHashtags", JString "#ProofSnap")]).
  { split; [apply (bool_decide_unpack _); vm_compute; reflexivity|].
    repeat (apply Forall_cons; split); try apply Forall_nil; try exact I.
    - right. vm_compute. repeat split; discriminate.
    - left. vm_compute. repeat split; discriminate. }
  destruct (stored_settings_are_read_back _ StorageService.emptyStorage Hp)
    as (read & Hg & Hk & _).
  exists read. split; [exact Hg|]. apply Hk. reflexivity.
Defined.

Lemma updateSettings_changes_what_it_names_witness :
  ∃ st' read,
    StorageService.updateSettings
      (JObject [("timestampOpacity", JNumber (Decimal 5 (-1)))])
      StorageService.emptyStorage = Returns st'
    ∧ StorageService.getSettings st' = Returns read
    ∧ getProp "timestampOpacity" read = Some (JNumber (Decimal 5 (-1))).
Proof.
  assert (Hp : plainProps [("timestampOpacity", JNumber (Decimal 5 (-1)))]).
  { split; [apply (bool_decide_unpack _); vm_compute; reflexivity|].
    repeat (apply Forall_cons; split); try apply Forall_nil; try exact I.
    right. vm_compute. repeat split; discriminate. }
  destruct (updateSettings_changes_what_it_names
              StorageService.DEFAULT_SETTINGS _ StorageService.emptyStorage
              eq_refl DEFAULT_SETTINGS_plain Hp)
    as (st' & read & Hu & Hg & Hk & _).
  exists st', read. split; [exact Hu|]. split; [exact Hg|].
  apply Hk. reflexivity.
Defined.

End JsonFacts.

(* --------------------------------------------------------------------- *)
(** ** The version bump of the release script                             *)
(* --------------------------------------------------------------------- *)

Module VersionFacts.
Import Js Json BumpVersion JsonFacts.

Lemma allDigits_digits (n : Z) : allDigits (digits n) = true.
Proof.
  unfold digits. pose proof (allDigits_string_of_uint (N.to_uint (Z.to_N n))).
  by destruct (N.to_uint (Z.to_N n)).
Qed.

Lemma split_digits (X rest : string) :
  allDigits X = true →
  split (X +:+ String "." rest) = X :: split rest.
Proof.
  induction X as [|c X IH]; intros H; [reflexivity|].
  simpl in H. apply andb_true_iff in H as [Hc H].
  rewrite app_cons. cbn [split]. rewrite (IH H).
  destruct (Ascii.eqb c ".") eqn:E; [|done].
  apply Ascii.eqb_eq in E. subst c. discriminate Hc.
Qed.

Lemma split_last (X : string) : allDigits X = true → split X = [X].
Proof.
  induction X as [|c X IH]; intros H; [reflexivity|].
  simpl in H. apply andb_true_iff in H as [Hc H].
  cbn [split]. rewrite (IH H).
  destruct (Ascii.eqb c ".") eqn:E; [|done].
  apply Ascii.eqb_eq in E. subst c. discriminate Hc.
Qed.

Lemma toNumber_digits (n : Z) : 0 ≤ n → toNumber (digits n) = Some (Num n).
Proof.
  intros Hn. unfold toNumber. rewrite allDigits_digits.
  destruct n as [|p|p]; [reflexivity| |lia].
  destruct (digits_pos p) as (c & r & _ & _ & _ & Hread & _).
  specialize (Hread 0%nat EmptyString eq_refl).
  rewrite append_nil_r in Hread. by rewrite Hread.
Qed.

Lemma partText_num (n : Z) : 0 ≤ n < 10 ^ 21 → partText (Num n) = digits n.
Proof. apply Number_toString_int. Qed.

(** X28.  [bumpVersion] on a version of three whole-number parts (each
    below 2^53, where the script's arithmetic is exact): a patch bump adds
    one to the third part, a minor bump adds one to the second and resets
    the third, a major bump adds one to the first and resets the others.
    On a version with a single part only the major bump gives a
    three-part version; the others write [NaN]. *)
Theorem bumpVersion_bumps_one_part (a b c : Z) :
  0 ≤ a < 2 ^ 53 - 1 → 0 ≤ b < 2 ^ 53 - 1 → 0 ≤ c < 2 ^ 53 - 1 →
  bumpVersion (semver a b c) patch = Some (semver a b (c + 1))
  ∧ bumpVersion (semver a b c) minor = Some (semver a (b + 1) 0)
  ∧ bumpVersion (semver a b c) major = Some (semver (a + 1) 0 0)
  ∧ bumpVersion (digits a) major = Some (semver (a + 1) 0 0)
  ∧ bumpVersion (digits a) minor = Some (digits a +:+ ".NaN.0")
  ∧ bumpVersion (digits a) patch = Some (digits a +:+ "..NaN").
Proof.
  intros Ha Hb Hc.
  assert (Hbig : 2 ^ 53 < 10 ^ 21) by reflexivity.
  assert (Hs : mapM toNumber (split (semver a b c))
               = Some [Num a; Num b; Num c]).
  { unfold semver. rewrite !app_cons, !app_nil.
    rewrite split_digits by apply allDigits_digits.
    rewrite split_digits by apply allDigits_digits.
    rewrite split_last by apply allDigits_digits.
    simpl. rewrite !toNumber_digits by lia. reflexivity. }
  assert (H1 : mapM toNumber (split (digits a)) = Some [Num a]).
  { rewrite split_last by apply allDigits_digits.
    simpl. rewrite toNumber_digits by lia. reflexivity. }
  unfold bumpVersion. rewrite Hs, H1. unfold semver.
  cbn [setAt getAt lookup list_lookup default increment map String.concat
       from_option id].
  rewrite !partText_num by lia.
  change (partText NaN) with "NaN". change (partText Hole) with EmptyString.
  repeat split; try reflexivity.
Qed.

Lemma bumpVersion_bumps_one_part_witness :
  bumpVersion (semver 1 9 12) minor = Some (semver 1 (9 + 1) 0).
Proof.
  refine (proj1 (proj2 (bumpVersion_bumps_one_part 1 9 12 _ _ _)));
    (split; [discriminate | reflexivity]).
Defined.

End VersionFacts.
